(** * Lipsync: speech-timing and pause-synchronisation engine

    A shallow embedding of [src/BlendShapeMapper.js] (classes
    [BlendShapeMapper] and [AudioAnalyzer]) and [src/LipSyncController.js]
    (class [LipSyncController]), followed by the properties of the
    specification that concern them and by further properties of the
    sources.

    JavaScript numbers are IEEE-754 binary64 values; they are modelled by
    Rocq's primitive floats, whose operations round exactly as the
    JavaScript ones do.  [Map] objects and the object of the controls are
    modelled by finite maps over strings, the constant tables of the
    constructors by association lists in source order.  Timers, animation
    frames and the channel sink are part of the state of the controller. *)

From Stdlib Require Import ZArith List String Ascii Bool Lia.
From Stdlib Require Import Floats.PrimFloat Floats.SpecFloat Floats.FloatOps.
From Stdlib Require Import DecimalString.
From Stdlib Require Floats.FloatAxioms.
From Stdlib Require QArith.
From stdpp Require Import gmap strings.

Set Warnings "-inexact-float".
#[local] Open Scope string_scope.
#[local] Open Scope list_scope.

(** ** JavaScript primitives used by the sources *)

Module JS.

(** ToBoolean on a number: [0], [-0] and [NaN] are falsy. *)
Definition truthy (x : float) : bool :=
  negb (PrimFloat.eqb x 0%float) && PrimFloat.eqb x x.

(** [v || d] where [v] is a number or [undefined]. *)
Definition orDefault (v : option float) (d : float) : float :=
  match v with
  | Some x => if truthy x then x else d
  | None => d
  end.

(** [a >= b] on numbers (false as soon as one side is NaN). *)
Definition geb (a b : float) : bool := PrimFloat.leb b a.

(** An integer as a number (round to nearest even beyond 2^53). *)
Definition ofZ (z : Z) : float := SF2Prim (binary_normalize prec emax z 0 false).

Definition ofNat (n : nat) : float := ofZ (Z.of_nat n).

(** [floor (n * 2^e)] and [floor (n * 2^e + 1/2)] over the integers. *)
Definition floorScaled (n e : Z) : Z :=
  if (0 <=? e)%Z then (n * 2 ^ e)%Z else (n / 2 ^ (- e))%Z.

Definition nearestScaled (n e : Z) : Z :=
  if (0 <=? e)%Z then (n * 2 ^ e)%Z else ((2 * n + 2 ^ (- e)) / 2 ^ (- e + 1))%Z.

(** [Math.floor]: the exact integer [floor x] of a finite number;
    non-finite numbers have none and are mapped to 0. *)
Definition floorZ (x : float) : Z :=
  match Prim2SF x with
  | S754_finite s m e => floorScaled (if s then Z.neg m else Z.pos m) e
  | _ => 0%Z
  end.

(** [Math.round]: the nearest integer, ties towards +infinity. *)
Definition roundZ (x : float) : Z :=
  match Prim2SF x with
  | S754_finite s m e => nearestScaled (if s then Z.neg m else Z.pos m) e
  | _ => 0%Z
  end.

(** [Math.min(1, x)]: NaN if [x] is NaN. *)
Definition min1 (x : float) : float :=
  if PrimFloat.eqb x x then (if PrimFloat.ltb x 1%float then x else 1%float) else x.

Definition lowerAscii (c : ascii) : ascii :=
  let n := nat_of_ascii c in
  if (65 <=? n)%nat && (n <=? 90)%nat then ascii_of_nat (n + 32) else c.

(** [s.toLowerCase()] on strings of ASCII characters. *)
Fixpoint toLowerCase (s : string) : string :=
  match s with
  | EmptyString => EmptyString
  | String c s' => String (lowerAscii c) (toLowerCase s')
  end.

Fixpoint startsWith (s p : string) {struct p} : bool :=
  match p, s with
  | EmptyString, _ => true
  | String _ _, EmptyString => false
  | String a p', String b s' => Ascii.eqb a b && startsWith s' p'
  end.

(** [s.includes(sub)]: [sub] occurs in [s] at some position. *)
Fixpoint includes (s sub : string) : bool :=
  startsWith s sub ||
  match s with
  | EmptyString => false
  | String _ s' => includes s' sub
  end.

(** [arr.includes(x)] on an array of strings. *)
Definition arrayIncludes (l : list string) (x : string) : bool :=
  existsb (String.eqb x) l.

(** The own properties of an object used as a table: the value that [obj]
    itself has under [key], [None] when it has none.  This is [obj[key]] for
    every key but the names of [inheritedNames]: an object literal has no
    own property of these names, and [obj[key]] is then what it inherits
    (see [inherited]), not [undefined]. *)
Fixpoint prop {A : Type} (obj : list (string * A)) (key : string) : option A :=
  match obj with
  | [] => None
  | (k, v) :: rest => if String.eqb k key then Some v else prop rest key
  end.

(** The properties that every object literal inherits from
    [Object.prototype]. *)
Definition inheritedNames : list string :=
  [ "constructor"; "hasOwnProperty"; "isPrototypeOf"; "propertyIsEnumerable";
    "toLocaleString"; "toString"; "valueOf"; "__proto__";
    "__defineGetter__"; "__defineSetter__"; "__lookupGetter__"; "__lookupSetter__" ].

(** [key] names a property inherited from [Object.prototype].  On a table
    written as an object literal, none of whose own keys is such a name,
    [obj[key]] is then a function (the prototype itself for [__proto__]): a
    truthy value, which [||] does not replace, which [for (... of ...)]
    cannot iterate (a TypeError) and which is NaN where a number is
    computed with it. *)
Definition inherited (key : string) : bool := arrayIncludes inheritedNames key.

(** [obj[key] || d] used as a number, on a table of numbers written as an
    object literal: the own value when it is truthy; NaN for a key that the
    table inherits; [d] otherwise. *)
Definition numberOr (obj : list (string * float)) (key : string) (d : float) : float :=
  match prop obj key with
  | Some x => if truthy x then x else d
  | None => if inherited key then PrimFloat.nan else d
  end.

Definition pad3 (s : string) : string :=
  match String.length s with
  | 0%nat => "000" ++ s
  | 1%nat => "00" ++ s
  | 2%nat => "0" ++ s
  | _ => s
  end.

Definition decimal (n : Z) : string := NilZero.string_of_uint (N.to_uint (Z.to_N n)).

(** [x.toFixed(3)] for |x| < 10^21: with [n] the integer nearest to
    [1000 * |x|] (the larger one on a tie), the digits of [n] with a point
    before the last three, and a minus sign when [x < 0]. *)
Definition toFixed3 (x : float) : string :=
  match Prim2SF x with
  | S754_zero _ => "0.000"
  | S754_infinity s => if s then "-Infinity" else "Infinity"
  | S754_nan => "NaN"
  | S754_finite s m e =>
      let n := nearestScaled (1000 * Z.pos m) e in
      (if s then "-" else "") ++ decimal (n / 1000) ++ "." ++ pad3 (decimal (n mod 1000))
  end.

End JS.

(** ** [BlendShapeMapper] (src/BlendShapeMapper.js) *)

Module BlendShapeMapper.

(** [this.protectedEmotionShapes], in source order. *)
Definition protectedEmotionShapes : list string :=
  [ "BlendShapes_Main.happy_M"; "BlendShapes_EyeLashes.happy_M"; "BlendShapes_Eyebrows.happy_M";
    "BlendShapes_Beard.happy_M"; "BlendShapes_Moustache.happy_M"; "BlendShapes_Mouth.happy_M";
    "BlendShapes_Main.sad_M"; "BlendShapes_EyeLashes.sad_M"; "BlendShapes_Eyebrows.sad_M";
    "BlendShapes_Beard.sad_M"; "BlendShapes_Moustache.sad_M";
    "BlendShapes_Main.angry_M"; "BlendShapes_EyeLashes.angry_M"; "BlendShapes_Eyebrows.angry_M";
    "BlendShapes_Beard.angry_M"; "BlendShapes_Moustache.angry_M";
    "BlendShapes_Main.surprise_M"; "BlendShapes_EyeLashes.surprise_M";
    "BlendShapes_Eyebrows.surprise_M"; "BlendShapes_Beard.surprise_M";
    "BlendShapes_Moustache.surprise_M"; "BlendShapes_Mouth.surprise_M";
    "BlendShapes_Main.fear_M"; "BlendShapes_EyeLashes.fear_M"; "BlendShapes_Eyebrows.fear_M";
    "BlendShapes_Beard.fear_M"; "BlendShapes_Moustache.fear_M"; "BlendShapes_Mouth.fear_M";
    "BlendShape_Main.Happy"; "BlendShape_EyeLashes.Happy"; "BlendShape_Eyebrows.Happy";
    "BlendShape_Beard.Happy";
    "BlendShape_Main.Sad"; "BlendShape_EyeLashes.Sad"; "BlendShape_Eyebrows.Sad";
    "BlendShape_Beard.Sad";
    "BlendShape_Main.Angry"; "BlendShape_EyeLashes.Angry"; "BlendShape_Eyebrows.Angry";
    "BlendShape_Beard.Angry";
    "BlendShape_Main.Surprise"; "BlendShape_EyeLashes.Surprise"; "BlendShape_Eyebrows.Surprise";
    "BlendShape_Beard.Surprise";
    "BlendShape_Main.Fear"; "BlendShape_EyeLashes.Fear"; "BlendShape_Eyebrows.Fear";
    "BlendShape_Beard.Fear";
    "BlendShape_Mouth.Fear";
    "BlendShape_EyeR.EyeLookOut_R"; "BlendShape_EyeR.EyeLookOut_R"; "BlendShape_EyeL.EyeLookIn_L";
    "BlendShape_EyeL.EyeLookOut_L" ].

(** [this.standardPhonemes]. *)
Definition standardPhonemes : list (string * list string) :=
  [ ("AAA", ["aaa_M"; "AHH"; "Ahh"]);
    ("EH", ["eh_M"; "EE"]);
    ("AHH", ["ahh_M"; "AHH"; "Ahh"]);
    ("OHH", ["ohh_M"; "OW"; "OU"]);
    ("UUU", ["uuu_M"; "OU"]);
    ("IEE", ["iee_M"; "EE"]);
    ("RRR", ["rrr_M"; "R"]);
    ("WWW", ["www_M"; "W"]);
    ("SSS", ["sss_M"]);
    ("FFF", ["fff_M"; "FV"]);
    ("TTH", ["tth_M"; "TH"; "Th"]);
    ("MBP", ["mbp_M"; "MBP"]);
    ("TLDN", ["TLDN"]) ].

(** [this.prefixMappings]. *)
Definition prefixMappings : list (string * list string) :=
  [ ("head", ["BlendShapes_Main."; "BlendShape_Main."]);
    ("mouth", ["BlendShapes_Mouth."; "BlendShape_Mouth."]);
    ("beard", ["BlendShapes_Beard."; "BlendShape_Beard."; "BlendShapes_Beards."]);
    ("moustache", ["BlendShapes_Moustache."; "BlendShape_Moustache."]) ].

(** In [this.syncedMovements] every phoneme lists the same shapes for its
    four parts, in the order mouth, head, beard, moustache. *)
Definition synced (shapes : list string) : list (string * list string) :=
  [ ("mouth", shapes); ("head", shapes); ("beard", shapes); ("moustache", shapes) ].

Definition syncedMovements : list (string * list (string * list string)) :=
  [ ("AAA", synced ["aaa_M"; "AHH"; "Ahh"]);
    ("EH", synced ["eh_M"; "EE"]);
    ("AHH", synced ["ahh_M"; "AHH"; "Ahh"]);
    ("OHH", synced ["ohh_M"; "OU"]);
    ("UUU", synced ["uuu_M"; "OW"]);
    ("IEE", synced ["iee_M"; "EE"]);
    ("RRR", synced ["rrr_M"; "R"]);
    ("WWW", synced ["www_M"; "W"]);
    ("SSS", synced ["sss_M"; "FV"]);
    ("FFF", synced ["fff_M"; "FV"]);
    ("TTH", synced ["tth_M"; "TH"; "Th"]);
    ("MBP", synced ["mbp_M"; "MBP"]);
    ("TLDN", synced ["TLDN"]) ].

(** [isProtectedEmotionShape(shapeName)]; [None] stands for [null] and
    [undefined], and the empty string is falsy as well. *)
Definition isProtectedEmotionShape (shapeName : option string) : bool :=
  match shapeName with
  | None => false
  | Some EmptyString => false
  | Some name =>
      existsb (fun protectedShape =>
                 JS.includes (JS.toLowerCase name) (JS.toLowerCase protectedShape))
              protectedEmotionShapes
  end.

(** An element of the array returned by [mapPhonemeToBlendShapes]. *)
Record Match := { name : string; weight : float }.

Definition orEmpty {A : Type} (v : option (list A)) : list A :=
  match v with Some l => l | None => [] end.

(** [mapPhonemeToBlendShapes(availableBlendShapes, standardPhoneme, modelPart)]
    where the call returns; [throws] says where it does not. *)
Definition mapPhonemeToBlendShapes
    (availableBlendShapes : list string) (standardPhoneme modelPart : string) : list Match :=
  let phonemeVariants := orEmpty (JS.prop standardPhonemes standardPhoneme) in
  let prefixes := orEmpty (JS.prop prefixMappings modelPart) in
  let syncedShapes :=
    orEmpty (match JS.prop syncedMovements standardPhoneme with
             | Some parts => JS.prop parts modelPart
             | None => None
             end) in
  let availableNonEmotionShapes :=
    List.filter (fun shape => negb (isProtectedEmotionShape (Some shape)))
                availableBlendShapes in
  fold_left
    (fun (matches : list Match) (prefix : string) =>
       let matches1 :=
         fold_left
           (fun ms variant =>
              let fullName := prefix +:+ variant in
              if JS.arrayIncludes availableNonEmotionShapes fullName
              then ms ++ [ {| name := fullName; weight := 0.7 |} ]
              else ms)
           phonemeVariants matches in
       fold_left
         (fun ms syncedShape =>
            let fullName := prefix +:+ syncedShape in
            if JS.arrayIncludes availableNonEmotionShapes fullName
               && negb (existsb (fun m => String.eqb (name m) fullName) ms)
            then ms ++ [ {| name := fullName; weight := 0.7 |} ]
            else ms)
         syncedShapes matches1)
    prefixes [].

(** The calls of [mapPhonemeToBlendShapes] that raise a TypeError instead of
    returning.  The three tables are object literals.  For a model part of
    an inherited name [prefixes] is a function, which the outer loop cannot
    iterate.  For a phoneme of an inherited name [phonemeVariants] is a
    function, which the first inner loop cannot iterate; that loop is
    reached when the part has a prefix.  Nothing has been written to
    [matches] by then, and [matches] is local. *)
Definition throws (standardPhoneme modelPart : string) : bool :=
  JS.inherited modelPart
  || match orEmpty (JS.prop prefixMappings modelPart) with
     | [] => false
     | _ :: _ => JS.inherited standardPhoneme
     end.

(** The value [getAvailablePhonemes] stores for a phoneme. *)
Record PartMatches := {
  head : list Match;
  mouth : list Match;
  beard : list Match;
  moustache : list Match
}.

(** [getAvailablePhonemes(availableBlendShapes)]; the keys of
    [standardPhonemes] are pairwise distinct, so that each assignment to
    [mapping] adds an entry. *)
Definition getAvailablePhonemes (availableBlendShapes : list string)
    : list (string * PartMatches) :=
  fold_left
    (fun (mapping : list (string * PartMatches)) (entry : string * list string) =>
       let standardPhoneme := entry.1 in
       let headMatches :=
         mapPhonemeToBlendShapes availableBlendShapes standardPhoneme "head" in
       let mouthMatches :=
         mapPhonemeToBlendShapes availableBlendShapes standardPhoneme "mouth" in
       let beardMatches :=
         mapPhonemeToBlendShapes availableBlendShapes standardPhoneme "beard" in
       let moustacheMatches :=
         mapPhonemeToBlendShapes availableBlendShapes standardPhoneme "moustache" in
       if (0 <? length headMatches)%nat || (0 <? length mouthMatches)%nat
          || (0 <? length beardMatches)%nat || (0 <? length moustacheMatches)%nat
       then mapping ++ [ (standardPhoneme,
                          {| head := headMatches; mouth := mouthMatches;
                             beard := beardMatches; moustache := moustacheMatches |}) ]
       else mapping)
    standardPhonemes [].

(** A mesh as the mapper reads and writes it: [morphTargetDictionary], from
    names to indices, and [morphTargetInfluences], the weight at each index
    that holds one; [None] when the mesh lacks the property.  The values
    of the dictionary are taken to be array indices; an assignment beyond
    the end of the array adds an entry, as it does in JavaScript. *)
Record Model := {
  morphTargetDictionary : option (gmap string nat);
  morphTargetInfluences : option (gmap nat float)
}.

(** [model.morphTargetInfluences[index] = v]; [None] is the TypeError of an
    assignment into [undefined]. *)
Definition setInfluence (index : nat) (v : float) (model : Model) : option Model :=
  match morphTargetInfluences model with
  | Some influences =>
      Some {| morphTargetDictionary := morphTargetDictionary model;
              morphTargetInfluences := Some (<[index := v]> influences) |}
  | None => None
  end.

(** [applyPhonemeBlendShape(model, phoneme, weight)]; [None] when it throws:
    in [mapPhonemeToBlendShapes], or at an assignment into a missing
    [morphTargetInfluences]. *)
Definition applyPhonemeBlendShape (model : Model) (phoneme : string) (weight' : float)
    : option Model :=
  match morphTargetDictionary model with
  | None => Some model
  | Some dictionary =>
      let availableBlendShapes := map fst (map_to_list dictionary) in
      if throws phoneme "head" then None else
      let phonemeMapping := mapPhonemeToBlendShapes availableBlendShapes phoneme "head" in
      fold_left
        (fun (st : option Model) (m : Match) =>
           match st with
           | None => None
           | Some model =>
               match dictionary !! name m with
               | Some index =>
                   if negb (isProtectedEmotionShape (Some (name m)))
                   then setInfluence index (JS.min1 (weight' * weight m)) model
                   else Some model
               | None => Some model
               end
           end)
        phonemeMapping (Some model)
  end.

(** [resetBlendShapes(model)]. *)
Definition resetBlendShapes (model : Model) : Model :=
  match morphTargetInfluences model, morphTargetDictionary model with
  | Some influences, Some dictionary =>
      {| morphTargetDictionary := Some dictionary;
         morphTargetInfluences :=
           Some (fold_left
                   (fun (influences : gmap nat float) (entry : string * nat) =>
                      if negb (isProtectedEmotionShape (Some entry.1))
                      then <[entry.2 := 0%float]> influences
                      else influences)
                   (map_to_list dictionary) influences) |}
  | _, _ => model
  end.

End BlendShapeMapper.

(** ** [AudioAnalyzer] (src/BlendShapeMapper.js, second class) *)

Module AudioAnalyzer.

#[local] Open Scope float_scope.

(** [this.config]; the [debug] flag only switches logging and is left out. *)
Record Config := {
  silenceThreshold : float;
  minPauseDuration : float;
  shortPauseThreshold : float;
  mediumPauseThreshold : float
}.

Definition defaultConfig : Config :=
  {| silenceThreshold := 0.015;
     minPauseDuration := 150;
     shortPauseThreshold := 250;
     mediumPauseThreshold := 500 |}.

(** What [detectPauses] reads of an [AudioBuffer]: the samples of channel 0
    and the sample rate. *)
Record AudioBuffer := { channelData : list float; sampleRate : float }.

(** An element of [this.pauses]. *)
Record Pause := { start : float; end_ : float; duration : float; type : string }.

(** [const windowSize = Math.floor(sampleRate * 0.01)].  The loop counter
    only takes natural values, so a negative size is kept as 0: in both
    cases the loop of the source makes no progress. *)
Definition windowSize (sampleRate : float) : nat :=
  Z.to_nat (JS.floorZ (sampleRate * 0.01)).

(** The inner loop over the window [i, end) and [Math.sqrt(sumSquares / (end - i))]. *)
Definition windowRms (channelData : list float) (i end_ : nat) : float :=
  let sumSquares :=
    fold_left (fun acc x => acc + x * x) (firstn (end_ - i) (skipn i channelData)) 0 in
  PrimFloat.sqrt (sumSquares / JS.ofNat (end_ - i)).

Definition pauseType (cfg : Config) (pauseDuration : float) : string :=
  if PrimFloat.ltb pauseDuration (shortPauseThreshold cfg) then "PAUSE_SHORT"
  else if PrimFloat.ltb pauseDuration (mediumPauseThreshold cfg) then "PAUSE_MED"
  else "PAUSE_LONG".

(** The block that closes a pause; the source has it twice, word for word,
    in the loop and after it. *)
Definition closePause (cfg : Config) (pauseStart timeSeconds : float)
    (pauses : list Pause) : list Pause :=
  let pauseDuration := (timeSeconds - pauseStart) * 1000 in
  if JS.geb pauseDuration (minPauseDuration cfg)
  then pauses ++ [ {| start := pauseStart; end_ := timeSeconds;
                      duration := pauseDuration;
                      type := pauseType cfg pauseDuration |} ]
  else pauses.

(** The variables the loop of [detectPauses] updates. *)
Record Scan := { inPause : bool; pauseStart : float; pauses : list Pause }.

Definition isSilentWindow (cfg : Config) (buffer : AudioBuffer) (wsize i : nat) : bool :=
  let end_ := Nat.min (i + wsize) (length (channelData buffer)) in
  let rms := windowRms (channelData buffer) i end_ in
  PrimFloat.ltb rms (silenceThreshold cfg).

(** The body of the loop for the window that starts at sample [i]. *)
Definition scanWindow (cfg : Config) (buffer : AudioBuffer) (wsize i : nat) (st : Scan) : Scan :=
  let isSilent := isSilentWindow cfg buffer wsize i in
  let timeSeconds := JS.ofNat i / sampleRate buffer in
  if isSilent && negb (inPause st) then
    {| inPause := true; pauseStart := timeSeconds; pauses := pauses st |}
  else if negb isSilent && inPause st then
    {| inPause := false; pauseStart := pauseStart st;
       pauses := closePause cfg (pauseStart st) timeSeconds (pauses st) |}
  else st.

(** [for (let i = i0; i < len; i += wsize) acc = body(i, acc)], with fuel:
    [None] when the fuel runs out before the loop ends. *)
Fixpoint forWindows {A : Type} (fuel len wsize i : nat) (body : nat -> A -> A) (acc : A)
    : option A :=
  if (i <? len)%nat then
    match fuel with
    | O => None
    | S fuel' => forWindows fuel' len wsize (i + wsize) body (body i acc)
    end
  else Some acc.

(** [detectPauses(buffer)]; [None] when the loop does not end (a window
    size of 0 on a buffer that is not empty). *)
Definition detectPauses (cfg : Config) (buffer : AudioBuffer) : option (list Pause) :=
  let len := length (channelData buffer) in
  let wsize := windowSize (sampleRate buffer) in
  match forWindows len len wsize 0 (scanWindow cfg buffer wsize)
          {| inPause := false; pauseStart := 0; pauses := [] |} with
  | Some st =>
      Some (if inPause st
            then closePause cfg (pauseStart st) (JS.ofNat len / sampleRate buffer) (pauses st)
            else pauses st)
  | None => None
  end.

(** [getPauseAtTime(time)] over [this.pauses]; [None] is [null]. *)
Fixpoint getPauseAtTime (pauses : list Pause) (time : float) : option Pause :=
  match pauses with
  | [] => None
  | pause :: rest =>
      if JS.geb time (start pause) && PrimFloat.leb time (end_ pause)
      then Some pause
      else getPauseAtTime rest time
  end.

(** [isInPause(time)]. *)
Definition isInPause (pauses : list Pause) (time : float) : bool :=
  match getPauseAtTime pauses time with Some _ => true | None => false end.

End AudioAnalyzer.

(** ** [LipSyncController] (src/LipSyncController.js) *)

Module LipSyncController.

#[local] Open Scope float_scope.

(** A value of [this.blendShapeControls] that is an object: its [name], its
    mesh if it has one, and its [index] when that is a number.  The state
    of the controller holds the controls by key; an object of controls
    some of whose values are [null] is a [ControlsObject], below. *)
Record Control := { name : string; mesh : option string; index : option nat }.

(** The audio element whose [currentTime] the poll reads. *)
Record AudioElement := { src : string }.

(** [this.anticipation]. *)
Record Anticipation := { enabled : bool; factor : float; offsetFactor : float }.

(** [this.preparedPhonemes] when it is not [null]. *)
Record Prepared := {
  phonemes : list string;
  anticipationEnabled : bool;
  anticipationFactor : float;
  anticipationOffset : float
}.

(** The two closures handed to [setTimeout]. *)
Inductive Callback :=
| Apply (phoneme : string)
| Anticipate (currentPhoneme nextPhoneme : string) (blendFactor : float).

Record Timer := { delay : float; callback : Callback }.

(** The fields of the controller.  [blendShapeControls] holds the controls
    handed to the constructor, by channel name; [pauseUpdateInterval] is
    [true] while the handle of the 50 ms poll is stored; [analyzerPauses] is
    [this.audioAnalyzer.pauses]; [lastFrame] is [this._lastFrame].  Three
    fields stand for the surroundings of the object: [sink] is the channel
    sink, the weight last written to the control of a key ([control.value],
    mirrored in [control.mesh.morphTargetInfluences]); [timers] are the
    pending [setTimeout] callbacks in the order of their registration;
    [frameRequests] counts the pending [requestAnimationFrame] callbacks. *)
Record Controller := {
  blendShapeControls : gmap string Control;
  isAnimating : bool;
  usingAudioBasedPauses : bool;
  currentAudio : option AudioElement;
  pauseUpdateInterval : bool;
  detectedPauses : list AudioAnalyzer.Pause;
  analyzerPauses : list AudioAnalyzer.Pause;
  lastAppliedPauseId : option string;
  currentlyInPause : bool;
  phonemeOffsetMs : float;
  transitionDuration : float;
  phonemeSpeedMs : float;
  endDelayMs : float;
  lastPhonemeTime : float;
  anticipation : Anticipation;
  preparedPhonemes : option Prepared;
  currentBlendShapes : gmap string float;
  targetBlendShapes : gmap string float;
  sink : gmap string float;
  timers : list Timer;
  lastFrame : option float;
  frameRequests : nat
}.

(** Assignments to single fields. *)
Definition set_isAnimating (v : bool) (c : Controller) : Controller :=
  {| blendShapeControls := blendShapeControls c; isAnimating := v;
     usingAudioBasedPauses := usingAudioBasedPauses c; currentAudio := currentAudio c;
     pauseUpdateInterval := pauseUpdateInterval c; detectedPauses := detectedPauses c;
     analyzerPauses := analyzerPauses c; lastAppliedPauseId := lastAppliedPauseId c;
     currentlyInPause := currentlyInPause c; phonemeOffsetMs := phonemeOffsetMs c;
     transitionDuration := transitionDuration c; phonemeSpeedMs := phonemeSpeedMs c;
     endDelayMs := endDelayMs c; lastPhonemeTime := lastPhonemeTime c;
     anticipation := anticipation c; preparedPhonemes := preparedPhonemes c;
     currentBlendShapes := currentBlendShapes c;
     targetBlendShapes := targetBlendShapes c; sink := sink c; timers := timers c;
     lastFrame := lastFrame c; frameRequests := frameRequests c |}.

Definition set_usingAudioBasedPauses (v : bool) (c : Controller) : Controller :=
  {| blendShapeControls := blendShapeControls c; isAnimating := isAnimating c;
     usingAudioBasedPauses := v; currentAudio := currentAudio c;
     pauseUpdateInterval := pauseUpdateInterval c; detectedPauses := detectedPauses c;
     analyzerPauses := analyzerPauses c; lastAppliedPauseId := lastAppliedPauseId c;
     currentlyInPause := currentlyInPause c; phonemeOffsetMs := phonemeOffsetMs c;
     transitionDuration := transitionDuration c; phonemeSpeedMs := phonemeSpeedMs c;
     endDelayMs := endDelayMs c; lastPhonemeTime := lastPhonemeTime c;
     anticipation := anticipation c; preparedPhonemes := preparedPhonemes c;
     currentBlendShapes := currentBlendShapes c;
     targetBlendShapes := targetBlendShapes c; sink := sink c; timers := timers c;
     lastFrame := lastFrame c; frameRequests := frameRequests c |}.

Definition set_currentAudio (v : option AudioElement) (c : Controller) : Controller :=
  {| blendShapeControls := blendShapeControls c; isAnimating := isAnimating c;
     usingAudioBasedPauses := usingAudioBasedPauses c; currentAudio := v;
     pauseUpdateInterval := pauseUpdateInterval c; detectedPauses := detectedPauses c;
     analyzerPauses := analyzerPauses c; lastAppliedPauseId := lastAppliedPauseId c;
     currentlyInPause := currentlyInPause c; phonemeOffsetMs := phonemeOffsetMs c;
     transitionDuration := transitionDuration c; phonemeSpeedMs := phonemeSpeedMs c;
     endDelayMs := endDelayMs c; lastPhonemeTime := lastPhonemeTime c;
     anticipation := anticipation c; preparedPhonemes := preparedPhonemes c;
     currentBlendShapes := currentBlendShapes c;
     targetBlendShapes := targetBlendShapes c; sink := sink c; timers := timers c;
     lastFrame := lastFrame c; frameRequests := frameRequests c |}.

Definition set_pauseUpdateInterval (v : bool) (c : Controller) : Controller :=
  {| blendShapeControls := blendShapeControls c; isAnimating := isAnimating c;
     usingAudioBasedPauses := usingAudioBasedPauses c; currentAudio := currentAudio c;
     pauseUpdateInterval := v; detectedPauses := detectedPauses c;
     analyzerPauses := analyzerPauses c; lastAppliedPauseId := lastAppliedPauseId c;
     currentlyInPause := currentlyInPause c; phonemeOffsetMs := phonemeOffsetMs c;
     transitionDuration := transitionDuration c; phonemeSpeedMs := phonemeSpeedMs c;
     endDelayMs := endDelayMs c; lastPhonemeTime := lastPhonemeTime c;
     anticipation := anticipation c; preparedPhonemes := preparedPhonemes c;
     currentBlendShapes := currentBlendShapes c;
     targetBlendShapes := targetBlendShapes c; sink := sink c; timers := timers c;
     lastFrame := lastFrame c; frameRequests := frameRequests c |}.

Definition set_detectedPauses (v : list AudioAnalyzer.Pause) (c : Controller) : Controller :=
  {| blendShapeControls := blendShapeControls c; isAnimating := isAnimating c;
     usingAudioBasedPauses := usingAudioBasedPauses c; currentAudio := currentAudio c;
     pauseUpdateInterval := pauseUpdateInterval c; detectedPauses := v;
     analyzerPauses := analyzerPauses c; lastAppliedPauseId := lastAppliedPauseId c;
     currentlyInPause := currentlyInPause c; phonemeOffsetMs := phonemeOffsetMs c;
     transitionDuration := transitionDuration c; phonemeSpeedMs := phonemeSpeedMs c;
     endDelayMs := endDelayMs c; lastPhonemeTime := lastPhonemeTime c;
     anticipation := anticipation c; preparedPhonemes := preparedPhonemes c;
     currentBlendShapes := currentBlendShapes c;
     targetBlendShapes := targetBlendShapes c; sink := sink c; timers := timers c;
     lastFrame := lastFrame c; frameRequests := frameRequests c |}.

Definition set_analyzerPauses (v : list AudioAnalyzer.Pause) (c : Controller) : Controller :=
  {| blendShapeControls := blendShapeControls c; isAnimating := isAnimating c;
     usingAudioBasedPauses := usingAudioBasedPauses c; currentAudio := currentAudio c;
     pauseUpdateInterval := pauseUpdateInterval c; detectedPauses := detectedPauses c;
     analyzerPauses := v; lastAppliedPauseId := lastAppliedPauseId c;
     currentlyInPause := currentlyInPause c; phonemeOffsetMs := phonemeOffsetMs c;
     transitionDuration := transitionDuration c; phonemeSpeedMs := phonemeSpeedMs c;
     endDelayMs := endDelayMs c; lastPhonemeTime := lastPhonemeTime c;
     anticipation := anticipation c; preparedPhonemes := preparedPhonemes c;
     currentBlendShapes := currentBlendShapes c;
     targetBlendShapes := targetBlendShapes c; sink := sink c; timers := timers c;
     lastFrame := lastFrame c; frameRequests := frameRequests c |}.

Definition set_lastAppliedPauseId (v : option string) (c : Controller) : Controller :=
  {| blendShapeControls := blendShapeControls c; isAnimating := isAnimating c;
     usingAudioBasedPauses := usingAudioBasedPauses c; currentAudio := currentAudio c;
     pauseUpdateInterval := pauseUpdateInterval c; detectedPauses := detectedPauses c;
     analyzerPauses := analyzerPauses c; lastAppliedPauseId := v;
     currentlyInPause := currentlyInPause c; phonemeOffsetMs := phonemeOffsetMs c;
     transitionDuration := transitionDuration c; phonemeSpeedMs := phonemeSpeedMs c;
     endDelayMs := endDelayMs c; lastPhonemeTime := lastPhonemeTime c;
     anticipation := anticipation c; preparedPhonemes := preparedPhonemes c;
     currentBlendShapes := currentBlendShapes c;
     targetBlendShapes := targetBlendShapes c; sink := sink c; timers := timers c;
     lastFrame := lastFrame c; frameRequests := frameRequests c |}.

Definition set_currentlyInPause (v : bool) (c : Controller) : Controller :=
  {| blendShapeControls := blendShapeControls c; isAnimating := isAnimating c;
     usingAudioBasedPauses := usingAudioBasedPauses c; currentAudio := currentAudio c;
     pauseUpdateInterval := pauseUpdateInterval c; detectedPauses := detectedPauses c;
     analyzerPauses := analyzerPauses c; lastAppliedPauseId := lastAppliedPauseId c;
     currentlyInPause := v; phonemeOffsetMs := phonemeOffsetMs c;
     transitionDuration := transitionDuration c; phonemeSpeedMs := phonemeSpeedMs c;
     endDelayMs := endDelayMs c; lastPhonemeTime := lastPhonemeTime c;
     anticipation := anticipation c; preparedPhonemes := preparedPhonemes c;
     currentBlendShapes := currentBlendShapes c;
     targetBlendShapes := targetBlendShapes c; sink := sink c; timers := timers c;
     lastFrame := lastFrame c; frameRequests := frameRequests c |}.

Definition set_phonemeSpeedMs (v : float) (c : Controller) : Controller :=
  {| blendShapeControls := blendShapeControls c; isAnimating := isAnimating c;
     usingAudioBasedPauses := usingAudioBasedPauses c; currentAudio := currentAudio c;
     pauseUpdateInterval := pauseUpdateInterval c; detectedPauses := detectedPauses c;
     analyzerPauses := analyzerPauses c; lastAppliedPauseId := lastAppliedPauseId c;
     currentlyInPause := currentlyInPause c; phonemeOffsetMs := phonemeOffsetMs c;
     transitionDuration := transitionDuration c; phonemeSpeedMs := v;
     endDelayMs := endDelayMs c; lastPhonemeTime := lastPhonemeTime c;
     anticipation := anticipation c; preparedPhonemes := preparedPhonemes c;
     currentBlendShapes := currentBlendShapes c;
     targetBlendShapes := targetBlendShapes c; sink := sink c; timers := timers c;
     lastFrame := lastFrame c; frameRequests := frameRequests c |}.

Definition set_lastPhonemeTime (v : float) (c : Controller) : Controller :=
  {| blendShapeControls := blendShapeControls c; isAnimating := isAnimating c;
     usingAudioBasedPauses := usingAudioBasedPauses c; currentAudio := currentAudio c;
     pauseUpdateInterval := pauseUpdateInterval c; detectedPauses := detectedPauses c;
     analyzerPauses := analyzerPauses c; lastAppliedPauseId := lastAppliedPauseId c;
     currentlyInPause := currentlyInPause c; phonemeOffsetMs := phonemeOffsetMs c;
     transitionDuration := transitionDuration c; phonemeSpeedMs := phonemeSpeedMs c;
     endDelayMs := endDelayMs c; lastPhonemeTime := v; anticipation := anticipation c;
     preparedPhonemes := preparedPhonemes c;
     currentBlendShapes := currentBlendShapes c;
     targetBlendShapes := targetBlendShapes c; sink := sink c; timers := timers c;
     lastFrame := lastFrame c; frameRequests := frameRequests c |}.

Definition set_anticipation (v : Anticipation) (c : Controller) : Controller :=
  {| blendShapeControls := blendShapeControls c; isAnimating := isAnimating c;
     usingAudioBasedPauses := usingAudioBasedPauses c; currentAudio := currentAudio c;
     pauseUpdateInterval := pauseUpdateInterval c; detectedPauses := detectedPauses c;
     analyzerPauses := analyzerPauses c; lastAppliedPauseId := lastAppliedPauseId c;
     currentlyInPause := currentlyInPause c; phonemeOffsetMs := phonemeOffsetMs c;
     transitionDuration := transitionDuration c; phonemeSpeedMs := phonemeSpeedMs c;
     endDelayMs := endDelayMs c; lastPhonemeTime := lastPhonemeTime c;
     anticipation := v; preparedPhonemes := preparedPhonemes c;
     currentBlendShapes := currentBlendShapes c;
     targetBlendShapes := targetBlendShapes c; sink := sink c; timers := timers c;
     lastFrame := lastFrame c; frameRequests := frameRequests c |}.

Definition set_preparedPhonemes (v : option Prepared) (c : Controller) : Controller :=
  {| blendShapeControls := blendShapeControls c; isAnimating := isAnimating c;
     usingAudioBasedPauses := usingAudioBasedPauses c; currentAudio := currentAudio c;
     pauseUpdateInterval := pauseUpdateInterval c; detectedPauses := detectedPauses c;
     analyzerPauses := analyzerPauses c; lastAppliedPauseId := lastAppliedPauseId c;
     currentlyInPause := currentlyInPause c; phonemeOffsetMs := phonemeOffsetMs c;
     transitionDuration := transitionDuration c; phonemeSpeedMs := phonemeSpeedMs c;
     endDelayMs := endDelayMs c; lastPhonemeTime := lastPhonemeTime c;
     anticipation := anticipation c; preparedPhonemes := v;
     currentBlendShapes := currentBlendShapes c;
     targetBlendShapes := targetBlendShapes c; sink := sink c; timers := timers c;
     lastFrame := lastFrame c; frameRequests := frameRequests c |}.

Definition set_currentBlendShapes (v : gmap string float) (c : Controller) : Controller :=
  {| blendShapeControls := blendShapeControls c; isAnimating := isAnimating c;
     usingAudioBasedPauses := usingAudioBasedPauses c; currentAudio := currentAudio c;
     pauseUpdateInterval := pauseUpdateInterval c; detectedPauses := detectedPauses c;
     analyzerPauses := analyzerPauses c; lastAppliedPauseId := lastAppliedPauseId c;
     currentlyInPause := currentlyInPause c; phonemeOffsetMs := phonemeOffsetMs c;
     transitionDuration := transitionDuration c; phonemeSpeedMs := phonemeSpeedMs c;
     endDelayMs := endDelayMs c; lastPhonemeTime := lastPhonemeTime c;
     anticipation := anticipation c; preparedPhonemes := preparedPhonemes c;
     currentBlendShapes := v; targetBlendShapes := targetBlendShapes c; sink := sink c;
     timers := timers c; lastFrame := lastFrame c; frameRequests := frameRequests c |}.

Definition set_targetBlendShapes (v : gmap string float) (c : Controller) : Controller :=
  {| blendShapeControls := blendShapeControls c; isAnimating := isAnimating c;
     usingAudioBasedPauses := usingAudioBasedPauses c; currentAudio := currentAudio c;
     pauseUpdateInterval := pauseUpdateInterval c; detectedPauses := detectedPauses c;
     analyzerPauses := analyzerPauses c; lastAppliedPauseId := lastAppliedPauseId c;
     currentlyInPause := currentlyInPause c; phonemeOffsetMs := phonemeOffsetMs c;
     transitionDuration := transitionDuration c; phonemeSpeedMs := phonemeSpeedMs c;
     endDelayMs := endDelayMs c; lastPhonemeTime := lastPhonemeTime c;
     anticipation := anticipation c; preparedPhonemes := preparedPhonemes c;
     currentBlendShapes := currentBlendShapes c; targetBlendShapes := v;
     sink := sink c; timers := timers c; lastFrame := lastFrame c;
     frameRequests := frameRequests c |}.

Definition set_sink (v : gmap string float) (c : Controller) : Controller :=
  {| blendShapeControls := blendShapeControls c; isAnimating := isAnimating c;
     usingAudioBasedPauses := usingAudioBasedPauses c; currentAudio := currentAudio c;
     pauseUpdateInterval := pauseUpdateInterval c; detectedPauses := detectedPauses c;
     analyzerPauses := analyzerPauses c; lastAppliedPauseId := lastAppliedPauseId c;
     currentlyInPause := currentlyInPause c; phonemeOffsetMs := phonemeOffsetMs c;
     transitionDuration := transitionDuration c; phonemeSpeedMs := phonemeSpeedMs c;
     endDelayMs := endDelayMs c; lastPhonemeTime := lastPhonemeTime c;
     anticipation := anticipation c; preparedPhonemes := preparedPhonemes c;
     currentBlendShapes := currentBlendShapes c;
     targetBlendShapes := targetBlendShapes c; sink := v; timers := timers c;
     lastFrame := lastFrame c; frameRequests := frameRequests c |}.

Definition set_timers (v : list Timer) (c : Controller) : Controller :=
  {| blendShapeControls := blendShapeControls c; isAnimating := isAnimating c;
     usingAudioBasedPauses := usingAudioBasedPauses c; currentAudio := currentAudio c;
     pauseUpdateInterval := pauseUpdateInterval c; detectedPauses := detectedPauses c;
     analyzerPauses := analyzerPauses c; lastAppliedPauseId := lastAppliedPauseId c;
     currentlyInPause := currentlyInPause c; phonemeOffsetMs := phonemeOffsetMs c;
     transitionDuration := transitionDuration c; phonemeSpeedMs := phonemeSpeedMs c;
     endDelayMs := endDelayMs c; lastPhonemeTime := lastPhonemeTime c;
     anticipation := anticipation c; preparedPhonemes := preparedPhonemes c;
     currentBlendShapes := currentBlendShapes c;
     targetBlendShapes := targetBlendShapes c; sink := sink c; timers := v;
     lastFrame := lastFrame c; frameRequests := frameRequests c |}.

Definition set_lastFrame (v : option float) (c : Controller) : Controller :=
  {| blendShapeControls := blendShapeControls c; isAnimating := isAnimating c;
     usingAudioBasedPauses := usingAudioBasedPauses c; currentAudio := currentAudio c;
     pauseUpdateInterval := pauseUpdateInterval c; detectedPauses := detectedPauses c;
     analyzerPauses := analyzerPauses c; lastAppliedPauseId := lastAppliedPauseId c;
     currentlyInPause := currentlyInPause c; phonemeOffsetMs := phonemeOffsetMs c;
     transitionDuration := transitionDuration c; phonemeSpeedMs := phonemeSpeedMs c;
     endDelayMs := endDelayMs c; lastPhonemeTime := lastPhonemeTime c;
     anticipation := anticipation c; preparedPhonemes := preparedPhonemes c;
     currentBlendShapes := currentBlendShapes c;
     targetBlendShapes := targetBlendShapes c; sink := sink c; timers := timers c;
     lastFrame := v; frameRequests := frameRequests c |}.

Definition set_frameRequests (v : nat) (c : Controller) : Controller :=
  {| blendShapeControls := blendShapeControls c; isAnimating := isAnimating c;
     usingAudioBasedPauses := usingAudioBasedPauses c; currentAudio := currentAudio c;
     pauseUpdateInterval := pauseUpdateInterval c; detectedPauses := detectedPauses c;
     analyzerPauses := analyzerPauses c; lastAppliedPauseId := lastAppliedPauseId c;
     currentlyInPause := currentlyInPause c; phonemeOffsetMs := phonemeOffsetMs c;
     transitionDuration := transitionDuration c; phonemeSpeedMs := phonemeSpeedMs c;
     endDelayMs := endDelayMs c; lastPhonemeTime := lastPhonemeTime c;
     anticipation := anticipation c; preparedPhonemes := preparedPhonemes c;
     currentBlendShapes := currentBlendShapes c;
     targetBlendShapes := targetBlendShapes c; sink := sink c; timers := timers c;
     lastFrame := lastFrame c; frameRequests := v |}.

Definition isProtected (name : string) : bool :=
  BlendShapeMapper.isProtectedEmotionShape (Some name).

(** [Object.entries(this.blendShapeControls)] and [Object.keys(...)]: the
    keys of an object are pairwise distinct; no loop of the source depends
    on their order. *)
Definition entries (controls : gmap string Control) : list (string * Control) :=
  map_to_list controls.

Definition keys (controls : gmap string Control) : list string :=
  map fst (entries controls).

(** The constants of the constructor. *)
Definition speechRate : list (string * float) :=
  [ ("slow", 155); ("normal", 135); ("fast", 115) ].

Definition phonemeDurations : list (string * float) :=
  [ ("AAA", 1.3); ("EH", 1.2); ("AHH", 1.2); ("IEE", 1.2); ("OHH", 1.3); ("UUU", 1.2);
    ("SSS", 0.9); ("FFF", 0.8); ("TTH", 0.75); ("MBP", 0.8); ("RRR", 0.9); ("WWW", 0.9);
    ("SSH", 0.9);
    ("PAUSE_SHORT", 2.0); ("PAUSE_MED", 3.0); ("PAUSE_LONG", 4.5) ].

Definition pausePhonemes : list string := [ "PAUSE_SHORT"; "PAUSE_MED"; "PAUSE_LONG" ].

Definition vowelPhonemes : list string := [ "AAA"; "EH"; "IEE"; "OHH"; "UUU" ].

Definition isPausePhoneme (phoneme : string) : bool :=
  JS.arrayIncludes pausePhonemes phoneme.

(** The control with a mesh and a numeric index: what guards a sink write. *)
Definition bound (control : Control) : bool :=
  match mesh control, index control with
  | Some _, Some _ => true
  | _, _ => false
  end.

(** [initializeBlendShapes()]. *)
Definition initializeBlendShapes (c : Controller) : Controller :=
  fold_left
    (fun (c : Controller) (entry : string * Control) =>
       let (name, control) := entry in
       if bound control && negb (isProtected name) then
         set_sink (<[name := 0]> (sink c))
           (set_targetBlendShapes (<[name := 0]> (targetBlendShapes c))
              (set_currentBlendShapes (<[name := 0]> (currentBlendShapes c)) c))
       else c)
    (entries (blendShapeControls c)) c.

(** The fields as the constructor sets them before it calls
    [initializeBlendShapes]. *)
Definition fresh (controls : gmap string Control) : Controller :=
    {| blendShapeControls := controls; isAnimating := false;
       usingAudioBasedPauses := false; currentAudio := None;
       pauseUpdateInterval := false; detectedPauses := []; analyzerPauses := [];
       lastAppliedPauseId := None; currentlyInPause := false;
       phonemeOffsetMs := 50; transitionDuration := 105; phonemeSpeedMs := 135;
       endDelayMs := 550; lastPhonemeTime := 0;
       anticipation := {| enabled := false; factor := 0.35; offsetFactor := 0.6 |};
       preparedPhonemes := None; currentBlendShapes := ∅; targetBlendShapes := ∅;
       sink := ∅; timers := []; lastFrame := None; frameRequests := 0 |}.

(** The state the constructor leaves for the given controls. *)
Definition create (controls : gmap string Control) : Controller :=
  initializeBlendShapes (fresh controls).

(** [Math.max(0, Math.min(1, x))]; NaN stays NaN. *)
Definition clamp01 (x : float) : float :=
  let m := JS.min1 x in
  if PrimFloat.eqb m m then (if PrimFloat.leb m 0 then 0 else m) else m.

(** [setAnticipation(settings)]; a field of [settings] of another type than
    the expected one is [None]. *)
Definition setAnticipation (enabled' : option bool) (factor' offsetFactor' : option float)
    (c : Controller) : Controller :=
  let a := anticipation c in
  set_anticipation
    {| enabled := match enabled' with Some b => b | None => enabled a end;
       factor := match factor' with Some x => clamp01 x | None => factor a end;
       offsetFactor :=
         match offsetFactor' with Some x => clamp01 x | None => offsetFactor a end |}
    c.

(** [Object.keys(this.blendShapeControls).forEach(name => { if (!protected(name))
    this.targetBlendShapes.set(name, 0) })]: the source has this loop in
    [applyPhoneme] (twice) and in [applyPausePhoneme]. *)
Definition zeroTargets (controls : gmap string Control) (target : gmap string float)
    : gmap string float :=
  fold_left
    (fun (t : gmap string float) (name : string) =>
       if negb (isProtected name) then <[name := 0]> t else t)
    (keys controls) target.

(** [[this.blendShapeControls[n1], ...].filter(control => control &&
    !protected(control.name))]. *)
Definition jawControls (controls : gmap string Control) (names : list string)
    : list Control :=
  List.filter (fun control => negb (isProtected (name control)))
              (omap (fun n => controls !! n) names).

(** [jawControls.forEach(control => this.targetBlendShapes.set(control.name, v))]. *)
Definition setJaw (jaws : list Control) (v : float) (target : gmap string float)
    : gmap string float :=
  fold_left (fun (t : gmap string float) (control : Control) => <[name control := v]> t)
            jaws target.

Definition pauseJawNames : list string :=
  [ "BlendShapes_Main.mouth_open_M"; "BlendShape_Main.MouthOpen";
    "BlendShapes_Mouth.mouth_open_M"; "BlendShape_Mouth.MouthOpen";
    "BlendShapes_Beard.mouth_open_M"; "BlendShape_Beard.MouthOpen";
    "BlendShapes_Moustache.mouth_open_M"; "BlendShape_Moustache.MouthOpen" ].

Definition vowelJawNames : list string :=
  [ "BlendShapes_Mouth.mouth_open_M"; "BlendShape_Main.MouthOpen";
    "BlendShapes_Teeth.mouth_open_M"; "BlendShape_Teeth.MouthOpen";
    "BlendShapes_Beard.mouth_open_M"; "BlendShape_Beard.MouthOpen";
    "BlendShapes_Moustache.mouth_open_M"; "BlendShape_Moustache.MouthOpen" ].

(** The shapes mapped for the four parts, in the order of the object
    literal: head, mouth, beard, moustache; for a phoneme all of whose
    four calls of the mapper return. *)
Definition mappedShapes (controls : gmap string Control) (phoneme : string)
    : list BlendShapeMapper.Match :=
  let availableBlendShapes :=
    List.filter (fun name => negb (isProtected name)) (keys controls) in
  flat_map (BlendShapeMapper.mapPhonemeToBlendShapes availableBlendShapes phoneme)
           [ "head"; "mouth"; "beard"; "moustache" ].

(** The guard [control && !protected(name)] on a mapped shape. *)
Definition writable (controls : gmap string Control) (name : string) : bool :=
  match controls !! name with
  | Some _ => negb (isProtected name)
  | None => false
  end.

(** [applyPhoneme(phoneme)].  For a phoneme that is no pause the mapper
    is called before anything is written; when its first call, for the
    head, throws, the state is left as it was. *)
Definition applyPhoneme (phoneme : string) (c : Controller) : Controller :=
  let controls := blendShapeControls c in
  if String.eqb phoneme "PAUSE_SHORT" || String.eqb phoneme "PAUSE_MED"
     || String.eqb phoneme "PAUSE_LONG" then
    let target := zeroTargets controls (targetBlendShapes c) in
    let jawOpenValue :=
      if String.eqb phoneme "PAUSE_SHORT" then 0.0
      else if String.eqb phoneme "PAUSE_MED" then 0.0
      else if String.eqb phoneme "PAUSE_LONG" then 0.00
      else 0 in
    set_targetBlendShapes (setJaw (jawControls controls pauseJawNames) jawOpenValue target) c
  else if BlendShapeMapper.throws phoneme "head" then c
  else
    let shapes := mappedShapes controls phoneme in
    let target := zeroTargets controls (targetBlendShapes c) in
    let target :=
      fold_left
        (fun (t : gmap string float) (m : BlendShapeMapper.Match) =>
           if writable controls (BlendShapeMapper.name m)
           then <[BlendShapeMapper.name m := BlendShapeMapper.weight m]> t
           else t)
        shapes target in
    let target :=
      if JS.arrayIncludes vowelPhonemes phoneme
      then setJaw (jawControls controls vowelJawNames) 0.5 target
      else target in
    set_targetBlendShapes target c.

(** [applyAnticipatedPhoneme(currentPhoneme, nextPhoneme, blendFactor)];
    [nextPhoneme] is [None] for [null].  Between two phonemes that are no
    pauses the mapper is called for both before anything is written; when
    a call throws, the state is left as it was. *)
Definition applyAnticipatedPhoneme (currentPhoneme : string) (nextPhoneme : option string)
    (blendFactor : float) (c : Controller) : Controller :=
  let controls := blendShapeControls c in
  match nextPhoneme with
  | None => c
  | Some EmptyString => c
  | Some nextPhoneme =>
      if isPausePhoneme nextPhoneme then
        set_targetBlendShapes
          (fold_left
             (fun (t : gmap string float) (name : string) =>
                if negb (isProtected name) then
                  let currentValue := JS.orDefault (t !! name) 0 in
                  <[name := currentValue * (1 - blendFactor)]> t
                else t)
             (keys controls) (targetBlendShapes c))
          c
      else if isPausePhoneme currentPhoneme then c
      else if BlendShapeMapper.throws currentPhoneme "head"
              || BlendShapeMapper.throws nextPhoneme "head" then c
      else
        let currentMappedShapes := mappedShapes controls currentPhoneme in
        let nextMappedShapes := mappedShapes controls nextPhoneme in
        let blendedShapes : gmap string float :=
          fold_left
            (fun (b : gmap string float) (m : BlendShapeMapper.Match) =>
               if writable controls (BlendShapeMapper.name m)
               then <[BlendShapeMapper.name m :=
                        BlendShapeMapper.weight m * (1 - blendFactor)]> b
               else b)
            currentMappedShapes ∅ in
        let blendedShapes : gmap string float :=
          fold_left
            (fun (b : gmap string float) (m : BlendShapeMapper.Match) =>
               if writable controls (BlendShapeMapper.name m) then
                 let currentWeight := JS.orDefault (b !! BlendShapeMapper.name m) 0 in
                 <[BlendShapeMapper.name m :=
                     currentWeight + BlendShapeMapper.weight m * blendFactor]> b
               else b)
            nextMappedShapes blendedShapes in
        (* blendedShapes.forEach((weight, name) => target.set(name, weight)) *)
        let target := blendedShapes ∪ targetBlendShapes c in
        let isCurrentVowel := JS.arrayIncludes vowelPhonemes currentPhoneme in
        let isNextVowel := JS.arrayIncludes vowelPhonemes nextPhoneme in
        let target :=
          if isCurrentVowel || isNextVowel then
            let jawWeight := if isCurrentVowel then 0.5 * (1 - blendFactor) else 0 in
            let nextJawWeight := if isNextVowel then 0.5 * blendFactor else 0 in
            let blendedJawWeight := jawWeight + nextJawWeight in
            setJaw (jawControls controls vowelJawNames) blendedJawWeight target
          else target in
        set_targetBlendShapes target c
  end.

(** The weight [interpolateBlendShapes] writes for the entry
    [(name, targetValue)] of the target map, if it writes one. *)
Definition interpolated (c : Controller) (delta : float) (name : string)
    (targetValue : float) : option float :=
  let currentValue := JS.orDefault (currentBlendShapes c !! name) 0 in
  match blendShapeControls c !! name with
  | Some control =>
      if bound control && negb (isProtected name) then
        let t := JS.min1 (delta / (transitionDuration c / 1000)) in
        Some (currentValue + (targetValue - currentValue) * t)
      else None
  | None => None
  end.

(** [interpolateBlendShapes(delta)]: each entry of the target map reads and
    writes its own key only, so the loop is the union of its writes. *)
Definition interpolateBlendShapes (delta : float) (c : Controller) : Controller :=
  let writes : gmap string float := map_imap (interpolated c delta) (targetBlendShapes c) in
  set_sink (writes ∪ sink c) (set_currentBlendShapes (writes ∪ currentBlendShapes c) c).

(** [animate()] at the time [now] that [performance.now()] returns. *)
Definition animate (now : float) (c : Controller) : Controller :=
  if negb (isAnimating c) then c
  else
    let delta := (now - JS.orDefault (lastFrame c) now) / 1000 in
    let c := set_lastFrame (Some now) c in
    let c := interpolateBlendShapes delta c in
    set_frameRequests (S (frameRequests c)) c.

(** [clearAudioSource()]. *)
Definition clearAudioSource (c : Controller) : Controller :=
  let c := set_pauseUpdateInterval false c in
  let c := set_currentAudio None c in
  let c := set_detectedPauses [] c in
  let c := set_usingAudioBasedPauses false c in
  let c := set_lastAppliedPauseId None c in
  set_currentlyInPause false c.

(** [resetBlendShapes()] when every value of [this.blendShapeControls] is a
    control; [resetBlendShapesOn] has the values that are [null]. *)
Definition resetBlendShapes (c : Controller) : Controller :=
  let target := targetBlendShapes c in
  let c :=
    set_currentBlendShapes
      (filter (fun kv : string * float =>
                 isProtected kv.1 = true ∨ target !! kv.1 = None)
              (currentBlendShapes c))
      (set_targetBlendShapes
         (filter (fun kv : string * float => isProtected kv.1 = true) target) c) in
  fold_left
    (fun (c : Controller) (entry : string * Control) =>
       let (name, control) := entry in
       if bound control && negb (isProtected name)
       then set_sink (<[name := 0]> (sink c)) c
       else c)
    (entries (blendShapeControls c)) c.

(** [stopAnimation()] when every value of [this.blendShapeControls] is a
    control. *)
Definition stopAnimation (c : Controller) : Controller :=
  let c := set_isAnimating false c in
  let c := clearAudioSource c in
  resetBlendShapes c.

(** The object handed to the constructor, value by value: its keys in their
    order, each with a control or with [null] ([None]).  The keys of an
    object are pairwise distinct. *)
Definition ControlsObject : Type := list (string * option Control).

(** The controls among the values of the object, by key. *)
Definition controlsOf (object : ControlsObject) : gmap string Control :=
  list_to_map
    (omap (fun entry : string * option Control =>
             match entry.2 with
             | Some control => Some (entry.1, control)
             | None => None
             end)
          object).

(** [initializeBlendShapes()] on such an object.  Its test starts with
    [control &&]: a value that is [null] is passed over. *)
Definition initializeBlendShapesOn (object : ControlsObject) (c : Controller) : Controller :=
  fold_left
    (fun (c : Controller) (entry : string * option Control) =>
       let (name, control) := entry in
       match control with
       | Some control =>
           if bound control && negb (isProtected name) then
             set_sink (<[name := 0]> (sink c))
               (set_targetBlendShapes (<[name := 0]> (targetBlendShapes c))
                  (set_currentBlendShapes (<[name := 0]> (currentBlendShapes c)) c))
           else c
       | None => c
       end)
    object c.

(** The state the constructor leaves for such an object. *)
Definition createOn (object : ControlsObject) : Controller :=
  initializeBlendShapesOn object (fresh (controlsOf object)).

(** [resetBlendShapes()] on such an object.  The test of its second loop
    starts with [control.mesh]: on a value that is [null] this read throws
    a TypeError, which is [None] here. *)
Definition resetBlendShapesOn (object : ControlsObject) (c : Controller)
    : option Controller :=
  let target := targetBlendShapes c in
  let c :=
    set_currentBlendShapes
      (filter (fun kv : string * float =>
                 isProtected kv.1 = true ∨ target !! kv.1 = None)
              (currentBlendShapes c))
      (set_targetBlendShapes
         (filter (fun kv : string * float => isProtected kv.1 = true) target) c) in
  fold_left
    (fun (st : option Controller) (entry : string * option Control) =>
       let (name, control) := entry in
       match st, control with
       | Some c, Some control =>
           if bound control && negb (isProtected name)
           then Some (set_sink (<[name := 0]> (sink c)) c)
           else Some c
       | _, _ => None
       end)
    object (Some c).

(** [stopAnimation()] on such an object; [None] when it throws. *)
Definition stopAnimationOn (object : ControlsObject) (c : Controller) : option Controller :=
  let c := set_isAnimating false c in
  let c := clearAudioSource c in
  resetBlendShapesOn object c.

(** [applyPausePhoneme(pauseType)]. *)
Definition applyPausePhoneme (pauseType : string) (c : Controller) : Controller :=
  if negb (JS.arrayIncludes pausePhonemes pauseType) then c
  else set_targetBlendShapes (zeroTargets (blendShapeControls c) (targetBlendShapes c)) c.

(** [startAudioPauseMonitoring()]: the stored handle is replaced and the
    tracking state reset; the callback of the interval is [pollAudioPause]. *)
Definition startAudioPauseMonitoring (c : Controller) : Controller :=
  let c := set_lastAppliedPauseId None c in
  let c := set_currentlyInPause false c in
  set_pauseUpdateInterval true c.

(** The id of a pause: [start.toFixed(3) + "_" + type]. *)
Definition pauseId (pause : AudioAnalyzer.Pause) : string :=
  JS.toFixed3 (AudioAnalyzer.start pause) +:+ "_" +:+ AudioAnalyzer.type pause.

(** One run of the callback of the 50 ms interval, [currentTime] being what
    [this.currentAudio.currentTime] reads.  The second component tells
    whether the run called [applyPausePhoneme], and for which pause id. *)
Definition pollAudioPause (currentTime : float) (c : Controller)
    : Controller * option string :=
  match currentAudio c with
  | None => (c, None)
  | Some _ =>
      if negb (isAnimating c) || negb (usingAudioBasedPauses c) then (c, None)
      else
        match AudioAnalyzer.getPauseAtTime (analyzerPauses c) currentTime with
        | Some currentPause =>
            let pauseId := pauseId currentPause in
            if negb (currentlyInPause c)
               || negb (bool_decide (lastAppliedPauseId c = Some pauseId)) then
              let c := applyPausePhoneme (AudioAnalyzer.type currentPause) c in
              let c := set_lastAppliedPauseId (Some pauseId) c in
              (set_currentlyInPause true c, Some pauseId)
            else (c, None)
        | None =>
            if currentlyInPause c then (set_currentlyInPause false c, None)
            else (c, None)
        end
  end.

(** The polls at the successive clock readings [times]; the ids of the
    pauses applied, oldest first. *)
Fixpoint runPolls (times : list float) (c : Controller) : Controller * list string :=
  match times with
  | [] => (c, [])
  | t :: rest =>
      let (c1, applied) := pollAudioPause t c in
      let (c2, ids) := runPolls rest c1 in
      (c2, match applied with Some id => id :: ids | None => ids end)
  end.

(** [setAudioSource(audioElement, audioBlob)], [analysis] being the outcome
    of the analysis of the blob or of the URL: [Some pauses] when
    [analyzeFromBlob] / [analyzeFromUrl] resolves to [pauses] (which the
    analyzer also stores), [None] when it rejects or when there is nothing
    to analyse.  Returns the controller and the promised boolean. *)
Definition setAudioSource (audioElement : AudioElement)
    (analysis : option (list AudioAnalyzer.Pause)) (c : Controller) : Controller * bool :=
  let c := clearAudioSource c in
  let c := set_currentAudio (Some audioElement) c in
  match analysis with
  | Some pauses =>
      let c := set_analyzerPauses pauses c in
      let c := set_detectedPauses pauses c in
      let c := set_usingAudioBasedPauses (0 <? length pauses)%nat c in
      if usingAudioBasedPauses c then (startAudioPauseMonitoring c, true)
      else (c, false)
  | None => (set_usingAudioBasedPauses false c, false)
  end.

Definition upperAscii (ch : ascii) : ascii :=
  let n := nat_of_ascii ch in
  if (97 <=? n)%nat && (n <=? 122)%nat then ascii_of_nat (n - 32) else ch.

(** [getPhonemeFromChar(char, nextChar)] on single characters. *)
Definition getPhonemeFromChar (char : ascii) (nextChar : option ascii) : string :=
  let isTH :=
    match nextChar with
    | Some n => Ascii.eqb char "T" && Ascii.eqb n "H"
    | None => false
    end in
  if isTH then "TTH"
  else if Ascii.eqb char "A" then "AAA"
  else if Ascii.eqb char "E" then "EH"
  else if Ascii.eqb char "I" then "IEE"
  else if Ascii.eqb char "O" then "OHH"
  else if Ascii.eqb char "U" then "UUU"
  else if Ascii.eqb char "F" then "FFF"
  else if Ascii.eqb char "V" then "FFF"
  else if Ascii.eqb char "M" then "MBP"
  else if Ascii.eqb char "B" then "MBP"
  else if Ascii.eqb char "P" then "MBP"
  else if Ascii.eqb char "R" then "RRR"
  else if Ascii.eqb char "S" then "SSS"
  else if Ascii.eqb char "W" then "WWW"
  else "MBP".

(** The [while] loop of [preparePhonemes] over the characters from [i] on. *)
Fixpoint phonemesOfChars (chars : list ascii) : list string :=
  match chars with
  | [] => []
  | ch :: rest =>
      let phoneme := getPhonemeFromChar ch (head rest) in
      if String.eqb phoneme "TTH"
      then phoneme :: match rest with [] => [] | _ :: rest' => phonemesOfChars rest' end
      else phoneme :: phonemesOfChars rest
  end.

(** [preparePhonemes(text)], the character-based fallback. *)
Definition preparePhonemes (text : string) (c : Controller) : Controller :=
  match text with
  | EmptyString => c
  | _ =>
      let chars := map upperAscii (list_ascii_of_string text) in
      set_preparedPhonemes
        (Some {| phonemes := phonemesOfChars chars;
                 anticipationEnabled := enabled (anticipation c);
                 anticipationFactor := factor (anticipation c);
                 anticipationOffset := phonemeSpeedMs c * offsetFactor (anticipation c) |})
        c
  end.

(** The scheduling loop of [startPreparedAnimation] from the phoneme at
    hand on: the timers it registers and the last value of [currentTime]
    (which is also stored in [this.lastPhonemeTime]). *)
Fixpoint schedule (speedMs : float) (prepared : Prepared) (phonemes : list string)
    (currentTime : float) (lastPhonemeTime : float) : list Timer * float :=
  match phonemes with
  | [] => ([], lastPhonemeTime)
  | currentPhoneme :: rest =>
      let nextPhoneme := head rest in
      let applyTimer := {| delay := currentTime; callback := Apply currentPhoneme |} in
      let anticipateTimers :=
        match nextPhoneme with
        | Some (String a n) =>
            if anticipationEnabled prepared then
              [ {| delay := currentTime + anticipationOffset prepared;
                   callback := Anticipate currentPhoneme (String a n)
                                 (anticipationFactor prepared) |} ]
            else []
        | _ => []
        end in
      let durationMultiplier := JS.numberOr phonemeDurations currentPhoneme 1.0 in
      let phonemeDuration := speedMs * durationMultiplier in
      let currentTime := currentTime + phonemeDuration in
      let (later, final) := schedule speedMs prepared rest currentTime currentTime in
      (applyTimer :: anticipateTimers ++ later, final)
  end.

(** [startPreparedAnimation()] at time [now]; returns the controller and the
    estimated duration. *)
Definition startPreparedAnimation (now : float) (c : Controller) : Controller * float :=
  match preparedPhonemes c with
  | None => (c, 0)
  | Some prepared =>
      let c := if isAnimating c then stopAnimation c else c in
      let c := set_isAnimating true c in
      let c := set_lastPhonemeTime 0 c in
      let (new, final) :=
        schedule (phonemeSpeedMs c) prepared (phonemes prepared) (phonemeOffsetMs c) 0 in
      let c := set_timers (timers c ++ new) c in
      let c := set_lastPhonemeTime final c in
      let c := set_preparedPhonemes None c in
      let c := animate now c in
      (c, lastPhonemeTime c + endDelayMs c)
  end.

(** [speak(text, speed)] up to its [await]: [None] when it returns at once
    for want of a text. *)
Definition speakBegin (text speed : string) (c : Controller) : option Controller :=
  match text with
  | EmptyString => None
  | _ =>
      let c := if isAnimating c then stopAnimation c else c in
      Some (set_phonemeSpeedMs
              (JS.orDefault (JS.prop speechRate speed)
                            (JS.orDefault (JS.prop speechRate "normal") 0))
              c)
  end.

(** [speak] from its [await] on: [fetched] is the sequence [getPhonemes]
    resolved to, or [None] when it rejected and the fallback runs. *)
Definition speakResume (text : string) (fetched : option (list string)) (now : float)
    (c : Controller) : Controller * float :=
  let c :=
    match fetched with
    | Some phonemes =>
        set_preparedPhonemes
          (Some {| phonemes := phonemes;
                   anticipationEnabled := enabled (anticipation c);
                   anticipationFactor := factor (anticipation c);
                   anticipationOffset := phonemeSpeedMs c * offsetFactor (anticipation c) |})
          c
    | None => preparePhonemes text c
    end in
  let c := set_isAnimating true c in
  let c := set_lastPhonemeTime 0 c in
  startPreparedAnimation now c.

(** [speak(text, speed)] when nothing else runs during its [await]. *)
Definition speak (text speed : string) (fetched : option (list string)) (now : float)
    (c : Controller) : Controller * option float :=
  match speakBegin text speed c with
  | None => (c, None)
  | Some c1 => let (c2, duration) := speakResume text fetched now c1 in (c2, Some duration)
  end.

(** What a timer does when it fires. *)
Definition runCallback (cb : Callback) (c : Controller) : Controller :=
  match cb with
  | Apply phoneme => applyPhoneme phoneme c
  | Anticipate currentPhoneme nextPhoneme blendFactor =>
      applyAnticipatedPhoneme currentPhoneme (Some nextPhoneme) blendFactor c
  end.

(** The [k]-th pending timer fires: it leaves the queue and its callback runs. *)
Definition fireTimer (k : nat) (c : Controller) : Controller :=
  match nth_error (timers c) k with
  | Some timer =>
      runCallback (callback timer)
        (set_timers (firstn k (timers c) ++ skipn (S k) (timers c)) c)
  | None => c
  end.

(** The operations of the controller, as one step function. *)
Inductive Operation :=
| OpInitialize
| OpApplyPhoneme (phoneme : string)
| OpAnticipate (currentPhoneme : string) (nextPhoneme : option string) (blendFactor : float)
| OpApplyPause (pauseType : string)
| OpPoll (currentTime : float)
| OpInterpolate (delta : float)
| OpAnimate (now : float)
| OpReset
| OpStop
| OpSetAudioSource (audioElement : AudioElement) (analysis : option (list AudioAnalyzer.Pause))
| OpStartPrepared (now : float)
| OpSpeak (text speed : string) (fetched : option (list string)) (now : float)
| OpFireTimer (k : nat)
| OpSetAnticipation (enabled' : option bool) (factor' offsetFactor' : option float)
| OpPreparePhonemes (text : string)
| OpClearAudioSource
| OpStartAudioPauseMonitoring.

Definition perform (op : Operation) (c : Controller) : Controller :=
  match op with
  | OpInitialize => initializeBlendShapes c
  | OpApplyPhoneme phoneme => applyPhoneme phoneme c
  | OpAnticipate currentPhoneme nextPhoneme blendFactor =>
      applyAnticipatedPhoneme currentPhoneme nextPhoneme blendFactor c
  | OpApplyPause pauseType => applyPausePhoneme pauseType c
  | OpPoll currentTime => (pollAudioPause currentTime c).1
  | OpInterpolate delta => interpolateBlendShapes delta c
  | OpAnimate now => animate now c
  | OpReset => resetBlendShapes c
  | OpStop => stopAnimation c
  | OpSetAudioSource audioElement analysis => (setAudioSource audioElement analysis c).1
  | OpStartPrepared now => (startPreparedAnimation now c).1
  | OpSpeak text speed fetched now => (speak text speed fetched now c).1
  | OpFireTimer k => fireTimer k c
  | OpSetAnticipation enabled' factor' offsetFactor' =>
      setAnticipation enabled' factor' offsetFactor' c
  | OpPreparePhonemes text => preparePhonemes text c
  | OpClearAudioSource => clearAudioSource c
  | OpStartAudioPauseMonitoring => startAudioPauseMonitoring c
  end.

(** [getPhonemes(text)] on [this.phoneticCache].  [response] is what the
    analysis service answers if it is asked: [Some sequence] for an ok
    response with status "success", [None] when the request fails or the
    response is another one (the cases in which [getPhonemes] throws).
    Returns the cache and the sequence, [None] when it throws. *)
Definition getPhonemes (text : string) (response : option (list string))
    (phoneticCache : gmap string (list string))
    : gmap string (list string) * option (list string) :=
  match phoneticCache !! text with
  | Some sequence => (phoneticCache, Some sequence)
  | None =>
      match response with
      | Some sequence => (<[text := sequence]> phoneticCache, Some sequence)
      | None => (phoneticCache, None)
      end
  end.

(** [speak(text, speed)] with its call of [getPhonemes], when nothing else
    runs during its [await]. *)
Definition speakCached (text speed : string) (response : option (list string)) (now : float)
    (phoneticCache : gmap string (list string)) (c : Controller)
    : gmap string (list string) * (Controller * option float) :=
  match speakBegin text speed c with
  | None => (phoneticCache, (c, None))
  | Some c1 =>
      let (phoneticCache, fetched) := getPhonemes text response phoneticCache in
      let (c2, duration) := speakResume text fetched now c1 in
      (phoneticCache, (c2, Some duration))
  end.

(** [processPhonemes(phonemes)]: the scheduling loop on the settings of the
    controller as they are when it runs; [this.lastPhonemeTime] is only
    assigned in the loop. *)
Definition processPhonemes (phonemes' : list string) (c : Controller) : Controller :=
  let settings :=
    {| phonemes := phonemes';
       anticipationEnabled := enabled (anticipation c);
       anticipationFactor := factor (anticipation c);
       anticipationOffset := phonemeSpeedMs c * offsetFactor (anticipation c) |} in
  let (new, final) :=
    schedule (phonemeSpeedMs c) settings phonemes' (phonemeOffsetMs c) (lastPhonemeTime c) in
  set_lastPhonemeTime final (set_timers (timers c ++ new) c).

(** [processWordCharacterBased(text)]: the phonemes of the characters, then
    the same loop. *)
Definition processWordCharacterBased (text : string) (c : Controller) : Controller :=
  let chars := map upperAscii (list_ascii_of_string text) in
  let phonemes' := phonemesOfChars chars in
  let settings :=
    {| phonemes := phonemes';
       anticipationEnabled := enabled (anticipation c);
       anticipationFactor := factor (anticipation c);
       anticipationOffset := phonemeSpeedMs c * offsetFactor (anticipation c) |} in
  let (new, final) :=
    schedule (phonemeSpeedMs c) settings phonemes' (phonemeOffsetMs c) (lastPhonemeTime c) in
  set_lastPhonemeTime final (set_timers (timers c ++ new) c).

End LipSyncController.

(** ** Definitions that follow the words of the specification *)

Module Spec.

(** [sub] occurs in [s]. *)
Definition Substring (sub s : string) : Prop :=
  exists pre post : string, s = pre +:+ sub +:+ post.

(** "start <= t <= end", both boundaries inclusive. *)
Definition Within (t : float) (pause : AudioAnalyzer.Pause) : Prop :=
  PrimFloat.leb (AudioAnalyzer.start pause) t = true /\
  PrimFloat.leb t (AudioAnalyzer.end_ pause) = true.

(** The first samples of the analysis windows: the multiples of the window
    size below the length of the buffer. *)
Definition windowStarts (len wsize : nat) : list nat :=
  map (fun k => k * wsize)%nat (seq 0 ((len + wsize - 1) / wsize)).

(** The samples at the positions [i, j). *)
Definition samplesOf (data : list float) (i j : nat) : list float :=
  firstn (j - i) (skipn i data).

(** The window that starts at sample [i]: [wsize] samples, or what is left
    of the buffer. *)
Definition window (data : list float) (wsize i : nat) : list float :=
  samplesOf data i (Nat.min (i + wsize) (length data)).

(** Root-mean-square amplitude: the square root of the mean of the squares. *)
Definition rootMeanSquare (samples : list float) : float :=
  PrimFloat.sqrt
    (fold_left (fun acc x => acc + x * x)%float samples 0%float / JS.ofNat (length samples)).

(** "window length in samples = round(sampleRate * 0.01)". *)
Definition roundedWindowSize (sampleRate : float) : nat :=
  Z.to_nat (JS.roundZ (sampleRate * 0.01)).

(** Where the silent run that is open before the windows [after] ends: at
    the first sample of the next window that is not silent, or at the end
    of the buffer when there is none. *)
Definition runEnd (after : list (nat * bool)) (len : nat) : nat :=
  match find (fun f : nat * bool => negb f.2) after with
  | Some f => f.1
  | None => len
  end.

(** The silent runs of a sequence of windows, each given by its first
    sample and by whether it is silent: a run starts at a silent window
    that no silent window precedes, and it lasts to its [runEnd].  The
    result gives the first sample of each run and the sample at which it
    ends, in order. *)
Fixpoint runsAfter (previousSilent : bool) (flags : list (nat * bool)) (len : nat)
    : list (nat * nat) :=
  match flags with
  | [] => []
  | (i, silent) :: rest =>
      (if silent && negb previousSilent then [(i, runEnd rest len)] else [])
      ++ runsAfter silent rest len
  end.

Definition silentRuns (flags : list (nat * bool)) (len : nat) : list (nat * nat) :=
  runsAfter false flags len.

(** The same runs, said without a computation: [(a, b)] is a silent run of
    the windows when the windows split into those before the run, the run
    and those after it, where the run is not empty, starts at sample [a] and
    has silent windows only; no silent window comes right before it; and
    right after it comes a window that is not silent and starts at sample
    [b], or nothing at all, [b] being then the end of the buffer. *)
Definition MaximalSilentRun (flags : list (nat * bool)) (len a b : nat) : Prop :=
  exists before run after : list (nat * bool),
    flags = before ++ run ++ after /\
    (exists rest, run = (a, true) :: rest) /\
    Forall (fun f : nat * bool => f.2 = true) run /\
    (before = [] \/ exists before' j, before = before' ++ [(j, false)]) /\
    (after = [] /\ b = len \/ exists after', after = (b, false) :: after').

(** The time, in seconds, of sample [i]. *)
Definition seconds (sampleRate : float) (i : nat) : float :=
  (JS.ofNat i / sampleRate)%float.

(** The value of a finite number, as a rational. *)
Definition rational (x : float) : QArith_base.Q :=
  match Prim2SF x with
  | S754_finite s m e =>
      QArith_base.Qmult (QArith_base.inject_Z (if s then Z.neg m else Z.pos m))
                        (QArith_base.Qpower (QArith_base.inject_Z 2) e)
  | _ => QArith_base.inject_Z 0
  end.

(** The duration of a silent run, in milliseconds: the run of the samples
    [a, b) lasts [b - a] samples, at [sampleRate] samples per second.  This
    is the duration itself, a rational, with no rounding. *)
Definition durationMs (sampleRate : float) (run : nat * nat) : QArith_base.Q :=
  QArith_base.Qdiv
    (QArith_base.Qmult (QArith_base.inject_Z (Z.of_nat (run.2 - run.1)))
                       (QArith_base.inject_Z 1000))
    (rational sampleRate).

(** "duration >= minPauseDuration". *)
Definition longEnough (cfg : AudioAnalyzer.Config) (durationMs : QArith_base.Q) : bool :=
  QArith_base.Qle_bool (rational (AudioAnalyzer.minPauseDuration cfg)) durationMs.

(** [durationMs < threshold]. *)
Definition below (durationMs : QArith_base.Q) (threshold : float) : bool :=
  negb (QArith_base.Qle_bool (rational threshold) durationMs).

(** "< shortPauseThreshold -> Short; < mediumPauseThreshold -> Medium; else Long". *)
Definition classOf (cfg : AudioAnalyzer.Config) (durationMs : QArith_base.Q) : string :=
  if below durationMs (AudioAnalyzer.shortPauseThreshold cfg) then "PAUSE_SHORT"
  else if below durationMs (AudioAnalyzer.mediumPauseThreshold cfg) then "PAUSE_MED"
  else "PAUSE_LONG".

(** The operation that leads from [c] to [c'] did not write channel [n]:
    not in the target map, not in the current map, not in the sink. *)
Definition Untouched (n : string) (c c' : LipSyncController.Controller) : Prop :=
  LipSyncController.targetBlendShapes c' !! n = LipSyncController.targetBlendShapes c !! n /\
  LipSyncController.currentBlendShapes c' !! n = LipSyncController.currentBlendShapes c !! n /\
  LipSyncController.sink c' !! n = LipSyncController.sink c !! n.

(** Protected channels are in neither weight map. *)
Definition ProtectedAbsent (c : LipSyncController.Controller) : Prop :=
  forall n, LipSyncController.isProtected n = true ->
    LipSyncController.targetBlendShapes c !! n = None /\
    LipSyncController.currentBlendShapes c !! n = None.

(** The [Apply] events among scheduled events. *)
Definition isApply (timer : LipSyncController.Timer) : bool :=
  match LipSyncController.callback timer with
  | LipSyncController.Apply _ => true
  | LipSyncController.Anticipate _ _ _ => false
  end.

End Spec.

(** ** Sample data for the examples *)

Module Sample.

Import LipSyncController.

Definition control (n : string) : Control :=
  {| name := n; mesh := Some "head"; index := Some 0%nat |}.

(** Two mouth channels, a jaw channel and a protected channel. *)
Definition controls : gmap string Control :=
  list_to_map [ ("BlendShapes_Main.aaa_M", control "BlendShapes_Main.aaa_M");
                ("BlendShapes_Main.sss_M", control "BlendShapes_Main.sss_M");
                ("BlendShape_Main.MouthOpen", control "BlendShape_Main.MouthOpen");
                ("BlendShapes_Main.happy_M", control "BlendShapes_Main.happy_M") ].

(** A controller as the constructor leaves it. *)
Definition idle : Controller := create controls.

(** The controller while it animates the utterance [AAA, PAUSE_MED, SSS],
    started at time 0. *)
Definition speaking : Controller :=
  (speak "a" "normal" (Some ["AAA"; "PAUSE_MED"; "SSS"]) 0 idle).1.

(** A pause of 250 ms detected from 1 s to 1.25 s. *)
Definition pause : AudioAnalyzer.Pause :=
  {| AudioAnalyzer.start := 1; AudioAnalyzer.end_ := 1.25;
     AudioAnalyzer.duration := 250; AudioAnalyzer.type := "PAUSE_MED" |}.

(** The speaking controller once an audio source with that pause is attached. *)
Definition monitoring : Controller :=
  (setAudioSource {| src := "speech.wav" |} (Some [pause]) speaking).1.

(** At 1000 Hz: 100 ms of speech, [silence] ms of silence, 50 ms of speech. *)
Definition recording (silence : nat) : AudioAnalyzer.AudioBuffer :=
  {| AudioAnalyzer.channelData :=
       repeat 0.25%float 100 ++ repeat 0.0078125%float silence ++ repeat 0.25%float 50;
     AudioAnalyzer.sampleRate := 1000 |}.

(** An object of controls with a mouth channel and a key whose value is
    [null]. *)
Definition withNull : ControlsObject :=
  [ ("BlendShapes_Main.aaa_M", Some (control "BlendShapes_Main.aaa_M"));
    ("BlendShapes_Main.sss_M", None) ].

(** At 16000 Hz, in windows of 160 samples (10 ms each): [speech] windows
    of speech, [silence] windows of digital silence, one window of speech. *)
Definition take (speech silence : nat) : AudioAnalyzer.AudioBuffer :=
  {| AudioAnalyzer.channelData :=
       repeat 0.25%float (speech * 160) ++ repeat 0%float (silence * 160)
       ++ repeat 0.25%float 160;
     AudioAnalyzer.sampleRate := 16000 |}.

End Sample.

(** ** Auxiliary definitions for the proofs *)

Import LipSyncController.

(** Reading a field of a controller after assignments to fields. *)
Ltac fields :=
  cbn [blendShapeControls isAnimating usingAudioBasedPauses currentAudio
       pauseUpdateInterval detectedPauses analyzerPauses lastAppliedPauseId
       currentlyInPause phonemeOffsetMs transitionDuration phonemeSpeedMs endDelayMs
       lastPhonemeTime anticipation preparedPhonemes currentBlendShapes targetBlendShapes
       sink timers lastFrame frameRequests
       set_isAnimating set_usingAudioBasedPauses set_currentAudio set_pauseUpdateInterval
       set_detectedPauses set_analyzerPauses set_lastAppliedPauseId set_currentlyInPause
       set_phonemeSpeedMs set_lastPhonemeTime set_anticipation set_preparedPhonemes
       set_currentBlendShapes set_targetBlendShapes set_sink set_timers set_lastFrame
       set_frameRequests].

Ltac fields_in H :=
  cbn [blendShapeControls isAnimating usingAudioBasedPauses currentAudio
       pauseUpdateInterval detectedPauses analyzerPauses lastAppliedPauseId
       currentlyInPause phonemeOffsetMs transitionDuration phonemeSpeedMs endDelayMs
       lastPhonemeTime anticipation preparedPhonemes currentBlendShapes targetBlendShapes
       sink timers lastFrame frameRequests
       set_isAnimating set_usingAudioBasedPauses set_currentAudio set_pauseUpdateInterval
       set_detectedPauses set_analyzerPauses set_lastAppliedPauseId set_currentlyInPause
       set_phonemeSpeedMs set_lastPhonemeTime set_anticipation set_preparedPhonemes
       set_currentBlendShapes set_targetBlendShapes set_sink set_timers set_lastFrame
       set_frameRequests] in H.

(** The last loop of [resetBlendShapesOn] on the sink alone, when it ends. *)
Definition zeroSinkOn (object : ControlsObject) (s : gmap string float) : gmap string float :=
  fold_left
    (fun (s : gmap string float) (entry : string * option Control) =>
       match entry.2 with
       | Some control =>
           if bound control && negb (isProtected entry.1) then <[entry.1 := 0%float]> s else s
       | None => s
       end)
    object s.

(** The last loop of [resetBlendShapes] on the sink alone. *)
Definition zeroSink (controls : gmap string Control) (s : gmap string float) : gmap string float :=
  fold_left
    (fun (s : gmap string float) (entry : string * Control) =>
       if bound entry.2 && negb (isProtected entry.1) then <[entry.1 := 0%float]> s else s)
    (entries controls) s.

(** The duration [closePause] computes for the silence from [start] to
    [end_] seconds: a binary64 number, each operation rounded. *)
Definition computedMs (start end_ : float) : float := ((end_ - start) * 1000)%float.

(** The class [closePause] gives to a computed duration. *)
Definition computedClass (cfg : AudioAnalyzer.Config) (durationMs : float) : string :=
  if PrimFloat.ltb durationMs (AudioAnalyzer.shortPauseThreshold cfg) then "PAUSE_SHORT"
  else if PrimFloat.ltb durationMs (AudioAnalyzer.mediumPauseThreshold cfg) then "PAUSE_MED"
  else "PAUSE_LONG".

(** The interval [closePause] records for the silence from [start] to
    [end_] seconds, if it records one. *)
Definition recordedSpan (cfg : AudioAnalyzer.Config) (start end_ : float)
    : option AudioAnalyzer.Pause :=
  if PrimFloat.leb (AudioAnalyzer.minPauseDuration cfg) (computedMs start end_)
  then Some {| AudioAnalyzer.start := start; AudioAnalyzer.end_ := end_;
               AudioAnalyzer.duration := computedMs start end_;
               AudioAnalyzer.type := computedClass cfg (computedMs start end_) |}
  else None.

Definition recorded (cfg : AudioAnalyzer.Config) (sampleRate : float) (run : nat * nat)
    : option AudioAnalyzer.Pause :=
  recordedSpan cfg (Spec.seconds sampleRate run.1) (Spec.seconds sampleRate run.2).

(** The windows of a buffer, each with its first sample and with whether
    [detectPauses] finds it silent. *)
Definition windowFlags (cfg : AudioAnalyzer.Config) (buffer : AudioAnalyzer.AudioBuffer)
    : list (nat * bool) :=
  let len := length (AudioAnalyzer.channelData buffer) in
  let wsize := AudioAnalyzer.windowSize (AudioAnalyzer.sampleRate buffer) in
  map (fun i => (i, AudioAnalyzer.isSilentWindow cfg buffer wsize i))
      (Spec.windowStarts len wsize).

(** The silent runs of a buffer, by the first sample and the end of each. *)
Definition silentRunsOf (cfg : AudioAnalyzer.Config) (buffer : AudioAnalyzer.AudioBuffer)
    : list (nat * nat) :=
  Spec.silentRuns (windowFlags cfg buffer) (length (AudioAnalyzer.channelData buffer)).

(** The classes of the pauses [detectPauses] returns, in order. *)
Definition detectedTypes (cfg : AudioAnalyzer.Config) (buffer : AudioAnalyzer.AudioBuffer)
    : option (list string) :=
  option_map (map AudioAnalyzer.type) (AudioAnalyzer.detectPauses cfg buffer).

(** The starts of the windows from sample [i] on. *)
Definition startsFrom (len wsize i : nat) : list nat :=
  map (fun k => i + k * wsize)%nat (seq 0 ((len - i + wsize - 1) / wsize)).

(** The body of the loop, reading the silence of the window from a flag. *)
Definition scanFlag (cfg : AudioAnalyzer.Config) (sampleRate : float)
    (st : AudioAnalyzer.Scan) (flag : nat * bool) : AudioAnalyzer.Scan :=
  if flag.2 && negb (AudioAnalyzer.inPause st) then
    {| AudioAnalyzer.inPause := true;
       AudioAnalyzer.pauseStart := Spec.seconds sampleRate flag.1;
       AudioAnalyzer.pauses := AudioAnalyzer.pauses st |}
  else if negb flag.2 && AudioAnalyzer.inPause st then
    {| AudioAnalyzer.inPause := false;
       AudioAnalyzer.pauseStart := AudioAnalyzer.pauseStart st;
       AudioAnalyzer.pauses :=
         AudioAnalyzer.closePause cfg (AudioAnalyzer.pauseStart st)
           (Spec.seconds sampleRate flag.1) (AudioAnalyzer.pauses st) |}
  else st.

(** How the scan ends: the block after the loop. *)
Definition finishScan (cfg : AudioAnalyzer.Config) (sampleRate : float) (len : nat)
    (st : AudioAnalyzer.Scan) : list AudioAnalyzer.Pause :=
  if AudioAnalyzer.inPause st
  then AudioAnalyzer.closePause cfg (AudioAnalyzer.pauseStart st)
         (Spec.seconds sampleRate len) (AudioAnalyzer.pauses st)
  else AudioAnalyzer.pauses st.

(** Writes to a map, oldest first. *)
Definition applyWrites (writes : list (string * float)) (t : gmap string float)
    : gmap string float :=
  fold_left (fun (t : gmap string float) (w : string * float) => <[w.1 := w.2]> t) writes t.

(** The writes of [applyPhoneme] to the target map, in the order of the source. *)
Definition phonemeWrites (controls : gmap string Control) (phoneme : string)
    : list (string * float) :=
  let zeros :=
    map (fun n => (n, 0%float)) (List.filter (fun n => negb (isProtected n)) (keys controls)) in
  if String.eqb phoneme "PAUSE_SHORT" || String.eqb phoneme "PAUSE_MED"
     || String.eqb phoneme "PAUSE_LONG" then
    zeros ++ map (fun control => (name control, 0%float)) (jawControls controls pauseJawNames)
  else if JS.inherited phoneme then []
  else
    zeros
    ++ map (fun m => (BlendShapeMapper.name m, BlendShapeMapper.weight m))
         (List.filter (fun m => writable controls (BlendShapeMapper.name m))
            (mappedShapes controls phoneme))
    ++ (if JS.arrayIncludes vowelPhonemes phoneme
        then map (fun control => (name control, 0.5%float)) (jawControls controls vowelJawNames)
        else []).

(** What the block that closes a pause records. *)
Definition recordedBy (cfg : AudioAnalyzer.Config) (p : AudioAnalyzer.Pause) : Prop :=
  isPausePhoneme (AudioAnalyzer.type p) = true /\
  AudioAnalyzer.duration p = ((AudioAnalyzer.end_ p - AudioAnalyzer.start p) * 1000)%float /\
  JS.geb (AudioAnalyzer.duration p) (AudioAnalyzer.minPauseDuration cfg) = true.

(** The channel sink shows the current map: no entry of an unprotected name
    is in the current map without one in the target map, and the sink of a
    control with a mesh and an index holds the current weight of its
    channel, 0 when the current map has none. *)
Definition Displayed (controls : gmap string Control) (c : Controller) : Prop :=
  blendShapeControls c = controls /\
  (forall n, isProtected n = false ->
     currentBlendShapes c !! n <> None -> targetBlendShapes c !! n <> None) /\
  (forall n control,
     controls !! n = Some control -> bound control = true -> isProtected n = false ->
     sink c !! n = Some (match currentBlendShapes c !! n with Some v => v | None => 0%float end)).

(** The names [mapPhonemeToBlendShapes] tries for a phoneme and a part, in
    the order of its loops; the flag tells the names of the first inner
    loop (the variants) from those of the second (the synced shapes). *)
Definition candidates (standardPhoneme modelPart : string) : list (bool * string) :=
  let phonemeVariants :=
    BlendShapeMapper.orEmpty (JS.prop BlendShapeMapper.standardPhonemes standardPhoneme) in
  let prefixes := BlendShapeMapper.orEmpty (JS.prop BlendShapeMapper.prefixMappings modelPart) in
  let syncedShapes :=
    BlendShapeMapper.orEmpty
      (match JS.prop BlendShapeMapper.syncedMovements standardPhoneme with
       | Some parts => JS.prop parts modelPart
       | None => None
       end) in
  flat_map (fun prefix => map (fun variant => (true, prefix +:+ variant)) phonemeVariants
                          ++ map (fun syncedShape => (false, prefix +:+ syncedShape)) syncedShapes)
           prefixes.

(** One step of the loops on a candidate. *)
Definition tryCandidate (available : list string) (ms : list BlendShapeMapper.Match)
    (candidate : bool * string) : list BlendShapeMapper.Match :=
  if JS.arrayIncludes available candidate.2
     && (candidate.1
         || negb (existsb (fun m => String.eqb (BlendShapeMapper.name m) candidate.2) ms))
  then ms ++ [ {| BlendShapeMapper.name := candidate.2; BlendShapeMapper.weight := 0.7 |} ]
  else ms.

(** No candidate of the first inner loop repeats an earlier candidate. *)
Fixpoint variantsFresh (seen : list string) (cs : list (bool * string)) : bool :=
  match cs with
  | [] => true
  | (variant, n) :: cs =>
      (negb variant || negb (existsb (String.eqb n) seen)) && variantsFresh (n :: seen) cs
  end.

(** The candidates without the repetitions of earlier ones. *)
Fixpoint firstsFrom (seen : list string) (cs : list (bool * string)) : list string :=
  match cs with
  | [] => []
  | (_, n) :: cs =>
      if existsb (String.eqb n) seen
      then firstsFrom (n :: seen) cs
      else n :: firstsFrom (n :: seen) cs
  end.

Fixpoint distinct (l : list string) : bool :=
  match l with
  | [] => true
  | n :: l => negb (existsb (String.eqb n) l) && distinct l
  end.

(** * Properties *)

(** The calls of the mapper for the head throw for the phonemes of an
    inherited name. *)
Lemma throws_head (phoneme : string) :
  BlendShapeMapper.throws phoneme "head" = JS.inherited phoneme.
Proof. reflexivity. Qed.

(** ** Strings *)

Lemma startsWith_spec (s p : string) :
  JS.startsWith s p = true <-> exists post, s = p +:+ post.
Proof.
  revert s; induction p as [|a p IH]; intros s; simpl.
  - split; [intros _; exists s; reflexivity | reflexivity].
  - destruct s as [|b s]; simpl.
    + split; [discriminate | intros [post H]; discriminate].
    + rewrite andb_true_iff, Ascii.eqb_eq, IH. split.
      * intros [-> [post ->]]. exists post. reflexivity.
      * intros [post H]. injection H as -> ->. split; [reflexivity | exists post; reflexivity].
Qed.

Lemma includes_spec (s sub : string) :
  JS.includes s sub = true <-> Spec.Substring sub s.
Proof.
  unfold Spec.Substring. induction s as [|b s IH]; simpl.
  - rewrite orb_false_r, startsWith_spec. split.
    + intros [post H]. exists EmptyString, post. exact H.
    + intros [pre [post H]]. destruct pre; [exists post; exact H | discriminate].
  - rewrite orb_true_iff, startsWith_spec, IH. split.
    + intros [[post H] | [pre [post H]]].
      * exists EmptyString, post. exact H.
      * exists (String b pre), post. simpl. rewrite H. reflexivity.
    + intros [pre [post H]]. destruct pre as [|a pre]; simpl in H.
      * left. exists post. exact H.
      * right. injection H as _ H. exists pre, post. exact H.
Qed.

Lemma protected_entries_not_empty :
  forallb (fun p => negb (String.eqb (JS.toLowerCase p) ""))
          BlendShapeMapper.protectedEmotionShapes = true.
Proof. vm_compute. reflexivity. Qed.

Lemma substring_of_empty (sub : string) : Spec.Substring sub "" -> sub = "".
Proof.
  intros [pre [post H]]. destruct pre; [|discriminate].
  destruct sub; [reflexivity | discriminate].
Qed.

(** C10. [isProtectedEmotionShape] answers true exactly for the names whose
    lower-case form contains the lower-case form of an entry of the protected
    list (anywhere in it, not only as a whole), and answers false for [null],
    [undefined] and the empty name. *)
Theorem isProtectedEmotionShape_iff_substring :
  (forall name : string,
      BlendShapeMapper.isProtectedEmotionShape (Some name) = true <->
      exists protectedShape,
        In protectedShape BlendShapeMapper.protectedEmotionShapes /\
        Spec.Substring (JS.toLowerCase protectedShape) (JS.toLowerCase name)) /\
  BlendShapeMapper.isProtectedEmotionShape None = false /\
  BlendShapeMapper.isProtectedEmotionShape (Some "") = false.
Proof.
  split; [|split; reflexivity].
  intros name.
  assert (Hex : existsb (fun p => JS.includes (JS.toLowerCase name) (JS.toLowerCase p))
                        BlendShapeMapper.protectedEmotionShapes = true <->
                exists p, In p BlendShapeMapper.protectedEmotionShapes /\
                          Spec.Substring (JS.toLowerCase p) (JS.toLowerCase name)).
  { rewrite existsb_exists. split; intros [p [Hin H]]; exists p; split; auto;
      apply includes_spec; exact H. }
  destruct name as [|a name]; [|exact Hex].
  split; [discriminate|].
  intros [p [Hin Hsub]]. exfalso.
  apply substring_of_empty in Hsub.
  pose proof protected_entries_not_empty as Hne.
  rewrite forallb_forall in Hne. specialize (Hne p Hin).
  rewrite Hsub in Hne. discriminate.
Qed.

(** A name that merely contains a protected entry, in another case, is protected. *)
Example isProtectedEmotionShape_inside :
  BlendShapeMapper.isProtectedEmotionShape (Some "Armature/BLENDSHAPE_MAIN.HAPPY.001") = true.
Proof. vm_compute. reflexivity. Qed.

(** ** Looking a pause up *)

Lemma getPauseAtTime_Some (pauses : list AudioAnalyzer.Pause) (t : float)
    (p : AudioAnalyzer.Pause) :
  AudioAnalyzer.getPauseAtTime pauses t = Some p <->
  exists before after,
    pauses = before ++ p :: after /\ Spec.Within t p /\
    forall q, In q before -> ~ Spec.Within t q.
Proof.
  unfold Spec.Within. induction pauses as [|q pauses IH]; simpl.
  - split; [discriminate | intros [[|? ?] [after [H _]]]; discriminate].
  - unfold JS.geb.
    destruct (PrimFloat.leb (AudioAnalyzer.start q) t && PrimFloat.leb t (AudioAnalyzer.end_ q))
      eqn:Hq.
    + apply andb_true_iff in Hq. split.
      * intros [= ->]. exists [], pauses. split; [reflexivity|]. split; [exact Hq|]. intros ? [].
      * intros [before [after [Heq [Hin Hout]]]].
        destruct before as [|q' before]; simpl in Heq; injection Heq as -> _; [reflexivity|].
        exfalso. apply (Hout q'); [left; reflexivity | exact Hq].
    + rewrite IH. split.
      * intros [before [after [-> [Hin Hout]]]]. exists (q :: before), after.
        split; [reflexivity|]. split; [exact Hin|].
        intros q' [<- | Hq']; [|apply Hout; exact Hq'].
        intros [H1 H2]. rewrite H1, H2 in Hq. discriminate.
      * intros [before [after [Heq [Hin Hout]]]].
        destruct before as [|q' before]; simpl in Heq; injection Heq as -> Heq.
        -- destruct Hin as [H1 H2]. rewrite H1, H2 in Hq. discriminate.
        -- exists before, after. split; [exact Heq|]. split; [exact Hin|].
           intros q'' Hq''. apply Hout. right. exact Hq''.
Qed.

Lemma getPauseAtTime_None (pauses : list AudioAnalyzer.Pause) (t : float) :
  AudioAnalyzer.getPauseAtTime pauses t = None <->
  forall q, In q pauses -> ~ Spec.Within t q.
Proof.
  unfold Spec.Within. induction pauses as [|q pauses IH]; simpl.
  - split; [intros _ ? [] | reflexivity].
  - unfold JS.geb.
    destruct (PrimFloat.leb (AudioAnalyzer.start q) t && PrimFloat.leb t (AudioAnalyzer.end_ q))
      eqn:Hq.
    + apply andb_true_iff in Hq. split; [discriminate|].
      intros H. exfalso. apply (H q); [left; reflexivity | exact Hq].
    + rewrite IH. split.
      * intros H q' [<- | Hq']; [|apply H; exact Hq'].
        intros [H1 H2]. rewrite H1, H2 in Hq. discriminate.
      * intros H q' Hq'. apply H. right. exact Hq'.
Qed.

(** C8. [getPauseAtTime(t)] returns the first interval of the recorded
    sequence with start <= t <= end, both boundaries included, and returns
    none exactly when [t] lies in no interval. *)
Theorem getPauseAtTime_first_within (pauses : list AudioAnalyzer.Pause) (t : float) :
  (forall p,
      AudioAnalyzer.getPauseAtTime pauses t = Some p <->
      exists before after,
        pauses = before ++ p :: after /\ Spec.Within t p /\
        forall q, In q before -> ~ Spec.Within t q) /\
  (AudioAnalyzer.getPauseAtTime pauses t = None <->
   forall q, In q pauses -> ~ Spec.Within t q).
Proof.
  split; [intros p; apply getPauseAtTime_Some | apply getPauseAtTime_None].
Qed.

(** At both boundaries of an interval, and outside of it. *)
Example getPauseAtTime_boundaries :
  let p := {| AudioAnalyzer.start := 1; AudioAnalyzer.end_ := 1.5;
              AudioAnalyzer.duration := 500; AudioAnalyzer.type := "PAUSE_LONG" |} in
  AudioAnalyzer.getPauseAtTime [p] 1 = Some p /\
  AudioAnalyzer.getPauseAtTime [p] 1.5 = Some p /\
  AudioAnalyzer.getPauseAtTime [p] 0.9375 = None /\
  AudioAnalyzer.getPauseAtTime [p] 1.5625 = None.
Proof. vm_compute. repeat split. Qed.

(** ** Fields that the pose operations leave alone *)

Lemma set_sink_sink (c : Controller) : set_sink (sink c) c = c.
Proof. destruct c; reflexivity. Qed.

Lemma resetBlendShapes_eq (c : Controller) :
  resetBlendShapes c =
  set_sink (zeroSink (blendShapeControls c) (sink c))
    (set_currentBlendShapes
       (filter (fun kv : string * float =>
                  isProtected kv.1 = true \/ targetBlendShapes c !! kv.1 = None)
               (currentBlendShapes c))
       (set_targetBlendShapes
          (filter (fun kv : string * float => isProtected kv.1 = true) (targetBlendShapes c))
          c)).
Proof.
  unfold resetBlendShapes, zeroSink. simpl blendShapeControls.
  set (c1 := set_currentBlendShapes _ _).
  change (sink c) with (sink c1).
  generalize (entries (blendShapeControls c)). intros l. clearbody c1.
  revert c1. induction l as [|[name control] l IH]; intros c1; simpl.
  - symmetry. apply set_sink_sink.
  - destruct (bound control && negb (isProtected name)); [|apply IH].
    rewrite IH. reflexivity.
Qed.

Lemma stopAnimation_eq (c : Controller) :
  stopAnimation c = resetBlendShapes (clearAudioSource (set_isAnimating false c)).
Proof. reflexivity. Qed.

Lemma stopAnimation_timers (c : Controller) : timers (stopAnimation c) = timers c.
Proof. rewrite stopAnimation_eq, resetBlendShapes_eq. reflexivity. Qed.

Lemma stopAnimation_timing (c : Controller) :
  phonemeSpeedMs (stopAnimation c) = phonemeSpeedMs c /\
  phonemeOffsetMs (stopAnimation c) = phonemeOffsetMs c /\
  endDelayMs (stopAnimation c) = endDelayMs c.
Proof. rewrite stopAnimation_eq, resetBlendShapes_eq. repeat split. Qed.

(** ** The timeline of an utterance *)

(** What [startPreparedAnimation] does when phonemes are prepared, in one
    equation. *)
Lemma startPreparedAnimation_prepared (now : float) (c : Controller) (prepared : Prepared) :
  preparedPhonemes c = Some prepared ->
  let c1 := if isAnimating c then stopAnimation c else c in
  let sched := schedule (phonemeSpeedMs c) prepared (phonemes prepared) (phonemeOffsetMs c) 0 in
  timers (startPreparedAnimation now c).1 = timers c ++ sched.1 /\
  lastPhonemeTime (startPreparedAnimation now c).1 = sched.2 /\
  (startPreparedAnimation now c).2 = (sched.2 + endDelayMs c)%float /\
  isAnimating (startPreparedAnimation now c).1 = true /\
  pauseUpdateInterval (startPreparedAnimation now c).1 = pauseUpdateInterval c1 /\
  currentAudio (startPreparedAnimation now c).1 = currentAudio c1 /\
  targetBlendShapes (startPreparedAnimation now c).1 = targetBlendShapes c1.
Proof.
  intros Hp c1 sched. unfold startPreparedAnimation. rewrite Hp.
  fold c1.
  assert (Hc1 : phonemeSpeedMs c1 = phonemeSpeedMs c /\ phonemeOffsetMs c1 = phonemeOffsetMs c /\
                endDelayMs c1 = endDelayMs c /\ timers c1 = timers c).
  { unfold c1. destruct (isAnimating c); [|repeat split].
    pose proof (stopAnimation_timing c) as (? & ? & ?).
    pose proof (stopAnimation_timers c). repeat split; assumption. }
  destruct Hc1 as (Hs & Ho & He & Ht).
  simpl phonemeSpeedMs. simpl phonemeOffsetMs. rewrite Hs, Ho. fold sched.
  destruct sched as [new final]. simpl.
  rewrite Ht, He. repeat split.
Qed.

(** C5. For the prepared sequence [AAA, PAUSE_MED, SSS] with 135 ms per
    phoneme, an initial offset of 50 ms, an end delay of 550 ms and the
    multipliers of the constructor, the scheduler registers Apply(AAA) at
    50 ms, Apply(PAUSE_MED) at 225.5 ms and Apply(SSS) at 630.5 ms, the last
    running offset is 752 ms and the estimated duration returned is 1302 ms. *)
Theorem schedule_AAA_PAUSE_MED_SSS (c : Controller) (now : float) (prepared : Prepared) :
  preparedPhonemes c = Some prepared ->
  phonemes prepared = ["AAA"; "PAUSE_MED"; "SSS"] ->
  phonemeSpeedMs c = 135%float ->
  phonemeOffsetMs c = 50%float ->
  endDelayMs c = 550%float ->
  exists new : list Timer,
    timers (startPreparedAnimation now c).1 = timers c ++ new /\
    List.filter Spec.isApply new =
      [ {| delay := 50; callback := Apply "AAA" |};
        {| delay := 225.5; callback := Apply "PAUSE_MED" |};
        {| delay := 630.5; callback := Apply "SSS" |} ] /\
    lastPhonemeTime (startPreparedAnimation now c).1 = 752%float /\
    (startPreparedAnimation now c).2 = 1302%float.
Proof.
  intros Hp Hph Hs Ho He.
  destruct (startPreparedAnimation_prepared now c prepared Hp) as (Ht & Hl & Hd & _).
  rewrite Hph, Hs, Ho in *. rewrite He in Hd.
  eexists. split; [exact Ht|].
  rewrite Hl, Hd.
  destruct (anticipationEnabled prepared) eqn:En;
    cbn -[PrimFloat.add]; rewrite ?En; cbn; repeat split.
Qed.

Lemma schedule_AAA_PAUSE_MED_SSS_witness :
  let prepared := {| phonemes := ["AAA"; "PAUSE_MED"; "SSS"]; anticipationEnabled := true;
                     anticipationFactor := 0.35; anticipationOffset := 81 |} in
  let c := set_preparedPhonemes (Some prepared) Sample.idle in
  (preparedPhonemes c = Some prepared /\
   phonemes prepared = ["AAA"; "PAUSE_MED"; "SSS"] /\
   phonemeSpeedMs c = 135%float /\ phonemeOffsetMs c = 50%float /\ endDelayMs c = 550%float) /\
  exists new : list Timer,
    timers (startPreparedAnimation 0 c).1 = timers c ++ new /\
    List.filter Spec.isApply new =
      [ {| delay := 50; callback := Apply "AAA" |};
        {| delay := 225.5; callback := Apply "PAUSE_MED" |};
        {| delay := 630.5; callback := Apply "SSS" |} ] /\
    lastPhonemeTime (startPreparedAnimation 0 c).1 = 752%float /\
    (startPreparedAnimation 0 c).2 = 1302%float.
Proof.
  intros prepared c.
  assert (H1 : preparedPhonemes c = Some prepared) by reflexivity.
  assert (H2 : phonemes prepared = ["AAA"; "PAUSE_MED"; "SSS"]) by reflexivity.
  assert (H3 : phonemeSpeedMs c = 135%float) by (vm_compute; reflexivity).
  assert (H4 : phonemeOffsetMs c = 50%float) by (vm_compute; reflexivity).
  assert (H5 : endDelayMs c = 550%float) by (vm_compute; reflexivity).
  split; [repeat split; assumption|].
  exact (schedule_AAA_PAUSE_MED_SSS c 0 prepared H1 H2 H3 H4 H5).
Defined.

(** ** Loops that write a map, key by key *)

Lemma fold_left_frame {A : Type} (step : gmap string float -> A -> gmap string float)
    (l : list A) (t : gmap string float) (n : string) :
  (forall t' a, In a l -> step t' a !! n = t' !! n) ->
  fold_left step l t !! n = t !! n.
Proof.
  revert t. induction l as [|a l IH]; intros t H; simpl; [reflexivity|].
  rewrite IH; [apply H; left; reflexivity|].
  intros t' a' Ha'. apply H. right. exact Ha'.
Qed.

Section KeyLoop.

Variable P : string -> bool.
Variable h : option float -> float.

Let step (t : gmap string float) (k : string) : gmap string float :=
  if P k then <[k := h (t !! k)]> t else t.

Lemma key_loop_miss (l : list string) (t : gmap string float) (n : string) :
  ~ In n l \/ P n = false -> fold_left step l t !! n = t !! n.
Proof.
  intros H. apply fold_left_frame. intros t' k Hk. unfold step.
  destruct (P k) eqn:Pk; [|reflexivity].
  apply lookup_insert_ne. intros ->. destruct H as [H | H]; [tauto | congruence].
Qed.

Lemma key_loop_hit (l : list string) (t : gmap string float) (n : string) :
  NoDup l -> In n l -> P n = true -> fold_left step l t !! n = Some (h (t !! n)).
Proof.
  revert t. induction l as [|k l IH]; intros t Hnd Hin Pn; [destruct Hin|].
  apply NoDup_cons in Hnd as [Hk Hnd]. simpl.
  destruct Hin as [-> | Hin].
  - rewrite key_loop_miss by (left; rewrite <- list_elem_of_In; exact Hk).
    unfold step. rewrite Pn. apply lookup_insert_eq.
  - rewrite IH by assumption. f_equal. f_equal.
    unfold step. destruct (P k); [|reflexivity].
    apply lookup_insert_ne. intros ->. apply Hk. apply list_elem_of_In. exact Hin.
Qed.

End KeyLoop.

Lemma keys_NoDup (controls : gmap string Control) : NoDup (keys controls).
Proof. apply NoDup_fst_map_to_list. Qed.

Lemma keys_In (controls : gmap string Control) (n : string) :
  In n (keys controls) <-> exists control, controls !! n = Some control.
Proof.
  unfold keys, entries. rewrite in_map_iff. split.
  - intros [[k control] [<- Hin]]. exists control.
    apply elem_of_map_to_list, list_elem_of_In. exact Hin.
  - intros [control H]. exists (n, control). split; [reflexivity|].
    apply list_elem_of_In, elem_of_map_to_list. exact H.
Qed.

Lemma entries_In (controls : gmap string Control) (n : string) (control : Control) :
  In (n, control) (entries controls) <-> controls !! n = Some control.
Proof. unfold entries. rewrite <- list_elem_of_In. apply elem_of_map_to_list. Qed.

(** ** Protected channels are outside of every write *)

Lemma zeroTargets_protected (controls : gmap string Control) (t : gmap string float) (n : string) :
  isProtected n = true -> zeroTargets controls t !! n = t !! n.
Proof.
  intros Hn. unfold zeroTargets.
  apply (key_loop_miss (fun k => negb (isProtected k)) (fun _ => 0%float)).
  right. rewrite Hn. reflexivity.
Qed.

Lemma zeroTargets_zero (controls : gmap string Control) (t : gmap string float) (n : string)
    (control : Control) :
  controls !! n = Some control -> isProtected n = false ->
  zeroTargets controls t !! n = Some 0%float.
Proof.
  intros Hc Hn. unfold zeroTargets.
  apply (key_loop_hit (fun k => negb (isProtected k)) (fun _ => 0%float)).
  - apply keys_NoDup.
  - apply keys_In. exists control. exact Hc.
  - rewrite Hn. reflexivity.
Qed.

Lemma zeroTargets_absent (controls : gmap string Control) (t : gmap string float) (n : string) :
  controls !! n = None -> zeroTargets controls t !! n = t !! n.
Proof.
  intros Hc. unfold zeroTargets.
  apply (key_loop_miss (fun k => negb (isProtected k)) (fun _ => 0%float)).
  left. rewrite keys_In. intros [control H]. congruence.
Qed.

(** The pause pose of the audio synchronisation: the target of every
    channel that is not protected is 0, the other targets are left as they are. *)
Lemma applyPausePhoneme_resets (pauseType : string) (c : Controller) (n : string) :
  JS.arrayIncludes pausePhonemes pauseType = true ->
  targetBlendShapes (applyPausePhoneme pauseType c) !! n =
  match blendShapeControls c !! n with
  | Some _ => if isProtected n then targetBlendShapes c !! n else Some 0%float
  | None => targetBlendShapes c !! n
  end.
Proof.
  intros Hp. unfold applyPausePhoneme. rewrite Hp. fields.
  destruct (blendShapeControls c !! n) as [control|] eqn:Hc.
  - destruct (isProtected n) eqn:Hn.
    + apply zeroTargets_protected. exact Hn.
    + apply (zeroTargets_zero _ _ n control Hc Hn).
  - apply zeroTargets_absent. exact Hc.
Qed.

Lemma jawControls_unprotected (controls : gmap string Control) (names : list string)
    (control : Control) :
  In control (jawControls controls names) -> isProtected (name control) = false.
Proof.
  unfold jawControls. rewrite filter_In. intros [_ H]. apply negb_true_iff in H. exact H.
Qed.

Lemma setJaw_protected (jaws : list Control) (v : float) (t : gmap string float) (n : string) :
  (forall control, In control jaws -> isProtected (name control) = false) ->
  isProtected n = true -> setJaw jaws v t !! n = t !! n.
Proof.
  intros Hj Hn. unfold setJaw. apply fold_left_frame.
  intros t' control Hin. apply lookup_insert_ne. intros E.
  specialize (Hj control Hin). congruence.
Qed.

Lemma writable_unprotected (controls : gmap string Control) (n : string) :
  writable controls n = true -> isProtected n = false.
Proof.
  unfold writable. destruct (controls !! n); [|discriminate].
  intros H. apply negb_true_iff in H. exact H.
Qed.

(** A loop over mapped shapes that only writes the names it finds writable. *)
Lemma shapes_loop_protected (controls : gmap string Control)
    (value : gmap string float -> BlendShapeMapper.Match -> float)
    (shapes : list BlendShapeMapper.Match) (t : gmap string float) (n : string) :
  isProtected n = true ->
  fold_left
    (fun (t : gmap string float) (m : BlendShapeMapper.Match) =>
       if writable controls (BlendShapeMapper.name m)
       then <[BlendShapeMapper.name m := value t m]> t else t)
    shapes t !! n = t !! n.
Proof.
  intros Hn. apply fold_left_frame. intros t' m _.
  destruct (writable controls (BlendShapeMapper.name m)) eqn:W; [|reflexivity].
  apply writable_unprotected in W. apply lookup_insert_ne. intros E. congruence.
Qed.

Lemma applyPhoneme_target_protected (phoneme : string) (c : Controller) (n : string) :
  isProtected n = true ->
  targetBlendShapes (applyPhoneme phoneme c) !! n = targetBlendShapes c !! n.
Proof.
  intros Hn. unfold applyPhoneme.
  destruct (String.eqb phoneme "PAUSE_SHORT" || String.eqb phoneme "PAUSE_MED"
            || String.eqb phoneme "PAUSE_LONG"); fields.
  - rewrite setJaw_protected by (try apply jawControls_unprotected; assumption).
    apply zeroTargets_protected. exact Hn.
  - destruct (BlendShapeMapper.throws phoneme "head"); [reflexivity|].
    destruct (JS.arrayIncludes vowelPhonemes phoneme); fields.
    + rewrite setJaw_protected by (try apply jawControls_unprotected; assumption).
      rewrite (shapes_loop_protected _ (fun _ m => BlendShapeMapper.weight m)) by exact Hn.
      apply zeroTargets_protected. exact Hn.
    + rewrite (shapes_loop_protected _ (fun _ m => BlendShapeMapper.weight m)) by exact Hn.
      apply zeroTargets_protected. exact Hn.
Qed.

Lemma untouched_refl (n : string) (c : Controller) : Spec.Untouched n c c.
Proof. repeat split. Qed.

Lemma untouched_trans (n : string) (c1 c2 c3 : Controller) :
  Spec.Untouched n c1 c2 -> Spec.Untouched n c2 c3 -> Spec.Untouched n c1 c3.
Proof.
  intros (A1 & A2 & A3) (B1 & B2 & B3).
  repeat split; etransitivity; eassumption.
Qed.

Lemma untouched_fields (n : string) (c c' : Controller) :
  targetBlendShapes c' = targetBlendShapes c ->
  currentBlendShapes c' = currentBlendShapes c ->
  sink c' = sink c ->
  Spec.Untouched n c c'.
Proof. unfold Spec.Untouched. intros -> -> ->. repeat split. Qed.

Lemma applyPhoneme_untouched (phoneme : string) (c : Controller) (n : string) :
  isProtected n = true -> Spec.Untouched n c (applyPhoneme phoneme c).
Proof.
  intros Hn. split; [apply applyPhoneme_target_protected; exact Hn|].
  unfold applyPhoneme.
  destruct (String.eqb phoneme "PAUSE_SHORT" || String.eqb phoneme "PAUSE_MED"
            || String.eqb phoneme "PAUSE_LONG"); [split; reflexivity|].
  destruct (BlendShapeMapper.throws phoneme "head"); split; reflexivity.
Qed.

Lemma applyPausePhoneme_untouched (pauseType : string) (c : Controller) (n : string) :
  isProtected n = true -> Spec.Untouched n c (applyPausePhoneme pauseType c).
Proof.
  intros Hn. unfold applyPausePhoneme.
  destruct (negb (JS.arrayIncludes pausePhonemes pauseType)); [apply untouched_refl|].
  split; [|split; reflexivity]. fields. apply zeroTargets_protected. exact Hn.
Qed.

(** The blended shapes only hold names found writable. *)
Lemma blended_loop_None (controls : gmap string Control)
    (value : gmap string float -> BlendShapeMapper.Match -> float)
    (shapes : list BlendShapeMapper.Match) (b : gmap string float) (n : string) :
  isProtected n = true -> b !! n = None ->
  fold_left
    (fun (t : gmap string float) (m : BlendShapeMapper.Match) =>
       if writable controls (BlendShapeMapper.name m)
       then <[BlendShapeMapper.name m := value t m]> t else t)
    shapes b !! n = None.
Proof. intros Hn Hb. rewrite shapes_loop_protected by exact Hn. exact Hb. Qed.

Lemma applyAnticipatedPhoneme_untouched (currentPhoneme : string) (nextPhoneme : option string)
    (blendFactor : float) (c : Controller) (n : string) :
  isProtected n = true ->
  Spec.Untouched n c (applyAnticipatedPhoneme currentPhoneme nextPhoneme blendFactor c).
Proof.
  intros Hn. unfold applyAnticipatedPhoneme.
  destruct nextPhoneme as [[|a next]|]; try apply untouched_refl.
  destruct (isPausePhoneme (String a next)).
  { split; [|split; reflexivity]. fields.
    apply (key_loop_miss (fun k => negb (isProtected k))
             (fun v => (JS.orDefault v 0 * (1 - blendFactor))%float)).
    right. rewrite Hn. reflexivity. }
  destruct (isPausePhoneme currentPhoneme); [apply untouched_refl|].
  destruct (BlendShapeMapper.throws currentPhoneme "head"
            || BlendShapeMapper.throws (String a next) "head"); [apply untouched_refl|].
  split; [|split; reflexivity]. fields.
  set (blended := fold_left _ (mappedShapes _ (String a next)) _).
  assert (Hb : blended !! n = None).
  { unfold blended.
    apply (blended_loop_None _
             (fun b m => (JS.orDefault (b !! BlendShapeMapper.name m) 0
                          + BlendShapeMapper.weight m * blendFactor)%float)); [exact Hn|].
    apply (blended_loop_None _
             (fun _ m => (BlendShapeMapper.weight m * (1 - blendFactor))%float)); [exact Hn|].
    apply lookup_empty. }
  destruct (JS.arrayIncludes vowelPhonemes currentPhoneme
            || JS.arrayIncludes vowelPhonemes (String a next)).
  - rewrite setJaw_protected by (try apply jawControls_unprotected; assumption).
    apply lookup_union_r. exact Hb.
  - apply lookup_union_r. exact Hb.
Qed.

Lemma interpolated_protected (c : Controller) (delta : float) (n : string) (v : float) :
  isProtected n = true -> interpolated c delta n v = None.
Proof.
  intros Hn. unfold interpolated.
  destruct (blendShapeControls c !! n); [|reflexivity].
  rewrite Hn, andb_false_r. reflexivity.
Qed.

Lemma interpolateBlendShapes_untouched (delta : float) (c : Controller) (n : string) :
  isProtected n = true -> Spec.Untouched n c (interpolateBlendShapes delta c).
Proof.
  intros Hn. unfold interpolateBlendShapes.
  assert (Hw : map_imap (interpolated c delta) (targetBlendShapes c) !! n = None).
  { rewrite map_lookup_imap. destruct (targetBlendShapes c !! n) as [v|]; [|reflexivity].
    simpl. apply interpolated_protected. exact Hn. }
  split; [reflexivity|]. split; fields; apply lookup_union_r; exact Hw.
Qed.

Lemma animate_untouched (now : float) (c : Controller) (n : string) :
  isProtected n = true -> Spec.Untouched n c (animate now c).
Proof.
  intros Hn. unfold animate. destruct (negb (isAnimating c)); [apply untouched_refl|].
  match goal with
  | |- Spec.Untouched _ _ (set_frameRequests _ (interpolateBlendShapes ?d ?x)) =>
      pose proof (interpolateBlendShapes_untouched d x n Hn) as H
  end.
  exact H.
Qed.

Lemma zeroSink_protected (controls : gmap string Control) (s : gmap string float) (n : string) :
  isProtected n = true -> zeroSink controls s !! n = s !! n.
Proof.
  intros Hn. unfold zeroSink. apply fold_left_frame. intros s' [k control] _. simpl.
  destruct (bound control && negb (isProtected k)) eqn:E; [|reflexivity].
  apply andb_true_iff in E as [_ E]. apply negb_true_iff in E.
  apply lookup_insert_ne. intros ->. congruence.
Qed.

Lemma resetBlendShapes_untouched (c : Controller) (n : string) :
  isProtected n = true -> Spec.Untouched n c (resetBlendShapes c).
Proof.
  intros Hn. rewrite resetBlendShapes_eq. unfold Spec.Untouched. fields.
  split; [|split].
  - destruct (targetBlendShapes c !! n) as [v|] eqn:E.
    + apply map_lookup_filter_Some. split; [exact E | exact Hn].
    + apply map_lookup_filter_None. left. exact E.
  - destruct (currentBlendShapes c !! n) as [v|] eqn:E.
    + apply map_lookup_filter_Some. split; [exact E | left; exact Hn].
    + apply map_lookup_filter_None. left. exact E.
  - apply zeroSink_protected. exact Hn.
Qed.

Lemma stopAnimation_untouched (c : Controller) (n : string) :
  isProtected n = true -> Spec.Untouched n c (stopAnimation c).
Proof.
  intros Hn. rewrite stopAnimation_eq.
  exact (resetBlendShapes_untouched (clearAudioSource (set_isAnimating false c)) n Hn).
Qed.

Lemma fold_untouched {A : Type} (step : Controller -> A -> Controller) (l : list A)
    (c : Controller) (n : string) :
  (forall c' a, Spec.Untouched n c' (step c' a)) ->
  Spec.Untouched n c (fold_left step l c).
Proof.
  intros H. revert c. induction l as [|a l IH]; intros c; simpl.
  - apply untouched_refl.
  - eapply untouched_trans; [apply H | apply IH].
Qed.

Lemma initializeBlendShapes_untouched (c : Controller) (n : string) :
  isProtected n = true -> Spec.Untouched n c (initializeBlendShapes c).
Proof.
  intros Hn. unfold initializeBlendShapes. apply fold_untouched.
  intros c' [k control].
  destruct (bound control && negb (isProtected k)) eqn:E; [|apply untouched_refl].
  apply andb_true_iff in E as [_ E]. apply negb_true_iff in E.
  assert (k <> n) by congruence.
  unfold Spec.Untouched. fields. rewrite !lookup_insert_ne by assumption. repeat split.
Qed.

Lemma pollAudioPause_untouched (currentTime : float) (c : Controller) (n : string) :
  isProtected n = true -> Spec.Untouched n c (pollAudioPause currentTime c).1.
Proof.
  intros Hn. unfold pollAudioPause.
  destruct (currentAudio c); [|(apply untouched_fields; reflexivity)].
  destruct (negb (isAnimating c) || negb (usingAudioBasedPauses c));
    [(apply untouched_fields; reflexivity)|].
  destruct (AudioAnalyzer.getPauseAtTime (analyzerPauses c) currentTime) as [p|].
  - destruct (negb (currentlyInPause c)
              || negb (bool_decide (lastAppliedPauseId c = Some (pauseId p))));
      [|(apply untouched_fields; reflexivity)].
    exact (applyPausePhoneme_untouched (AudioAnalyzer.type p) c n Hn).
  - destruct (currentlyInPause c); (apply untouched_fields; reflexivity).
Qed.

Lemma setAudioSource_untouched (audioElement : AudioElement)
    (analysis : option (list AudioAnalyzer.Pause)) (c : Controller) (n : string) :
  Spec.Untouched n c (setAudioSource audioElement analysis c).1.
Proof.
  unfold setAudioSource. destruct analysis as [pauses|]; [|(apply untouched_fields; reflexivity)].
  fields. destruct (0 <? length pauses)%nat; (apply untouched_fields; reflexivity).
Qed.

Lemma startPreparedAnimation_untouched (now : float) (c : Controller) (n : string) :
  isProtected n = true -> Spec.Untouched n c (startPreparedAnimation now c).1.
Proof.
  intros Hn. unfold startPreparedAnimation.
  destruct (preparedPhonemes c) as [prepared|]; [|(apply untouched_fields; reflexivity)].
  set (c1 := if isAnimating c then stopAnimation c else c).
  assert (H1 : Spec.Untouched n c c1).
  { unfold c1. destruct (isAnimating c);
      [apply stopAnimation_untouched; exact Hn | (apply untouched_fields; reflexivity)]. }
  fields. destruct (schedule _ _ _ _ _) as [new final]. cbn [fst].
  eapply untouched_trans; [exact H1|].
  match goal with |- Spec.Untouched _ _ (animate _ ?x) =>
    eapply untouched_trans; [|exact (animate_untouched now x n Hn)] end.
  (apply untouched_fields; reflexivity).
Qed.

Lemma speak_untouched (text speed : string) (fetched : option (list string)) (now : float)
    (c : Controller) (n : string) :
  isProtected n = true -> Spec.Untouched n c (speak text speed fetched now c).1.
Proof.
  intros Hn. unfold speak, speakBegin.
  destruct text as [|a text]; [(apply untouched_fields; reflexivity)|].
  set (c1 := if isAnimating c then stopAnimation c else c).
  assert (H1 : Spec.Untouched n c c1).
  { unfold c1. destruct (isAnimating c);
      [apply stopAnimation_untouched; exact Hn | (apply untouched_fields; reflexivity)]. }
  destruct (speakResume _ _ _ _) as [c2 duration] eqn:E. cbn [fst].
  assert (E2 : c2 = (speakResume (String a text) fetched now
                       (set_phonemeSpeedMs
                          (JS.orDefault (JS.prop speechRate speed)
                             (JS.orDefault (JS.prop speechRate "normal") 0)) c1)).1)
    by (rewrite E; reflexivity).
  rewrite E2. unfold speakResume.
  eapply untouched_trans; [exact H1|].
  eapply untouched_trans; [|apply startPreparedAnimation_untouched; exact Hn].
  destruct fetched as [phonemes|]; [(apply untouched_fields; reflexivity)|].
  unfold preparePhonemes. (apply untouched_fields; reflexivity).
Qed.

Lemma fireTimer_untouched (k : nat) (c : Controller) (n : string) :
  isProtected n = true -> Spec.Untouched n c (fireTimer k c).
Proof.
  intros Hn. unfold fireTimer.
  destruct (nth_error (timers c) k) as [timer|]; [|(apply untouched_fields; reflexivity)].
  set (c1 := set_timers _ c).
  assert (H1 : Spec.Untouched n c c1) by (apply untouched_fields; reflexivity).
  eapply untouched_trans; [exact H1|].
  destruct (callback timer); unfold runCallback.
  - apply applyPhoneme_untouched. exact Hn.
  - apply applyAnticipatedPhoneme_untouched. exact Hn.
Qed.

Lemma perform_untouched (op : Operation) (c : Controller) (n : string) :
  isProtected n = true -> Spec.Untouched n c (perform op c).
Proof.
  intros Hn. destruct op; unfold perform.
  - apply initializeBlendShapes_untouched. exact Hn.
  - apply applyPhoneme_untouched. exact Hn.
  - apply applyAnticipatedPhoneme_untouched. exact Hn.
  - apply applyPausePhoneme_untouched. exact Hn.
  - apply pollAudioPause_untouched. exact Hn.
  - apply interpolateBlendShapes_untouched. exact Hn.
  - apply animate_untouched. exact Hn.
  - apply resetBlendShapes_untouched. exact Hn.
  - apply stopAnimation_untouched. exact Hn.
  - apply setAudioSource_untouched.
  - apply startPreparedAnimation_untouched. exact Hn.
  - apply speak_untouched. exact Hn.
  - apply fireTimer_untouched. exact Hn.
  - apply untouched_fields; reflexivity.
  - unfold preparePhonemes. destruct text; apply untouched_fields; reflexivity.
  - apply untouched_fields; reflexivity.
  - apply untouched_fields; reflexivity.
Qed.

(** C7. No operation of the controller writes a protected channel: whatever
    the operation, the entries of a protected name in the target map, in the
    current map and in the channel sink are what they were; so the
    operations keep the protected channels absent from both weight maps. *)
Theorem protected_channels_never_written (op : Operation) (c : Controller) :
  (forall n, isProtected n = true -> Spec.Untouched n c (perform op c)) /\
  (Spec.ProtectedAbsent c -> Spec.ProtectedAbsent (perform op c)).
Proof.
  assert (H : forall n, isProtected n = true -> Spec.Untouched n c (perform op c))
    by (intros n Hn; apply perform_untouched; exact Hn).
  split; [exact H|].
  intros Hc n Hn. destruct (H n Hn) as (Ht & Hcur & _). destruct (Hc n Hn) as [A B].
  rewrite Ht, Hcur. split; assumption.
Qed.

Lemma protected_channels_never_written_witness :
  let n := "BlendShapes_Main.happy_M" in
  isProtected n = true /\
  Spec.ProtectedAbsent Sample.idle /\
  Spec.Untouched n Sample.idle (perform (OpApplyPhoneme "AAA") Sample.idle) /\
  Spec.ProtectedAbsent (perform (OpApplyPhoneme "AAA") Sample.idle).
Proof.
  intros n.
  assert (Hn : isProtected n = true) by (vm_compute; reflexivity).
  assert (Hidle : Spec.ProtectedAbsent Sample.idle).
  { intros k Hk. destruct (perform_untouched OpInitialize (fresh Sample.controls) k Hk)
      as (Ht & Hc & _).
    split; [exact Ht | exact Hc]. }
  destruct (protected_channels_never_written (OpApplyPhoneme "AAA") Sample.idle) as [Hwrite Hkeep].
  split; [exact Hn|]. split; [exact Hidle|]. split; [exact (Hwrite n Hn) | exact (Hkeep Hidle)].
Defined.

(** From the state the constructor leaves, whatever operations follow, a
    protected channel is in neither weight map and was never sent to the sink. *)
Corollary protected_channels_absent_always (controls : gmap string Control)
    (ops : list Operation) (n : string) :
  isProtected n = true ->
  let c := fold_left (fun c op => perform op c) ops (create controls) in
  targetBlendShapes c !! n = None /\ currentBlendShapes c !! n = None /\ sink c !! n = None.
Proof.
  intros Hn c.
  assert (H : Spec.Untouched n (fresh controls) c).
  { unfold c, create. eapply untouched_trans.
    - apply (initializeBlendShapes_untouched _ n Hn).
    - apply fold_untouched. intros c' op. apply perform_untouched. exact Hn. }
  destruct H as (A & B & C). rewrite A, B, C. repeat split.
Qed.

(** ** Anticipation next to a pause *)

Lemma orDefault_truthy (w d : float) : JS.truthy w = true -> JS.orDefault (Some w) d = w.
Proof. intros H. unfold JS.orDefault. rewrite H. reflexivity. Qed.

(** C6. Anticipate(current, next, factor).  When [next] is a pause symbol,
    the step multiplies the target weight of every non-protected channel
    (taken as 0 when the channel has none yet) by [1 - factor] and writes
    nothing else; when [current] is a pause symbol and [next] is not, the
    step changes nothing. *)
Theorem anticipate_next_to_pause (c : Controller) (currentPhoneme : string) (blendFactor : float) :
  (forall nextPhoneme, isPausePhoneme nextPhoneme = true ->
     let c' := applyAnticipatedPhoneme currentPhoneme (Some nextPhoneme) blendFactor c in
     c' = set_targetBlendShapes (targetBlendShapes c') c /\
     (forall n control,
         blendShapeControls c !! n = Some control -> isProtected n = false ->
         targetBlendShapes c' !! n =
           Some (JS.orDefault (targetBlendShapes c !! n) 0 * (1 - blendFactor))%float) /\
     (forall n control w,
         blendShapeControls c !! n = Some control -> isProtected n = false ->
         targetBlendShapes c !! n = Some w -> JS.truthy w = true ->
         targetBlendShapes c' !! n = Some (w * (1 - blendFactor))%float) /\
     (forall n,
         blendShapeControls c !! n = None \/ isProtected n = true ->
         targetBlendShapes c' !! n = targetBlendShapes c !! n)) /\
  (isPausePhoneme currentPhoneme = true ->
   forall nextPhoneme,
     (forall next, nextPhoneme = Some next -> isPausePhoneme next = false) ->
     applyAnticipatedPhoneme currentPhoneme nextPhoneme blendFactor c = c).
Proof.
  split.
  - intros nextPhoneme Hnext c'.
    assert (Hc' : c' = set_targetBlendShapes
                         (fold_left
                            (fun (t : gmap string float) (name : string) =>
                               if negb (isProtected name)
                               then <[name := (JS.orDefault (t !! name) 0
                                               * (1 - blendFactor))%float]> t
                               else t)
                            (keys (blendShapeControls c)) (targetBlendShapes c)) c).
    { unfold c', applyAnticipatedPhoneme.
      destruct nextPhoneme as [|a next]; [discriminate Hnext|].
      rewrite Hnext. reflexivity. }
    assert (Hhit : forall n control,
               blendShapeControls c !! n = Some control -> isProtected n = false ->
               targetBlendShapes c' !! n =
                 Some (JS.orDefault (targetBlendShapes c !! n) 0 * (1 - blendFactor))%float).
    { intros n control Hc Hn. rewrite Hc'. fields.
      apply (key_loop_hit (fun k => negb (isProtected k))
               (fun v => (JS.orDefault v 0 * (1 - blendFactor))%float)).
      - apply keys_NoDup.
      - apply keys_In. exists control. exact Hc.
      - rewrite Hn. reflexivity. }
    split; [rewrite Hc'; reflexivity|]. split; [exact Hhit|]. split.
    + intros n control w Hc Hn Hw Ht.
      rewrite (Hhit n control Hc Hn), Hw, (orDefault_truthy w 0 Ht). reflexivity.
    + intros n Hn. rewrite Hc'. fields.
      apply (key_loop_miss (fun k => negb (isProtected k))
               (fun v => (JS.orDefault v 0 * (1 - blendFactor))%float)).
      destruct Hn as [Hn | Hn].
      * left. rewrite keys_In. intros [control H]. congruence.
      * right. rewrite Hn. reflexivity.
  - intros Hcur nextPhoneme Hnext. unfold applyAnticipatedPhoneme.
    destruct nextPhoneme as [[|a next]|]; try reflexivity.
    rewrite (Hnext _ eq_refl), Hcur. reflexivity.
Qed.

Lemma anticipate_next_to_pause_witness :
  let c := applyPhoneme "AAA" Sample.idle in
  let n := "BlendShapes_Main.aaa_M" in
  (isPausePhoneme "PAUSE_MED" = true /\
   blendShapeControls c !! n = Some (Sample.control n) /\ isProtected n = false) /\
  targetBlendShapes (applyAnticipatedPhoneme "AAA" (Some "PAUSE_MED") 0.5 c) !! n =
    Some (JS.orDefault (targetBlendShapes c !! n) 0 * (1 - 0.5))%float /\
  applyAnticipatedPhoneme "PAUSE_MED" (Some "AAA") 0.5 c = c.
Proof.
  intros c n.
  assert (Hpause : isPausePhoneme "PAUSE_MED" = true) by reflexivity.
  assert (Hc : blendShapeControls c !! n = Some (Sample.control n)) by (vm_compute; reflexivity).
  assert (Hn : isProtected n = false) by (vm_compute; reflexivity).
  split; [repeat split; assumption|]. split.
  - destruct (anticipate_next_to_pause c "AAA" 0.5) as [Hinto _].
    destruct (Hinto "PAUSE_MED" Hpause) as (_ & Hhit & _).
    exact (Hhit n (Sample.control n) Hc Hn).
  - destruct (anticipate_next_to_pause c "PAUSE_MED" 0.5) as [_ Hout].
    apply (Hout Hpause (Some "AAA")). intros next [= <-]. reflexivity.
Defined.

(** On the sample controller, after Apply(AAA). *)
Example anticipate_into_pause_example :
  let c := applyPhoneme "AAA" Sample.idle in
  let c' := applyAnticipatedPhoneme "AAA" (Some "PAUSE_MED") 0.5 c in
  targetBlendShapes c !! "BlendShapes_Main.aaa_M" = Some 0.7%float /\
  targetBlendShapes c' !! "BlendShapes_Main.aaa_M" = Some 0.35%float /\
  targetBlendShapes c' !! "BlendShape_Main.MouthOpen" = Some 0.25%float /\
  targetBlendShapes c' !! "BlendShapes_Main.happy_M" = None /\
  applyAnticipatedPhoneme "PAUSE_MED" (Some "AAA") 0.5 c = c.
Proof. vm_compute. repeat split. Qed.

(** ** Stopping *)

Lemma zeroSink_miss (controls : gmap string Control) (s : gmap string float) (n : string) :
  (forall control, controls !! n = Some control ->
                   bound control && negb (isProtected n) = false) ->
  zeroSink controls s !! n = s !! n.
Proof.
  intros H. unfold zeroSink. apply fold_left_frame. intros s' [k control] Hin. simpl.
  destruct (bound control && negb (isProtected k)) eqn:E; [|reflexivity].
  apply lookup_insert_ne. intros ->.
  apply entries_In in Hin. rewrite (H control Hin) in E. discriminate.
Qed.

Lemma zeroSink_hit (controls : gmap string Control) (s : gmap string float) (n : string)
    (control : Control) :
  controls !! n = Some control -> bound control = true -> isProtected n = false ->
  zeroSink controls s !! n = Some 0%float.
Proof.
  intros Hc Hb Hn. apply entries_In in Hc. unfold zeroSink.
  revert s Hc. generalize (entries controls). intros l.
  assert (Keep : forall l' s', s' !! n = Some 0%float ->
            fold_left
              (fun (s : gmap string float) (entry : string * Control) =>
                 if bound entry.2 && negb (isProtected entry.1)
                 then <[entry.1 := 0%float]> s else s) l' s' !! n = Some 0%float).
  { induction l' as [|[k ctl] l' IH]; intros s' Hs'; simpl; [exact Hs'|].
    apply IH. destruct (bound ctl && negb (isProtected k)); [|exact Hs'].
    destruct (decide (k = n)) as [->|Hk];
      [apply lookup_insert_eq | rewrite lookup_insert_ne by exact Hk; exact Hs']. }
  induction l as [|[k ctl] l IH]; intros s Hin; [destruct Hin|]. simpl.
  destruct Hin as [E | Hin]; [|apply IH; exact Hin].
  injection E as -> ->. rewrite Hb, Hn. simpl. apply Keep. apply lookup_insert_eq.
Qed.

Lemma zeroSink_idempotent (controls : gmap string Control) (s : gmap string float) :
  zeroSink controls (zeroSink controls s) = zeroSink controls s.
Proof.
  apply map_eq. intros n.
  destruct (controls !! n) as [control|] eqn:Hc.
  - destruct (bound control && negb (isProtected n)) eqn:E.
    + apply andb_true_iff in E as [Hb Hn]. apply negb_true_iff in Hn.
      rewrite !(zeroSink_hit controls _ n control Hc Hb Hn). reflexivity.
    + apply zeroSink_miss. intros control' H. rewrite Hc in H. injection H as <-. exact E.
  - apply zeroSink_miss. intros control' H. rewrite Hc in H. discriminate H.
Qed.

Lemma filter_protected_idempotent (t : gmap string float) :
  filter (fun kv : string * float => isProtected kv.1 = true)
         (filter (fun kv : string * float => isProtected kv.1 = true) t) =
  filter (fun kv : string * float => isProtected kv.1 = true) t.
Proof.
  apply map_eq. intros n.
  destruct (filter (fun kv : string * float => isProtected kv.1 = true) t !! n) as [v|] eqn:E.
  - apply map_lookup_filter_Some. split; [exact E|].
    apply map_lookup_filter_Some in E as [_ E]. exact E.
  - apply map_lookup_filter_None. left. exact E.
Qed.

Lemma filter_current_idempotent (t cur : gmap string float) :
  let t' := filter (fun kv : string * float => isProtected kv.1 = true) t in
  let cur' := filter (fun kv : string * float => isProtected kv.1 = true \/ t !! kv.1 = None) cur in
  filter (fun kv : string * float => isProtected kv.1 = true \/ t' !! kv.1 = None) cur' = cur'.
Proof.
  intros t' cur'. apply map_eq. intros n.
  destruct (cur' !! n) as [v|] eqn:E.
  - apply map_lookup_filter_Some. split; [exact E|].
    apply map_lookup_filter_Some in E as [_ [E | E]]; [left; exact E|].
    right. apply map_lookup_filter_None. left. exact E.
  - apply map_lookup_filter_None. left. exact E.
Qed.

Lemma stopAnimation_explicit (c : Controller) :
  stopAnimation c =
  {| blendShapeControls := blendShapeControls c; isAnimating := false;
     usingAudioBasedPauses := false; currentAudio := None; pauseUpdateInterval := false;
     detectedPauses := []; analyzerPauses := analyzerPauses c;
     lastAppliedPauseId := None; currentlyInPause := false;
     phonemeOffsetMs := phonemeOffsetMs c; transitionDuration := transitionDuration c;
     phonemeSpeedMs := phonemeSpeedMs c; endDelayMs := endDelayMs c;
     lastPhonemeTime := lastPhonemeTime c; anticipation := anticipation c;
     preparedPhonemes := preparedPhonemes c;
     currentBlendShapes :=
       filter (fun kv : string * float =>
                 isProtected kv.1 = true \/ targetBlendShapes c !! kv.1 = None)
              (currentBlendShapes c);
     targetBlendShapes :=
       filter (fun kv : string * float => isProtected kv.1 = true) (targetBlendShapes c);
     sink := zeroSink (blendShapeControls c) (sink c);
     timers := timers c; lastFrame := lastFrame c; frameRequests := frameRequests c |}.
Proof. rewrite stopAnimation_eq, resetBlendShapes_eq. reflexivity. Qed.

(** When every value of the object of controls is a control,
    [stopAnimation] stops the animation, resets the pause tracking and
    leaves every non-protected channel at weight 0 in the sink and without
    an entry in the target map; calling it a second time changes nothing. *)
Lemma stopAnimation_idempotent (c : Controller) :
  stopAnimation (stopAnimation c) = stopAnimation c /\
  isAnimating (stopAnimation c) = false /\
  (pauseUpdateInterval (stopAnimation c) = false /\
   currentAudio (stopAnimation c) = None /\
   usingAudioBasedPauses (stopAnimation c) = false /\
   detectedPauses (stopAnimation c) = [] /\
   lastAppliedPauseId (stopAnimation c) = None /\
   currentlyInPause (stopAnimation c) = false) /\
  (forall n control,
      blendShapeControls c !! n = Some control -> bound control = true ->
      isProtected n = false ->
      sink (stopAnimation c) !! n = Some 0%float) /\
  (forall n, isProtected n = false ->
      targetBlendShapes (stopAnimation c) !! n = None /\
      (targetBlendShapes c !! n <> None -> currentBlendShapes (stopAnimation c) !! n = None)).
Proof.
  split.
  { rewrite (stopAnimation_explicit (stopAnimation c)).
    rewrite !(stopAnimation_explicit c). fields.
    rewrite zeroSink_idempotent, filter_protected_idempotent.
    rewrite (filter_current_idempotent (targetBlendShapes c) (currentBlendShapes c)).
    reflexivity. }
  rewrite stopAnimation_explicit. fields.
  split; [reflexivity|]. split; [repeat split|]. split.
  - intros n control Hc Hb Hn. apply (zeroSink_hit _ _ n control); assumption.
  - intros n Hn. split.
    + apply map_lookup_filter_None. right. intros v _. simpl. congruence.
    + intros Ht. apply map_lookup_filter_None. right. intros v _. simpl.
      intros [H | H]; congruence.
Qed.

Lemma stopAnimation_idempotent_witness :
  let c := Sample.speaking in
  let n := "BlendShapes_Main.aaa_M" in
  (blendShapeControls c !! n = Some (Sample.control n) /\
   bound (Sample.control n) = true /\ isProtected n = false) /\
  stopAnimation (stopAnimation c) = stopAnimation c /\
  isAnimating (stopAnimation c) = false /\
  sink (stopAnimation c) !! n = Some 0%float /\
  targetBlendShapes (stopAnimation c) !! n = None.
Proof.
  intros c n.
  assert (Hc : blendShapeControls c !! n = Some (Sample.control n)) by (vm_compute; reflexivity).
  assert (Hb : bound (Sample.control n) = true) by reflexivity.
  assert (Hn : isProtected n = false) by (vm_compute; reflexivity).
  destruct (stopAnimation_idempotent c) as (Hidem & Hstop & _ & Hsink & Htarget).
  split; [repeat split; assumption|].
  split; [exact Hidem|]. split; [exact Hstop|].
  split; [exact (Hsink n (Sample.control n) Hc Hb Hn) | exact (proj1 (Htarget n Hn))].
Defined.

(** Stopping a controller on which nothing was ever started, and one that speaks. *)
Example stopAnimation_example :
  stopAnimation (stopAnimation Sample.idle) = stopAnimation Sample.idle /\
  stopAnimation (stopAnimation Sample.speaking) = stopAnimation Sample.speaking /\
  sink (stopAnimation Sample.speaking) !! "BlendShapes_Main.aaa_M" = Some 0%float /\
  sink (stopAnimation Sample.speaking) !! "BlendShapes_Main.happy_M" = None.
Proof. vm_compute. repeat split. Qed.

(** ** Objects of controls with values that are null *)

(** Once the loop of [resetBlendShapesOn] has thrown, nothing follows. *)
Lemma reset_loop_thrown (object : ControlsObject) :
  fold_left
    (fun (st : option Controller) (entry : string * option Control) =>
       let (name, control) := entry in
       match st, control with
       | Some c, Some control =>
           if bound control && negb (isProtected name)
           then Some (set_sink (<[name := 0%float]> (sink c)) c)
           else Some c
       | _, _ => None
       end)
    object None = None.
Proof. induction object as [|[k v] object IH]; [reflexivity|exact IH]. Qed.

(** A value that is [null] makes [resetBlendShapes] and [stopAnimation]
    throw, whatever the state. *)
Lemma resetBlendShapesOn_null (object : ControlsObject) (c : Controller) (key : string) :
  In (key, None) object -> resetBlendShapesOn object c = None.
Proof.
  unfold resetBlendShapesOn. cbv zeta.
  generalize (set_currentBlendShapes
                (filter (fun kv : string * float =>
                           isProtected kv.1 = true ∨ targetBlendShapes c !! kv.1 = None)
                        (currentBlendShapes c))
                (set_targetBlendShapes
                   (filter (fun kv : string * float => isProtected kv.1 = true)
                           (targetBlendShapes c)) c)).
  induction object as [|[k v] object IH]; intros c' Hin; [destruct Hin|].
  cbn [fold_left]. destruct Hin as [E|Hin].
  - injection E as -> ->. apply reset_loop_thrown.
  - destruct v as [control|]; [|apply reset_loop_thrown].
    destruct (bound control && negb (isProtected k)); apply IH, Hin.
Qed.

Lemma stopAnimationOn_null (object : ControlsObject) (c : Controller) (key : string) :
  In (key, None) object -> stopAnimationOn object c = None.
Proof. intros H. unfold stopAnimationOn. cbv zeta. eapply resetBlendShapesOn_null, H. Qed.

(** Without a value that is [null] the loop ends, with the zeros written. *)
Lemma reset_loop_returns (object : ControlsObject) (c : Controller) :
  (forall key, ~ In (key, None) object) ->
  fold_left
    (fun (st : option Controller) (entry : string * option Control) =>
       let (name, control) := entry in
       match st, control with
       | Some c, Some control =>
           if bound control && negb (isProtected name)
           then Some (set_sink (<[name := 0%float]> (sink c)) c)
           else Some c
       | _, _ => None
       end)
    object (Some c) = Some (set_sink (zeroSinkOn object (sink c)) c).
Proof.
  revert c. induction object as [|[k [control|]] object IH]; intros c Hnull.
  - destruct c; reflexivity.
  - cbn [fold_left zeroSinkOn fst snd].
    assert (Hrest : forall key, ~ In (key, None) object)
      by (intros key H; apply (Hnull key); right; exact H).
    destruct (bound control && negb (isProtected k)); [|apply IH, Hrest].
    rewrite (IH _ Hrest). reflexivity.
  - exfalso. apply (Hnull k). left. reflexivity.
Qed.

(** The controls of an object are its values that are not [null]. *)
Lemma controlsOf_lookup (object : ControlsObject) (n : string) (control : Control) :
  NoDup (map fst object) ->
  controlsOf object !! n = Some control <-> In (n, Some control) object.
Proof.
  intros Hd. induction object as [|[k v] object IH].
  { cbn. rewrite lookup_empty. split; [discriminate|tauto]. }
  apply NoDup_cons in Hd as [Hk Hd]. specialize (IH Hd).
  unfold controlsOf in *. cbn [omap list_omap snd fst].
  destruct v as [ctl|].
  - cbn [list_to_map foldr]. destruct (String.eqb_spec k n) as [->|Hne].
    + rewrite lookup_insert_eq. split.
      * intros E. injection E as ->. left. reflexivity.
      * intros [E|Hin]; [injection E as ->; reflexivity|].
        exfalso. apply Hk. apply list_elem_of_In. apply in_map_iff. exists (n, Some control).
        split; [reflexivity|exact Hin].
    + rewrite lookup_insert_ne by exact Hne. rewrite IH. split; [right; assumption|].
      intros [E|Hin]; [congruence|exact Hin].
  - rewrite IH. split; [right; assumption|]. intros [E|Hin]; [discriminate|exact Hin].
Qed.

Lemma zeroSinkOn_lookup (object : ControlsObject) (s : gmap string float) (n : string) :
  zeroSinkOn object s !! n =
  if existsb (fun entry : string * option Control =>
                String.eqb entry.1 n
                && match entry.2 with
                   | Some control => bound control && negb (isProtected entry.1)
                   | None => false
                   end)
             object
  then Some 0%float else s !! n.
Proof.
  unfold zeroSinkOn. revert s. induction object as [|[k v] object IH]; intros s; [reflexivity|].
  cbn [fold_left existsb fst snd]. rewrite IH.
  destruct (existsb _ object); [rewrite orb_true_r; reflexivity|]. rewrite orb_false_r.
  destruct v as [control|]; [|rewrite andb_false_r; reflexivity].
  destruct (bound control && negb (isProtected k)); [|rewrite andb_false_r; reflexivity].
  rewrite andb_true_r. destruct (String.eqb_spec k n) as [->|Hne].
  - apply lookup_insert_eq.
  - apply lookup_insert_ne, Hne.
Qed.

Lemma zeroSinkOn_controls (object : ControlsObject) (s : gmap string float) :
  NoDup (map fst object) -> zeroSinkOn object s = zeroSink (controlsOf object) s.
Proof.
  intros Hd. apply map_eq. intros n. rewrite zeroSinkOn_lookup.
  destruct (existsb _ object) eqn:E.
  - apply existsb_exists in E as ([k v] & Hin & E). cbn [fst snd] in E.
    apply andb_true_iff in E as [Ek E]. apply String.eqb_eq in Ek. subst k.
    destruct v as [control|]; [|discriminate].
    apply andb_true_iff in E as [Hb Hn]. apply negb_true_iff in Hn.
    symmetry. apply (zeroSink_hit _ _ n control); [|exact Hb|exact Hn].
    apply controlsOf_lookup; assumption.
  - symmetry. apply zeroSink_miss. intros control Hc.
    apply controlsOf_lookup in Hc; [|exact Hd].
    destruct (bound control && negb (isProtected n)) eqn:Eg; [|reflexivity].
    assert (Hex : existsb (fun entry : string * option Control =>
                String.eqb entry.1 n
                && match entry.2 with
                   | Some control => bound control && negb (isProtected entry.1)
                   | None => false
                   end) object = true).
    { apply existsb_exists. exists (n, Some control). split; [exact Hc|]. cbn [fst snd].
      rewrite String.eqb_refl, Eg. reflexivity. }
    congruence.
Qed.

(** On an object none of whose values is [null], [stopAnimation] is the
    function of the controls. *)
Lemma stopAnimationOn_controls (object : ControlsObject) (c : Controller) :
  NoDup (map fst object) -> (forall key, ~ In (key, None) object) ->
  blendShapeControls c = controlsOf object ->
  stopAnimationOn object c = Some (stopAnimation c).
Proof.
  intros Hd Hnull Hc. unfold stopAnimationOn, resetBlendShapesOn. cbv zeta.
  rewrite (reset_loop_returns _ _ Hnull), (zeroSinkOn_controls _ _ Hd), <- Hc.
  rewrite stopAnimation_eq, resetBlendShapes_eq. reflexivity.
Qed.

Lemma set_fields_same (c : Controller) :
  set_sink (sink c)
    (set_targetBlendShapes (targetBlendShapes c)
       (set_currentBlendShapes (currentBlendShapes c) c)) = c.
Proof. destruct c; reflexivity. Qed.

Lemma initializeBlendShapesOn_explicit (object : ControlsObject) (c : Controller) :
  initializeBlendShapesOn object c =
  set_sink (zeroSinkOn object (sink c))
    (set_targetBlendShapes (zeroSinkOn object (targetBlendShapes c))
       (set_currentBlendShapes (zeroSinkOn object (currentBlendShapes c)) c)).
Proof.
  unfold initializeBlendShapesOn, zeroSinkOn. revert c.
  induction object as [|[k [control|]] object IH]; intros c; cbn [fold_left fst snd].
  - symmetry. apply set_fields_same.
  - destruct (bound control && negb (isProtected k)); [|apply IH].
    rewrite IH. reflexivity.
  - apply IH.
Qed.

Lemma initializeBlendShapes_explicit (c : Controller) :
  initializeBlendShapes c =
  set_sink (zeroSink (blendShapeControls c) (sink c))
    (set_targetBlendShapes (zeroSink (blendShapeControls c) (targetBlendShapes c))
       (set_currentBlendShapes (zeroSink (blendShapeControls c) (currentBlendShapes c)) c)).
Proof.
  unfold initializeBlendShapes, zeroSink. generalize (entries (blendShapeControls c)).
  intros l. revert c. induction l as [|[k control] l IH]; intros c; cbn [fold_left fst snd].
  - symmetry. apply set_fields_same.
  - destruct (bound control && negb (isProtected k)); [|apply IH].
    rewrite IH. reflexivity.
Qed.

(** The constructor passes over the values that are [null]: it leaves the
    state it leaves for the controls among the values. *)
Lemma createOn_controls (object : ControlsObject) :
  NoDup (map fst object) -> createOn object = create (controlsOf object).
Proof.
  intros Hd. unfold createOn, create.
  rewrite initializeBlendShapesOn_explicit, initializeBlendShapes_explicit.
  rewrite !(zeroSinkOn_controls _ _ Hd). reflexivity.
Qed.

(** C9. The specification has [stopAnimation] raise no error from any state.
    The constructor accepts an object of controls in which a key has the
    value [null]: the test of [initializeBlendShapes] starts with
    [control &&].  The loop of [resetBlendShapes] has the same test without
    that guard and reads [control.mesh] of the [null] value: on the state
    the constructor has just left, [stopAnimation] throws a TypeError. *)
Theorem stopAnimation_throws_on_null_control :
  (targetBlendShapes (createOn Sample.withNull) !! "BlendShapes_Main.aaa_M" = Some 0%float /\
   sink (createOn Sample.withNull) !! "BlendShapes_Main.aaa_M" = Some 0%float /\
   targetBlendShapes (createOn Sample.withNull) !! "BlendShapes_Main.sss_M" = None /\
   isAnimating (createOn Sample.withNull) = false) /\
  stopAnimationOn Sample.withNull (createOn Sample.withNull) = None.
Proof. vm_compute. repeat split. Qed.

(** ** A new utterance while the previous one is animating *)

Lemma speak_eq (text speed : string) (fetched : option (list string)) (now : float)
    (c : Controller) :
  text <> "" ->
  let c1 := if isAnimating c then stopAnimation c else c in
  let rate := JS.orDefault (JS.prop speechRate speed)
                (JS.orDefault (JS.prop speechRate "normal") 0) in
  let c2 := set_phonemeSpeedMs rate c1 in
  let c3 := match fetched with
            | Some phonemes =>
                set_preparedPhonemes
                  (Some {| phonemes := phonemes;
                           anticipationEnabled := enabled (anticipation c);
                           anticipationFactor := factor (anticipation c);
                           anticipationOffset := (rate * offsetFactor (anticipation c))%float |})
                  c2
            | None => preparePhonemes text c2
            end in
  speak text speed fetched now c =
  ((startPreparedAnimation now (set_lastPhonemeTime 0 (set_isAnimating true c3))).1,
   Some (startPreparedAnimation now (set_lastPhonemeTime 0 (set_isAnimating true c3))).2).
Proof.
  intros Ht c1 rate c2 c3. unfold speak, speakBegin.
  destruct text as [|a text]; [congruence|].
  fold c1. fold rate. fold c2. unfold speakResume.
  assert (Ha : anticipation c2 = anticipation c).
  { unfold c2, c1. fields. destruct (isAnimating c); [|reflexivity].
    rewrite stopAnimation_explicit. reflexivity. }
  rewrite Ha. change (phonemeSpeedMs c2) with rate. fold c3.
  destruct (startPreparedAnimation now _) as [c' d]. reflexivity.
Qed.

(** C2, as the code has it.  [speak] runs [stopAnimation] before it registers
    the events of the new utterance: the pause poll and the audio source are
    cleared and the non-protected targets dropped.  The timers of the previous
    utterance are not cancelled: the new events are appended behind every
    timer that was pending. *)
Theorem speak_appends_to_pending_timers (text speed : string) (fetched : option (list string))
    (now : float) (c : Controller) :
  text <> "" ->
  let c' := (speak text speed fetched now c).1 in
  let rate := JS.orDefault (JS.prop speechRate speed)
                (JS.orDefault (JS.prop speechRate "normal") 0) in
  exists new : list Timer,
    timers c' = timers c ++ new /\
    (forall phonemes, fetched = Some phonemes ->
       new = (schedule rate
                {| phonemes := phonemes;
                   anticipationEnabled := enabled (anticipation c);
                   anticipationFactor := factor (anticipation c);
                   anticipationOffset := (rate * offsetFactor (anticipation c))%float |}
                phonemes (phonemeOffsetMs c) 0).1) /\
    isAnimating c' = true /\
    pauseUpdateInterval c' = false /\
    currentAudio c' = None /\
    (forall n, isProtected n = false -> targetBlendShapes c' !! n = None).
Proof.
  intros Ht c' rate. unfold c'. rewrite (speak_eq text speed fetched now c Ht). cbn [fst].
  set (c1 := if isAnimating c then stopAnimation c else c).
  set (c2 := set_phonemeSpeedMs _ c1).
  set (c3 := match fetched with Some _ => _ | None => _ end).
  set (c4 := set_lastPhonemeTime 0 (set_isAnimating true c3)).
  assert (H1 : timers c1 = timers c /\ phonemeOffsetMs c1 = phonemeOffsetMs c).
  { unfold c1. destruct (isAnimating c); [|split; reflexivity].
    rewrite stopAnimation_explicit. split; reflexivity. }
  destruct H1 as [H1 H1'].
  assert (H3 : exists prepared,
             preparedPhonemes c4 = Some prepared /\ timers c4 = timers c /\
             phonemeSpeedMs c4 = rate /\ phonemeOffsetMs c4 = phonemeOffsetMs c /\
             forall phonemes, fetched = Some phonemes ->
               prepared = {| phonemes := phonemes;
                             anticipationEnabled := enabled (anticipation c);
                             anticipationFactor := factor (anticipation c);
                             anticipationOffset := (rate * offsetFactor (anticipation c))%float |}).
  { unfold c4, c3, c2. destruct fetched as [phonemes|].
    - eexists. split; [reflexivity|]. fields. rewrite H1, H1'. repeat split.
      intros ? [= <-]. reflexivity.
    - unfold preparePhonemes. destruct text as [|a text]; [congruence|].
      eexists. split; [reflexivity|]. fields. rewrite H1, H1'. repeat split.
      intros ? [=]. }
  destruct H3 as (prepared & Hp & Ht4 & Hs4 & Ho4 & Hf).
  destruct (startPreparedAnimation_prepared now c4 prepared Hp)
    as (K1 & _ & _ & K4 & K5 & K6 & K7).
  assert (Hanim : isAnimating c4 = true) by reflexivity.
  rewrite Hanim in K5, K6, K7. rewrite (stopAnimation_explicit c4) in K5, K6, K7.
  fields_in K5. fields_in K6. fields_in K7.
  exists (schedule (phonemeSpeedMs c4) prepared (phonemes prepared) (phonemeOffsetMs c4) 0).1.
  split; [rewrite K1, Ht4; reflexivity|]. split.
  { intros phonemes Hfe. rewrite (Hf phonemes Hfe), Hs4, Ho4. reflexivity. }
  split; [exact K4|]. split; [exact K5|]. split; [exact K6|].
  intros n Hn. rewrite K7. apply map_lookup_filter_None. right. intros v _. simpl. congruence.
Qed.

Lemma speak_appends_to_pending_timers_witness :
  let c := fireTimer 0 Sample.speaking in
  let c' := (speak "so" "fast" None 100 c).1 in
  "so" <> "" /\
  exists new : list Timer,
    timers c' = timers c ++ new /\
    (forall phonemes, None = Some phonemes ->
       new = (schedule 115
                {| phonemes := phonemes;
                   anticipationEnabled := enabled (anticipation c);
                   anticipationFactor := factor (anticipation c);
                   anticipationOffset := (115 * offsetFactor (anticipation c))%float |}
                phonemes (phonemeOffsetMs c) 0).1) /\
    isAnimating c' = true /\
    pauseUpdateInterval c' = false /\
    currentAudio c' = None /\
    (forall n, isProtected n = false -> targetBlendShapes c' !! n = None).
Proof.
  intros c c'.
  assert (Htext : "so" <> "") by discriminate.
  split; [exact Htext|].
  exact (speak_appends_to_pending_timers "so" "fast" None 100 c Htext).
Defined.

(** C2, as the specification words it, fails: 100 ms into a first utterance
    [AAA, PAUSE_MED, SSS] (its first event has fired), a second [speak]
    leaves the two pending events of the first utterance in the queue, in
    front of its own; the Apply(PAUSE_MED) of the first utterance then fires
    after the second utterance's Apply(SSS) and resets its pose. *)
Lemma speak_leaves_previous_timers_pending :
  let c2 := fireTimer 0 Sample.speaking in
  let c3 := (speak "s" "normal" (Some ["SSS"]) 100 c2).1 in
  let previous := [ {| delay := 225.5; callback := Apply "PAUSE_MED" |};
                    {| delay := 630.5; callback := Apply "SSS" |} ] in
  isAnimating c2 = true /\
  timers c2 = previous /\
  timers c3 = previous ++ [ {| delay := 50; callback := Apply "SSS" |} ] /\
  targetBlendShapes (fireTimer 2 c3) !! "BlendShapes_Main.sss_M" = Some 0.7%float /\
  targetBlendShapes (fireTimer 0 (fireTimer 2 c3)) !! "BlendShapes_Main.sss_M" = Some 0%float.
Proof. vm_compute. repeat split. Qed.

(** ** Polling the audio clock *)

(** While the clock stays in the pause that was applied last, a poll applies
    nothing and changes nothing. *)
Lemma poll_in_applied_pause (currentTime : float) (c : Controller) (pause : AudioAnalyzer.Pause) :
  currentlyInPause c = true ->
  lastAppliedPauseId c = Some (pauseId pause) ->
  AudioAnalyzer.getPauseAtTime (analyzerPauses c) currentTime = Some pause ->
  pollAudioPause currentTime c = (c, None).
Proof.
  intros Hin Hid Hp. unfold pollAudioPause. rewrite Hp, Hin, Hid.
  rewrite bool_decide_eq_true_2 by reflexivity.
  destruct (currentAudio c); [|reflexivity].
  destruct (negb (isAnimating c) || negb (usingAudioBasedPauses c)); reflexivity.
Qed.

(** A poll that applies a pause leaves the state in which the next polls of
    the same pause apply nothing. *)
Lemma poll_applies_then_tracks (currentTime : float) (c c' : Controller) (id : string) :
  pollAudioPause currentTime c = (c', Some id) ->
  currentlyInPause c' = true /\ lastAppliedPauseId c' = Some id /\
  analyzerPauses c' = analyzerPauses c /\
  exists pause, AudioAnalyzer.getPauseAtTime (analyzerPauses c) currentTime = Some pause /\
                id = pauseId pause.
Proof.
  unfold pollAudioPause.
  destruct (currentAudio c); [|discriminate].
  destruct (negb (isAnimating c) || negb (usingAudioBasedPauses c)); [discriminate|].
  destruct (AudioAnalyzer.getPauseAtTime (analyzerPauses c) currentTime) as [pause|].
  - destruct (negb (currentlyInPause c)
              || negb (bool_decide (lastAppliedPauseId c = Some (pauseId pause))));
      [|discriminate].
    intros [= <- <-]. fields. split; [reflexivity|]. split; [reflexivity|]. split.
    + unfold applyPausePhoneme.
      destruct (negb (JS.arrayIncludes pausePhonemes (AudioAnalyzer.type pause))); reflexivity.
    + exists pause. split; reflexivity.
  - destruct (currentlyInPause c); discriminate.
Qed.

(** The guard of the poll, on a controller that animates with an audio
    source and detected pauses: a pause is applied exactly when one is found
    at the clock reading and either no pause was current at the previous
    poll or the pause found is not the one applied last. *)
Lemma poll_applies_iff (currentTime : float) (c : Controller) (id : string) :
  currentAudio c <> None -> isAnimating c = true -> usingAudioBasedPauses c = true ->
  (pollAudioPause currentTime c).2 = Some id <->
  exists pause,
    AudioAnalyzer.getPauseAtTime (analyzerPauses c) currentTime = Some pause /\
    id = pauseId pause /\
    (currentlyInPause c = false \/ lastAppliedPauseId c <> Some id).
Proof.
  intros Ha Han Hu. unfold pollAudioPause. rewrite Han, Hu.
  destruct (currentAudio c); [|congruence]. cbn [negb orb].
  destruct (AudioAnalyzer.getPauseAtTime (analyzerPauses c) currentTime) as [pause|].
  - destruct (currentlyInPause c); cbn [negb orb].
    + destruct (bool_decide (lastAppliedPauseId c = Some (pauseId pause))) eqn:E; cbn [negb snd].
      * apply bool_decide_eq_true_1 in E. split; [discriminate|].
        intros (pause' & [= <-] & -> & [H | H]); [discriminate | contradiction].
      * apply bool_decide_eq_false_1 in E. split.
        -- intros [= <-]. exists pause. split; [reflexivity|]. split; [reflexivity|].
           right. exact E.
        -- intros (pause' & [= <-] & -> & _). reflexivity.
    + cbn [snd]. split.
      * intros [= <-]. exists pause. split; [reflexivity|]. split; [reflexivity|].
        left. reflexivity.
      * intros (pause' & [= <-] & -> & _). reflexivity.
  - split.
    + destruct (currentlyInPause c); discriminate.
    + intros (pause & H & _). discriminate H.
Qed.

(** Two polls in a row that find the same pause: the second applies nothing. *)
Lemma poll_twice_same_pause (t1 t2 : float) (c c1 : Controller) (applied : option string)
    (pause : AudioAnalyzer.Pause) :
  currentAudio c <> None -> isAnimating c = true -> usingAudioBasedPauses c = true ->
  AudioAnalyzer.getPauseAtTime (analyzerPauses c) t1 = Some pause ->
  AudioAnalyzer.getPauseAtTime (analyzerPauses c) t2 = Some pause ->
  pollAudioPause t1 c = (c1, applied) ->
  pollAudioPause t2 c1 = (c1, None).
Proof.
  intros Ha Han Hu H1 H2 Hpoll.
  destruct applied as [id|].
  - destruct (poll_applies_then_tracks t1 c c1 id Hpoll) as (A & B & C & pause' & D & ->).
    rewrite H1 in D. injection D as <-.
    apply (poll_in_applied_pause t2 c1 pause A B). rewrite C. exact H2.
  - revert Hpoll. unfold pollAudioPause. rewrite H1, Han, Hu.
    destruct (currentAudio c); [|congruence]. simpl.
    destruct (negb (currentlyInPause c)
              || negb (bool_decide (lastAppliedPauseId c = Some (pauseId pause)))) eqn:E;
      [discriminate|].
    intros [= <-]. apply orb_false_iff in E as [E1 E2].
    apply negb_false_iff in E1, E2. apply bool_decide_eq_true_1 in E2.
    apply (poll_in_applied_pause t2 c pause E1 E2 H2).
Qed.

Lemma runPolls_cons (t : float) (rest : list float) (c : Controller) :
  runPolls (t :: rest) c =
  ((runPolls rest (pollAudioPause t c).1).1,
   match (pollAudioPause t c).2 with
   | Some id => id :: (runPolls rest (pollAudioPause t c).1).2
   | None => (runPolls rest (pollAudioPause t c).1).2
   end).
Proof.
  cbn [runPolls]. destruct (pollAudioPause t c) as [c1 applied]. cbn [fst snd].
  destruct (runPolls rest c1) as [c2 ids]. reflexivity.
Qed.

(** Once a pause is tracked as applied, the polls that find it do nothing. *)
Lemma runPolls_settled (times : list float) (c : Controller) (pause : AudioAnalyzer.Pause) :
  currentlyInPause c = true ->
  lastAppliedPauseId c = Some (pauseId pause) ->
  (forall t, In t times -> AudioAnalyzer.getPauseAtTime (analyzerPauses c) t = Some pause) ->
  runPolls times c = (c, []).
Proof.
  intros Hin Hid. induction times as [|t times IH]; intros Hall; [reflexivity|].
  rewrite runPolls_cons.
  rewrite (poll_in_applied_pause t c pause Hin Hid) by (apply Hall; left; reflexivity).
  cbn [fst snd]. rewrite IH by (intros t' Ht'; apply Hall; right; exact Ht').
  reflexivity.
Qed.

(** Without an audio source, an animation or detected pauses, polls do nothing. *)
Lemma runPolls_idle (times : list float) (c : Controller) :
  currentAudio c = None \/ isAnimating c = false \/ usingAudioBasedPauses c = false ->
  runPolls times c = (c, []).
Proof.
  intros Hidle.
  assert (Hpoll : forall t, pollAudioPause t c = (c, None)).
  { intros t. unfold pollAudioPause. destruct (currentAudio c); [|reflexivity].
    destruct Hidle as [H | [H | H]]; [discriminate | rewrite H; reflexivity |].
    rewrite H, orb_true_r. reflexivity. }
  induction times as [|t times IH]; [reflexivity|].
  rewrite runPolls_cons, Hpoll. cbn [fst snd]. rewrite IH. reflexivity.
Qed.

(** After a poll that finds a pause, either the controller was idle and is
    unchanged, or the pause found is tracked as applied. *)
Lemma poll_found_tracks (t : float) (c : Controller) (pause : AudioAnalyzer.Pause) :
  AudioAnalyzer.getPauseAtTime (analyzerPauses c) t = Some pause ->
  let c1 := (pollAudioPause t c).1 in
  analyzerPauses c1 = analyzerPauses c /\
  (forall id, (pollAudioPause t c).2 = Some id -> id = pauseId pause) /\
  ((currentAudio c = None \/ isAnimating c = false \/ usingAudioBasedPauses c = false) /\
   pollAudioPause t c = (c, None) \/
   currentlyInPause c1 = true /\ lastAppliedPauseId c1 = Some (pauseId pause)).
Proof.
  intros Hp c1. unfold c1, pollAudioPause. rewrite Hp.
  destruct (currentAudio c) as [audio|];
    [|split; [reflexivity|]; split; [discriminate|]; left; split; [left|]; reflexivity].
  destruct (isAnimating c);
    [|split; [reflexivity|]; split; [discriminate|]; left; split; [right; left|]; reflexivity].
  destruct (usingAudioBasedPauses c);
    [|split; [reflexivity|]; split; [discriminate|]; left; split; [right; right|]; reflexivity].
  cbn [negb orb].
  destruct (currentlyInPause c) eqn:Hin; cbn [negb orb].
  - destruct (bool_decide (lastAppliedPauseId c = Some (pauseId pause))) eqn:E; cbn [negb fst snd].
    + apply bool_decide_eq_true_1 in E.
      split; [reflexivity|]. split; [discriminate|]. right. split; assumption.
    + fields. split.
      * unfold applyPausePhoneme.
        destruct (negb (JS.arrayIncludes pausePhonemes (AudioAnalyzer.type pause))); reflexivity.
      * split; [intros id [= <-]; reflexivity|]. right. split; reflexivity.
  - cbn [fst snd]. fields. split.
    + unfold applyPausePhoneme.
      destruct (negb (JS.arrayIncludes pausePhonemes (AudioAnalyzer.type pause))); reflexivity.
    + split; [intros id [= <-]; reflexivity|]. right. split; reflexivity.
Qed.

(** Polls that stay inside one pause.  Over any polls that all find the
    same pause interval, the pause pose is applied at most once, and by the
    first of these polls if at all: polling again while the clock stays
    inside the interval never re-applies the pause. *)
Lemma polls_within_one_pause (times : list float) (c : Controller)
    (pause : AudioAnalyzer.Pause) :
  (forall t, In t times ->
     AudioAnalyzer.getPauseAtTime (analyzerPauses c) t = Some pause) ->
  (length (runPolls times c).2 <= 1)%nat /\
  (forall id, In id (runPolls times c).2 -> id = pauseId pause) /\
  (forall t rest, times = t :: rest ->
     (runPolls times c).2 =
     match (pollAudioPause t c).2 with Some id => [id] | None => [] end).
Proof.
  intros Hall.
  assert (Hfirst : forall t rest, times = t :: rest ->
            (runPolls times c).2 =
            match (pollAudioPause t c).2 with Some id => [id] | None => [] end).
  { intros t rest ->. rewrite runPolls_cons. cbn [snd].
    assert (Ht : AudioAnalyzer.getPauseAtTime (analyzerPauses c) t = Some pause)
      by (apply Hall; left; reflexivity).
    destruct (poll_found_tracks t c pause Ht) as (Hsame & _ & [[Hidle Hpoll] | [Hin Hid]]).
    - rewrite Hpoll. cbn [fst snd]. rewrite (runPolls_idle rest c Hidle). reflexivity.
    - rewrite (runPolls_settled rest _ pause Hin Hid).
      + destruct (pollAudioPause t c).2; reflexivity.
      + intros t' Ht'. rewrite Hsame. apply Hall. right. exact Ht'. }
  destruct times as [|t rest]; [split; [simpl; lia|]; split; [intros id []|]; intros ? ? [=]|].
  rewrite (Hfirst t rest eq_refl).
  assert (Ht : AudioAnalyzer.getPauseAtTime (analyzerPauses c) t = Some pause)
    by (apply Hall; left; reflexivity).
  destruct (poll_found_tracks t c pause Ht) as (_ & Hid & _).
  destruct (pollAudioPause t c).2 as [id|] eqn:E.
  - split; [simpl; lia|]. split; [|intros t' rest' [= <- <-]; rewrite E; reflexivity].
    intros id' [<- | []]. apply Hid. reflexivity.
  - split; [simpl; lia|]. split; [intros id []|].
    intros t' rest' [= <- <-]. rewrite E. reflexivity.
Qed.

Lemma polls_within_one_pause_witness :
  let times := [1.125%float; 1.1875%float; 1.25%float] in
  (forall t, In t times ->
     AudioAnalyzer.getPauseAtTime (analyzerPauses Sample.monitoring) t = Some Sample.pause) /\
  (length (runPolls times Sample.monitoring).2 <= 1)%nat /\
  (forall id, In id (runPolls times Sample.monitoring).2 -> id = pauseId Sample.pause) /\
  (forall t rest, times = t :: rest ->
     (runPolls times Sample.monitoring).2 =
     match (pollAudioPause t Sample.monitoring).2 with Some id => [id] | None => [] end).
Proof.
  intros times.
  assert (Hall : forall t, In t times ->
            AudioAnalyzer.getPauseAtTime (analyzerPauses Sample.monitoring) t
            = Some Sample.pause).
  { intros t [<- | [<- | [<- | []]]]; vm_compute; reflexivity. }
  split; [exact Hall|].
  exact (polls_within_one_pause times Sample.monitoring Sample.pause Hall).
Defined.

(** C1. The specification has the pause pose applied at most once per
    pause id, also when the clock leaves the interval and enters it again.
    The code keeps [lastAppliedPauseId] when the clock leaves a pause, and says
    that it does so to prevent oscillation at the boundaries, but its guard
    [!this.currentlyInPause || this.lastAppliedPauseId !== pauseId] applies
    the pose whenever [currentlyInPause] is clear, and leaving the interval
    clears it: the id that was kept is never looked at.  With the single
    pause from 1 s to 1.25 s, the pause of id 1.000_PAUSE_MED is applied
    twice when the clock is read at 1.25 s, at the next number after 1.25
    and at 1.25 s again, and twice when it is read at 1.125 s, 1.5 s and
    1.125 s again.  Two polls inside the interval apply it once. *)
Theorem pause_applied_again_on_reentry :
  let c := Sample.monitoring in
  analyzerPauses c = [Sample.pause] /\
  (runPolls [1.125%float; 1.125%float] c).2 = ["1.000_PAUSE_MED"] /\
  (runPolls [1.25%float; 1.2500000000000002%float; 1.25%float] c).2
    = ["1.000_PAUSE_MED"; "1.000_PAUSE_MED"] /\
  (runPolls [1.125%float; 1.5%float; 1.125%float] c).2
    = ["1.000_PAUSE_MED"; "1.000_PAUSE_MED"] /\
  lastAppliedPauseId (runPolls [1.125%float; 1.5%float] c).1 = Some "1.000_PAUSE_MED" /\
  currentlyInPause (runPolls [1.125%float; 1.5%float] c).1 = false.
Proof. vm_compute. repeat split. Qed.

(** ** The analysis windows *)

Lemma div_up_step (m w : nat) :
  (1 <= w)%nat -> (1 <= m)%nat -> ((m + w - 1) / w = S ((m - w + w - 1) / w))%nat.
Proof.
  intros Hw Hm. destruct (Nat.le_gt_cases m w) as [Hle | Hgt].
  - replace (m - w)%nat with 0%nat by lia. simpl.
    rewrite (Nat.div_small (w - 1) w) by lia.
    symmetry. apply (Nat.div_unique (m + w - 1) w 1 (m - 1)); lia.
  - replace (m + w - 1)%nat with ((m - w + w - 1) + 1 * w)%nat by lia.
    rewrite Nat.div_add by lia. lia.
Qed.

Lemma div_up_zero (w : nat) : (1 <= w)%nat -> ((0 + w - 1) / w = 0)%nat.
Proof. intros Hw. apply Nat.div_small. lia. Qed.

Lemma startsFrom_zero (len wsize : nat) : startsFrom len wsize 0 = Spec.windowStarts len wsize.
Proof. unfold startsFrom, Spec.windowStarts. rewrite Nat.sub_0_r. reflexivity. Qed.

Lemma startsFrom_done (len wsize i : nat) :
  (1 <= wsize)%nat -> (len <= i)%nat -> startsFrom len wsize i = [].
Proof.
  intros Hw Hi. unfold startsFrom. replace (len - i)%nat with 0%nat by lia.
  rewrite div_up_zero by exact Hw. reflexivity.
Qed.

Lemma startsFrom_step (len wsize i : nat) :
  (1 <= wsize)%nat -> (i < len)%nat ->
  startsFrom len wsize i = i :: startsFrom len wsize (i + wsize).
Proof.
  intros Hw Hi. unfold startsFrom.
  rewrite (div_up_step (len - i) wsize) by lia.
  replace (len - (i + wsize))%nat with (len - i - wsize)%nat by lia.
  rewrite <- cons_seq, <- seq_shift, map_cons, map_map. f_equal; [lia|].
  apply map_ext. intros k. lia.
Qed.

Lemma forWindows_fold {A : Type} (body : nat -> A -> A) (len wsize : nat) :
  (1 <= wsize)%nat ->
  forall fuel i acc,
    (len <= i + fuel * wsize)%nat ->
    AudioAnalyzer.forWindows fuel len wsize i body acc =
    Some (fold_left (fun acc i => body i acc) (startsFrom len wsize i) acc).
Proof.
  intros Hw. induction fuel as [|fuel IH]; intros i acc Hf; simpl.
  - destruct (Nat.ltb_spec i len); [lia|]. rewrite startsFrom_done by lia. reflexivity.
  - destruct (Nat.ltb_spec i len).
    + rewrite IH by lia. rewrite (startsFrom_step len wsize i) by assumption. reflexivity.
    + rewrite startsFrom_done by lia. reflexivity.
Qed.

(** With a window size of 0 the loop makes no progress: whatever the fuel,
    it does not end on a buffer that is not empty. *)
Lemma forWindows_no_progress {A : Type} (body : nat -> A -> A) (len i : nat) :
  (i < len)%nat ->
  forall fuel acc, AudioAnalyzer.forWindows fuel len 0 i body acc = None.
Proof.
  intros Hi. induction fuel as [|fuel IH]; intros acc; simpl;
    destruct (Nat.ltb_spec i len); try lia; [reflexivity|].
  rewrite Nat.add_0_r. apply IH.
Qed.

Lemma detectPauses_no_progress (cfg : AudioAnalyzer.Config) (buffer : AudioAnalyzer.AudioBuffer) :
  AudioAnalyzer.windowSize (AudioAnalyzer.sampleRate buffer) = 0%nat ->
  AudioAnalyzer.channelData buffer <> [] ->
  AudioAnalyzer.detectPauses cfg buffer = None.
Proof.
  intros Hw Hdata. unfold AudioAnalyzer.detectPauses. rewrite Hw.
  rewrite forWindows_no_progress; [reflexivity|].
  destruct (AudioAnalyzer.channelData buffer); [congruence | simpl; lia].
Qed.

Lemma windowStarts_In (len wsize i : nat) :
  (1 <= wsize)%nat ->
  In i (Spec.windowStarts len wsize) ->
  (i < len)%nat /\ exists k, i = (k * wsize)%nat.
Proof.
  intros Hw. unfold Spec.windowStarts. rewrite in_map_iff.
  intros [k [<- Hk]]. apply in_seq in Hk. split; [|exists k; reflexivity].
  pose proof (Nat.Div0.mul_div_le (len + wsize - 1) wsize) as Hd.
  nia.
Qed.

Lemma window_length (data : list float) (wsize i : nat) :
  length (Spec.window data wsize i) = (Nat.min (i + wsize) (length data) - i)%nat.
Proof.
  unfold Spec.window, Spec.samplesOf. rewrite length_firstn, length_skipn. lia.
Qed.

Lemma windows_concat (data : list float) (wsize : nat) :
  (1 <= wsize)%nat ->
  forall fuel i,
    (length data <= i + fuel * wsize)%nat ->
    concat (map (Spec.window data wsize) (startsFrom (length data) wsize i)) = skipn i data.
Proof.
  intros Hw. induction fuel as [|fuel IH]; intros i Hf.
  - rewrite startsFrom_done by lia. simpl. symmetry. apply skipn_all2. lia.
  - destruct (Nat.le_gt_cases (length data) i) as [Hge | Hlt].
    + rewrite startsFrom_done by lia. simpl. symmetry. apply skipn_all2. lia.
    + rewrite startsFrom_step by assumption. simpl. rewrite IH by lia.
      unfold Spec.window, Spec.samplesOf.
      destruct (Nat.le_gt_cases (i + wsize) (length data)) as [Hin | Hout].
      * rewrite Nat.min_l by exact Hin.
        replace (i + wsize - i)%nat with wsize by lia.
        replace (i + wsize)%nat with (wsize + i)%nat by lia.
        rewrite <- skipn_skipn. apply firstn_skipn.
      * rewrite Nat.min_r by lia.
        rewrite (skipn_all2 (n := i + wsize)) by lia. rewrite app_nil_r.
        apply firstn_all2. rewrite length_skipn. lia.
Qed.

Lemma windowRms_rootMeanSquare (data : list float) (wsize i : nat) :
  (i <= length data)%nat ->
  AudioAnalyzer.windowRms data i (Nat.min (i + wsize) (length data)) =
  Spec.rootMeanSquare (Spec.window data wsize i).
Proof.
  intros Hi. unfold AudioAnalyzer.windowRms, Spec.rootMeanSquare.
  rewrite window_length. reflexivity.
Qed.

Lemma fold_collect {A : Type} (l acc : list A) :
  fold_left (fun visited i => visited ++ [i]) l acc = acc ++ l.
Proof.
  revert acc. induction l as [|i l IH]; intros acc; simpl; [rewrite app_nil_r; reflexivity|].
  rewrite IH, <- app_assoc. reflexivity.
Qed.

(** C4, as the code has it.  With a window size of at least one sample, the
    loop of [detectPauses] visits the windows that start at the multiples of
    [floor(sampleRate * 0.01)]; these windows follow one another without
    overlap and make up the whole buffer; each has [floor(sampleRate * 0.01)]
    samples, except that the last one may have fewer (but at least one); and
    a window is silent exactly when its root-mean-square amplitude is
    strictly below the silence threshold. *)
Theorem detectPauses_windows (cfg : AudioAnalyzer.Config) (buffer : AudioAnalyzer.AudioBuffer) :
  let data := AudioAnalyzer.channelData buffer in
  let wsize := AudioAnalyzer.windowSize (AudioAnalyzer.sampleRate buffer) in
  (1 <= wsize)%nat ->
  wsize = Z.to_nat (JS.floorZ (AudioAnalyzer.sampleRate buffer * 0.01)) /\
  AudioAnalyzer.forWindows (length data) (length data) wsize 0
    (fun i visited => visited ++ [i]) [] = Some (Spec.windowStarts (length data) wsize) /\
  concat (map (Spec.window data wsize) (Spec.windowStarts (length data) wsize)) = data /\
  (forall i, In i (Spec.windowStarts (length data) wsize) ->
     let n := length (Spec.window data wsize i) in
     (1 <= n <= wsize)%nat /\ ((i + wsize <= length data)%nat -> n = wsize)) /\
  (forall i, In i (Spec.windowStarts (length data) wsize) ->
     AudioAnalyzer.isSilentWindow cfg buffer wsize i =
     PrimFloat.ltb (Spec.rootMeanSquare (Spec.window data wsize i))
                   (AudioAnalyzer.silenceThreshold cfg)).
Proof.
  intros data wsize Hw. split; [reflexivity|]. split; [|split; [|split]].
  - rewrite (forWindows_fold _ (length data) wsize Hw) by nia.
    rewrite startsFrom_zero, fold_collect. reflexivity.
  - rewrite <- startsFrom_zero. apply (windows_concat data wsize Hw (length data) 0). nia.
  - intros i Hi n. apply (windowStarts_In _ _ _ Hw) in Hi as [Hi _].
    unfold n. rewrite window_length. lia.
  - intros i Hi. apply (windowStarts_In _ _ _ Hw) in Hi as [Hi _].
    unfold AudioAnalyzer.isSilentWindow. fold data.
    rewrite windowRms_rootMeanSquare by lia. reflexivity.
Qed.

Lemma detectPauses_windows_witness :
  let buffer := {| AudioAnalyzer.channelData := repeat 0.25%float 1000;
                   AudioAnalyzer.sampleRate := 44100 |} in
  let data := AudioAnalyzer.channelData buffer in
  let wsize := AudioAnalyzer.windowSize (AudioAnalyzer.sampleRate buffer) in
  (1 <= wsize)%nat /\
  (wsize = Z.to_nat (JS.floorZ (AudioAnalyzer.sampleRate buffer * 0.01)) /\
   AudioAnalyzer.forWindows (length data) (length data) wsize 0
     (fun i visited => visited ++ [i]) [] = Some (Spec.windowStarts (length data) wsize) /\
   concat (map (Spec.window data wsize) (Spec.windowStarts (length data) wsize)) = data /\
   (forall i, In i (Spec.windowStarts (length data) wsize) ->
      let n := length (Spec.window data wsize i) in
      (1 <= n <= wsize)%nat /\ ((i + wsize <= length data)%nat -> n = wsize)) /\
   (forall i, In i (Spec.windowStarts (length data) wsize) ->
      AudioAnalyzer.isSilentWindow AudioAnalyzer.defaultConfig buffer wsize i =
      PrimFloat.ltb (Spec.rootMeanSquare (Spec.window data wsize i))
                    (AudioAnalyzer.silenceThreshold AudioAnalyzer.defaultConfig))).
Proof.
  intros buffer data wsize.
  assert (Hw : (1 <= wsize)%nat) by (vm_compute; lia).
  split; [exact Hw|].
  exact (detectPauses_windows AudioAnalyzer.defaultConfig buffer Hw).
Defined.

(** C4, as the specification words it, fails.  The window size is the floor,
    not the rounding, of [sampleRate * 0.01]: 220 and not 221 samples at
    22050 Hz (220.5, which [Math.round] takes to 221), 80 and not 81 at
    8075 Hz (80.75, nearer to 81 under any rule); and at 44100 Hz a buffer of
    1000 samples is cut into windows of 441, 441 and 118 samples. *)
Lemma window_size_is_floor_not_round :
  AudioAnalyzer.windowSize 22050 = 220%nat /\ Spec.roundedWindowSize 22050 = 221%nat /\
  AudioAnalyzer.windowSize 8075 = 80%nat /\ Spec.roundedWindowSize 8075 = 81%nat /\
  map (fun i => length (Spec.window (repeat 0.25%float 1000) (AudioAnalyzer.windowSize 44100) i))
      (Spec.windowStarts 1000 (AudioAnalyzer.windowSize 44100)) = [441; 441; 118]%nat.
Proof. vm_compute. repeat split. Qed.

(** ** Silent runs and recorded pauses *)

Lemma scanWindow_flags (cfg : AudioAnalyzer.Config) (buffer : AudioAnalyzer.AudioBuffer)
    (wsize : nat) (starts : list nat) (st : AudioAnalyzer.Scan) :
  fold_left (fun st i => AudioAnalyzer.scanWindow cfg buffer wsize i st) starts st =
  fold_left (scanFlag cfg (AudioAnalyzer.sampleRate buffer))
    (map (fun i => (i, AudioAnalyzer.isSilentWindow cfg buffer wsize i)) starts) st.
Proof.
  revert st. induction starts as [|i starts IH]; intros st; simpl; [reflexivity|].
  rewrite IH. reflexivity.
Qed.

Lemma closePause_recordedSpan (cfg : AudioAnalyzer.Config) (pauseStart timeSeconds : float)
    (pauses : list AudioAnalyzer.Pause) :
  AudioAnalyzer.closePause cfg pauseStart timeSeconds pauses =
  pauses ++ match recordedSpan cfg pauseStart timeSeconds with
            | Some p => [p]
            | None => []
            end.
Proof.
  unfold AudioAnalyzer.closePause, recordedSpan, JS.geb, computedMs.
  destruct (PrimFloat.leb _ _); [reflexivity | rewrite app_nil_r; reflexivity].
Qed.

Lemma runEnd_silent (i : nat) (rest : list (nat * bool)) (len : nat) :
  Spec.runEnd ((i, true) :: rest) len = Spec.runEnd rest len.
Proof. reflexivity. Qed.

Lemma runEnd_loud (i : nat) (rest : list (nat * bool)) (len : nat) :
  Spec.runEnd ((i, false) :: rest) len = i.
Proof. reflexivity. Qed.

(** The scan from any of its states: the pause that is open, if any, is
    closed at the end of its run, and the runs that start later follow. *)
Lemma scan_runs (cfg : AudioAnalyzer.Config) (sampleRate : float) (len : nat)
    (flags : list (nat * bool)) (st : AudioAnalyzer.Scan) :
  finishScan cfg sampleRate len (fold_left (scanFlag cfg sampleRate) flags st) =
  (if AudioAnalyzer.inPause st
   then AudioAnalyzer.closePause cfg (AudioAnalyzer.pauseStart st)
          (Spec.seconds sampleRate (Spec.runEnd flags len)) (AudioAnalyzer.pauses st)
   else AudioAnalyzer.pauses st)
  ++ omap (recorded cfg sampleRate) (Spec.runsAfter (AudioAnalyzer.inPause st) flags len).
Proof.
  revert st. induction flags as [|[i silent] flags IH]; intros st.
  - simpl. rewrite app_nil_r. reflexivity.
  - cbn [fold_left]. rewrite IH. unfold scanFlag. cbn [fst snd].
    destruct silent, (AudioAnalyzer.inPause st) eqn:Hin; cbn [andb negb AudioAnalyzer.inPause
      AudioAnalyzer.pauseStart AudioAnalyzer.pauses Spec.runsAfter app]; rewrite ?Hin.
    + rewrite runEnd_silent. reflexivity.
    + cbn [omap list_omap]. rewrite closePause_recordedSpan.
      change (recorded cfg sampleRate (i, Spec.runEnd flags len))
        with (recordedSpan cfg (Spec.seconds sampleRate i)
                (Spec.seconds sampleRate (Spec.runEnd flags len))).
      destruct (recordedSpan _ _ _); rewrite <- app_assoc; reflexivity.
    + rewrite runEnd_loud. reflexivity.
    + reflexivity.
Qed.

Lemma detectPauses_fold (cfg : AudioAnalyzer.Config) (buffer : AudioAnalyzer.AudioBuffer) :
  let len := length (AudioAnalyzer.channelData buffer) in
  let wsize := AudioAnalyzer.windowSize (AudioAnalyzer.sampleRate buffer) in
  (1 <= wsize)%nat ->
  AudioAnalyzer.detectPauses cfg buffer =
  Some (finishScan cfg (AudioAnalyzer.sampleRate buffer) len
          (fold_left (scanFlag cfg (AudioAnalyzer.sampleRate buffer))
             (map (fun i => (i, AudioAnalyzer.isSilentWindow cfg buffer wsize i))
                  (Spec.windowStarts len wsize))
             {| AudioAnalyzer.inPause := false; AudioAnalyzer.pauseStart := 0;
                AudioAnalyzer.pauses := [] |})).
Proof.
  intros len wsize Hw. unfold AudioAnalyzer.detectPauses. fold len. fold wsize.
  rewrite (forWindows_fold _ len wsize Hw) by nia.
  rewrite startsFrom_zero, scanWindow_flags. reflexivity.
Qed.

Lemma runEnd_split (rest : list (nat * bool)) (len : nat) :
  exists run after,
    rest = run ++ after /\ Forall (fun f : nat * bool => f.2 = true) run /\
    (after = [] /\ Spec.runEnd rest len = len \/
     exists after', after = (Spec.runEnd rest len, false) :: after').
Proof.
  induction rest as [|[i silent] rest IH].
  - exists [], []. split; [reflexivity|]. split; [constructor|]. left. split; reflexivity.
  - destruct silent.
    + destruct IH as (run & after & -> & Hrun & Hafter).
      exists ((i, true) :: run), after. split; [reflexivity|].
      split; [constructor; [reflexivity | exact Hrun]|].
      rewrite runEnd_silent. exact Hafter.
    + exists [], ((i, false) :: rest). split; [reflexivity|]. split; [constructor|].
      right. exists rest. reflexivity.
Qed.

Lemma runEnd_of_split (run after : list (nat * bool)) (len b : nat) :
  Forall (fun f : nat * bool => f.2 = true) run ->
  (after = [] /\ b = len \/ exists after', after = (b, false) :: after') ->
  Spec.runEnd (run ++ after) len = b.
Proof.
  intros Hrun Hafter. induction Hrun as [|[i silent] run Hs Hrun IH]; simpl.
  - destruct Hafter as [[-> ->] | [after' ->]]; reflexivity.
  - simpl in Hs. subst silent. rewrite runEnd_silent. exact IH.
Qed.

Lemma runsAfter_maximal (flags : list (nat * bool)) (len a b : nat) (previousSilent : bool) :
  In (a, b) (Spec.runsAfter previousSilent flags len) <->
  exists before run after : list (nat * bool),
    flags = before ++ run ++ after /\
    (exists rest, run = (a, true) :: rest) /\
    Forall (fun f : nat * bool => f.2 = true) run /\
    (before = [] /\ previousSilent = false \/
     exists before' j, before = before' ++ [(j, false)]) /\
    (after = [] /\ b = len \/ exists after', after = (b, false) :: after').
Proof.
  revert previousSilent. induction flags as [|[i silent] flags IH]; intros previousSilent.
  - simpl. split; [intros []|].
    intros (before & run & after & Heq & [rest ->] & _). destruct before; discriminate Heq.
  - cbn [Spec.runsAfter]. rewrite in_app_iff. split.
    + intros [Hhere | Hlater].
      * destruct silent, previousSilent; simpl in Hhere; try contradiction.
        destruct Hhere as [[= <- <-]|[]].
        destruct (runEnd_split flags len) as (run & after & Heq & Hrun & Hafter).
        exists [], ((i, true) :: run), after.
        split; [simpl; f_equal; exact Heq|].
        split; [exists run; reflexivity|].
        split; [constructor; [reflexivity | exact Hrun]|].
        split; [left; split; reflexivity | exact Hafter].
      * apply IH in Hlater as (before & run & after & -> & Hstart & Hrun & Hbefore & Hafter).
        exists ((i, silent) :: before), run, after. split; [reflexivity|].
        split; [exact Hstart|]. split; [exact Hrun|]. split; [|exact Hafter].
        right. destruct Hbefore as [[-> ->] | (before' & j & ->)].
        -- exists [], i. reflexivity.
        -- exists ((i, silent) :: before'), j. reflexivity.
    + intros (before & run & after & Heq & [rest ->] & Hrun & Hbefore & Hafter).
      destruct Hbefore as [[-> ->] | (before' & j & ->)].
      * simpl in Heq. injection Heq as -> -> ->. left. simpl. left.
        f_equal. apply runEnd_of_split; [|exact Hafter].
        inversion Hrun; assumption.
      * right. apply IH. destruct before' as [|f before'].
        -- simpl in Heq. injection Heq as -> -> ->.
           exists [], ((a, true) :: rest), after. split; [reflexivity|].
           split; [exists rest; reflexivity|]. split; [exact Hrun|].
           split; [left; split; reflexivity | exact Hafter].
        -- simpl in Heq. injection Heq as _ ->.
           exists (before' ++ [(j, false)]), ((a, true) :: rest), after.
           split; [reflexivity|].
           split; [exists rest; reflexivity|]. split; [exact Hrun|].
           split; [right; exists before', j; reflexivity | exact Hafter].
Qed.

Lemma silentRuns_maximal (flags : list (nat * bool)) (len a b : nat) :
  In (a, b) (Spec.silentRuns flags len) <-> Spec.MaximalSilentRun flags len a b.
Proof.
  unfold Spec.silentRuns, Spec.MaximalSilentRun. rewrite runsAfter_maximal.
  split; intros (before & run & after & H1 & H2 & H3 & H4 & H5);
    exists before, run, after; repeat (split; [assumption|]); split; try assumption.
  - destruct H4 as [[H4 _] | H4]; [left | right]; assumption.
  - destruct H4 as [H4 | H4]; [left; split; [assumption | reflexivity] | right; assumption].
Qed.

(** What [detectPauses] returns, in terms of the durations it computes.
    With a window size of at least one sample it returns, in order, the
    maximal silent runs of the windows whose computed duration,
    [(end - start) * 1000] in binary64, is [minPauseDuration] at least, and
    no other interval: a run from its first silent window to the next
    window that is not silent, or to the end of the buffer when the buffer
    ends in silence.  Each recorded interval is classified by that computed
    duration. *)
Lemma detectPauses_records_long_silent_runs
    (cfg : AudioAnalyzer.Config) (buffer : AudioAnalyzer.AudioBuffer) :
  let len := length (AudioAnalyzer.channelData buffer) in
  let rate := AudioAnalyzer.sampleRate buffer in
  let wsize := AudioAnalyzer.windowSize rate in
  let flags := map (fun i => (i, AudioAnalyzer.isSilentWindow cfg buffer wsize i))
                   (Spec.windowStarts len wsize) in
  let runs := Spec.silentRuns flags len in
  (1 <= wsize)%nat ->
  exists pauses,
    AudioAnalyzer.detectPauses cfg buffer = Some pauses /\
    pauses = omap (recorded cfg rate) runs /\
    (forall a b, In (a, b) runs <-> Spec.MaximalSilentRun flags len a b) /\
    (forall run, In run runs ->
       let start := Spec.seconds rate run.1 in
       let end_ := Spec.seconds rate run.2 in
       (exists p, recorded cfg rate run = Some p) <->
       PrimFloat.leb (AudioAnalyzer.minPauseDuration cfg) (computedMs start end_) = true) /\
    (forall p, In p pauses <->
       exists run, In run runs /\
         PrimFloat.leb (AudioAnalyzer.minPauseDuration cfg)
           (computedMs (Spec.seconds rate run.1) (Spec.seconds rate run.2)) = true /\
         p = {| AudioAnalyzer.start := Spec.seconds rate run.1;
                AudioAnalyzer.end_ := Spec.seconds rate run.2;
                AudioAnalyzer.duration :=
                  computedMs (Spec.seconds rate run.1) (Spec.seconds rate run.2);
                AudioAnalyzer.type :=
                  computedClass cfg
                    (computedMs (Spec.seconds rate run.1) (Spec.seconds rate run.2)) |}) /\
    (forall p, In p pauses ->
       AudioAnalyzer.type p =
         if PrimFloat.ltb (AudioAnalyzer.duration p) (AudioAnalyzer.shortPauseThreshold cfg)
         then "PAUSE_SHORT"
         else if PrimFloat.ltb (AudioAnalyzer.duration p) (AudioAnalyzer.mediumPauseThreshold cfg)
              then "PAUSE_MED" else "PAUSE_LONG").
Proof.
  intros len rate wsize flags runs Hw.
  assert (Hrec : forall run p,
            recorded cfg rate run = Some p <->
            PrimFloat.leb (AudioAnalyzer.minPauseDuration cfg)
              (computedMs (Spec.seconds rate run.1) (Spec.seconds rate run.2)) = true /\
            p = {| AudioAnalyzer.start := Spec.seconds rate run.1;
                   AudioAnalyzer.end_ := Spec.seconds rate run.2;
                   AudioAnalyzer.duration :=
                     computedMs (Spec.seconds rate run.1) (Spec.seconds rate run.2);
                   AudioAnalyzer.type :=
                     computedClass cfg
                       (computedMs (Spec.seconds rate run.1) (Spec.seconds rate run.2)) |}).
  { intros run p. unfold recorded, recordedSpan.
    destruct (PrimFloat.leb _ _); split.
    - intros [= <-]. split; reflexivity.
    - intros [_ ->]. reflexivity.
    - discriminate.
    - intros [H _]. discriminate H. }
  exists (omap (recorded cfg rate) runs).
  split; [|split; [reflexivity|split; [|split; [|split]]]].
  - rewrite (detectPauses_fold cfg buffer Hw). fold len. fold rate. fold wsize. fold flags.
    rewrite scan_runs. reflexivity.
  - intros a b. apply silentRuns_maximal.
  - intros run _ start end_. split.
    + intros [p Hp]. apply Hrec in Hp as [Hp _]. exact Hp.
    + intros Hd. eexists. apply Hrec. split; [exact Hd | reflexivity].
  - intros p. rewrite <- list_elem_of_In, list_elem_of_omap. split.
    + intros [run [Hin Hp]]. exists run. split; [apply list_elem_of_In; exact Hin|].
      apply Hrec. exact Hp.
    + intros [run [Hin Hp]]. exists run. split; [apply list_elem_of_In; exact Hin|].
      apply Hrec. exact Hp.
  - intros p. rewrite <- list_elem_of_In, list_elem_of_omap.
    intros [run [_ Hp]]. apply Hrec in Hp as [_ ->]. reflexivity.
Qed.

Lemma detectPauses_records_long_silent_runs_witness :
  let buffer := Sample.recording 200 in
  let wsize := AudioAnalyzer.windowSize 1000 in
  let flags := map (fun i => (i, AudioAnalyzer.isSilentWindow AudioAnalyzer.defaultConfig
                                   buffer wsize i))
                   (Spec.windowStarts 350 wsize) in
  (1 <= wsize)%nat /\
  exists pauses,
    AudioAnalyzer.detectPauses AudioAnalyzer.defaultConfig buffer = Some pauses /\
    pauses = omap (recorded AudioAnalyzer.defaultConfig 1000) (Spec.silentRuns flags 350) /\
    (forall a b, In (a, b) (Spec.silentRuns flags 350) <->
                 Spec.MaximalSilentRun flags 350 a b).
Proof.
  intros buffer wsize flags.
  assert (Hw : (1 <= wsize)%nat) by (vm_compute; lia).
  split; [exact Hw|].
  destruct (detectPauses_records_long_silent_runs AudioAnalyzer.defaultConfig buffer Hw)
    as (pauses & H1 & H2 & H3 & _).
  exists pauses. split; [exact H1|]. split; [exact H2 | exact H3].
Defined.

(** The sample recording with 200 ms of silence has one Short pause from
    0.1 s to 0.3 s; with 100 ms of silence it has none; with 400 ms the
    pause is Medium. *)
Example detectPauses_example :
  AudioAnalyzer.detectPauses AudioAnalyzer.defaultConfig (Sample.recording 200)
  = Some [ {| AudioAnalyzer.start := 0.1; AudioAnalyzer.end_ := 0.3;
              AudioAnalyzer.duration := ((0.3 - 0.1) * 1000)%float;
              AudioAnalyzer.type := "PAUSE_SHORT" |} ] /\
  AudioAnalyzer.detectPauses AudioAnalyzer.defaultConfig (Sample.recording 100) = Some [] /\
  AudioAnalyzer.detectPauses AudioAnalyzer.defaultConfig (Sample.recording 400)
  = Some [ {| AudioAnalyzer.start := 0.1; AudioAnalyzer.end_ := 0.5;
              AudioAnalyzer.duration := 400;
              AudioAnalyzer.type := "PAUSE_MED" |} ].
Proof. vm_compute. repeat split. Qed.

(** C3. The specification has a silent run recorded exactly when it lasts
    [minPauseDuration] (150 ms) at least, and has it Short below 250 ms,
    Medium below 500 ms and Long otherwise.  The code compares the rounded
    binary64 number [(end - start) * 1000] instead of the duration, and
    misses the boundaries.  At 16000 Hz, after 200 ms of speech, a silent
    run of exactly 150 ms is computed as 149.99999999999997 and dropped;
    after 100 ms of speech a run of exactly 250 ms is computed as
    249.99999999999997 and recorded as Short; after 200 ms of speech a run
    of exactly 500 ms is computed as 499.99999999999994 and recorded as
    Medium.  The same run of 150 ms at the start of the buffer is
    recorded. *)
Theorem detectPauses_misses_exact_boundaries :
  (silentRunsOf AudioAnalyzer.defaultConfig (Sample.take 20 15)
   = [(20 * 160, 35 * 160)%nat] /\
   QArith_base.Qeq (Spec.durationMs 16000 (20 * 160, 35 * 160)%nat)
                   (QArith_base.inject_Z 150) /\
   Spec.longEnough AudioAnalyzer.defaultConfig
     (Spec.durationMs 16000 (20 * 160, 35 * 160)%nat) = true /\
   AudioAnalyzer.detectPauses AudioAnalyzer.defaultConfig (Sample.take 20 15) = Some []) /\
  (silentRunsOf AudioAnalyzer.defaultConfig (Sample.take 10 25)
   = [(10 * 160, 35 * 160)%nat] /\
   QArith_base.Qeq (Spec.durationMs 16000 (10 * 160, 35 * 160)%nat)
                   (QArith_base.inject_Z 250) /\
   Spec.classOf AudioAnalyzer.defaultConfig
     (Spec.durationMs 16000 (10 * 160, 35 * 160)%nat) = "PAUSE_MED" /\
   detectedTypes AudioAnalyzer.defaultConfig (Sample.take 10 25) = Some ["PAUSE_SHORT"]) /\
  (silentRunsOf AudioAnalyzer.defaultConfig (Sample.take 20 50)
   = [(20 * 160, 70 * 160)%nat] /\
   QArith_base.Qeq (Spec.durationMs 16000 (20 * 160, 70 * 160)%nat)
                   (QArith_base.inject_Z 500) /\
   Spec.classOf AudioAnalyzer.defaultConfig
     (Spec.durationMs 16000 (20 * 160, 70 * 160)%nat) = "PAUSE_LONG" /\
   detectedTypes AudioAnalyzer.defaultConfig (Sample.take 20 50) = Some ["PAUSE_MED"]) /\
  (silentRunsOf AudioAnalyzer.defaultConfig (Sample.take 0 15) = [(0, 15 * 160)%nat] /\
   detectedTypes AudioAnalyzer.defaultConfig (Sample.take 0 15) = Some ["PAUSE_SHORT"]).
Proof.
  repeat match goal with |- _ /\ _ => split end; vm_compute; reflexivity.
Qed.

(** * Further properties of the sources *)

(** ** The controller after its constructor *)

Lemma initialize_loop_lookup (l : list (string * Control)) (c : Controller) (n : string) :
  let c' := fold_left
              (fun (c : Controller) (entry : string * Control) =>
                 let (name, control) := entry in
                 if bound control && negb (isProtected name) then
                   set_sink (<[name := 0%float]> (sink c))
                     (set_targetBlendShapes (<[name := 0%float]> (targetBlendShapes c))
                        (set_currentBlendShapes (<[name := 0%float]> (currentBlendShapes c)) c))
                 else c) l c in
  let written :=
    existsb (fun entry : string * Control =>
               String.eqb entry.1 n && bound entry.2 && negb (isProtected entry.1)) l in
  targetBlendShapes c' !! n = (if written then Some 0%float else targetBlendShapes c !! n) /\
  currentBlendShapes c' !! n = (if written then Some 0%float else currentBlendShapes c !! n) /\
  sink c' !! n = (if written then Some 0%float else sink c !! n).
Proof.
  revert c. induction l as [|[k control] l IH]; intros c; [repeat split|].
  cbn [fold_left existsb fst snd].
  match goal with |- context [fold_left _ l ?x] => specialize (IH x) end.
  cbv zeta in IH. destruct IH as (It & Ic & Is). rewrite It, Ic, Is. clear It Ic Is.
  destruct (existsb _ l) eqn:El; [rewrite !orb_true_r; repeat split|].
  rewrite !orb_false_r.
  destruct (bound control && negb (isProtected k)) eqn:Ek.
  - apply andb_true_iff in Ek as [Eb Ep]. rewrite Eb, Ep, !andb_true_r. fields.
    destruct (String.eqb_spec k n) as [->|Hne].
    + rewrite !lookup_insert_eq. repeat split.
    + rewrite !lookup_insert_ne by exact Hne. repeat split.
  - replace (String.eqb k n && bound control && negb (isProtected k)) with false;
      [repeat split|].
    rewrite <- andb_assoc, Ek, andb_false_r. reflexivity.
Qed.

Lemma written_by_initialize (K : gmap string Control) (n : string) :
  existsb (fun entry : string * Control =>
             String.eqb entry.1 n && bound entry.2 && negb (isProtected entry.1))
          (entries K) =
  match K !! n with
  | Some control => bound control && negb (isProtected n)
  | None => false
  end.
Proof.
  destruct (K !! n) as [control|] eqn:Hc.
  - destruct (bound control && negb (isProtected n)) eqn:Eb.
    + apply existsb_exists. exists (n, control). split; [apply entries_In; exact Hc|].
      cbn [fst snd]. rewrite String.eqb_refl, <- andb_assoc, Eb. reflexivity.
    + apply not_true_is_false. intros Hex. apply existsb_exists in Hex as [[k ctl] [Hin Hk]].
      cbn [fst snd] in Hk. apply andb_true_iff in Hk as [Hk Hp].
      apply andb_true_iff in Hk as [Hk Hb]. apply String.eqb_eq in Hk. subst k.
      apply entries_In in Hin. rewrite Hc in Hin. injection Hin as <-.
      rewrite Hb, Hp in Eb. discriminate.
  - apply not_true_is_false. intros Hex. apply existsb_exists in Hex as [[k ctl] [Hin Hk]].
    cbn [fst snd] in Hk. apply andb_true_iff in Hk as [Hk _].
    apply andb_true_iff in Hk as [Hk _]. apply String.eqb_eq in Hk. subst k.
    apply entries_In in Hin. congruence.
Qed.

Lemma initialize_loop_controls (l : list (string * Control)) (c : Controller) :
  blendShapeControls
    (fold_left
       (fun (c : Controller) (entry : string * Control) =>
          let (name, control) := entry in
          if bound control && negb (isProtected name) then
            set_sink (<[name := 0%float]> (sink c))
              (set_targetBlendShapes (<[name := 0%float]> (targetBlendShapes c))
                 (set_currentBlendShapes (<[name := 0%float]> (currentBlendShapes c)) c))
          else c) l c) = blendShapeControls c.
Proof.
  revert c. induction l as [|[k control] l IH]; intros c; [reflexivity|].
  cbn [fold_left]. rewrite IH. destruct (bound control && negb (isProtected k)); reflexivity.
Qed.

(** X1. The state the constructor leaves: a channel has weight 0 in the
    target map, in the current map and in the sink when its control has a
    mesh and a numeric index and its name is not protected; any other name
    is in none of the three. *)
Theorem create_initial_weights (controls : gmap string Control) (n : string) :
  let zeroed :=
    match controls !! n with
    | Some control => bound control && negb (isProtected n)
    | None => false
    end in
  targetBlendShapes (create controls) !! n = (if zeroed then Some 0%float else None) /\
  currentBlendShapes (create controls) !! n = (if zeroed then Some 0%float else None) /\
  sink (create controls) !! n = (if zeroed then Some 0%float else None).
Proof.
  intros zeroed. unfold create, initializeBlendShapes.
  pose proof (initialize_loop_lookup (entries (blendShapeControls (fresh controls)))
                (fresh controls) n) as H.
  cbv zeta in H. destruct H as (Ht & Hc & Hs). rewrite Ht, Hc, Hs. clear Ht Hc Hs.
  cbn [blendShapeControls fresh]. rewrite written_by_initialize. fold zeroed.
  destruct zeroed; repeat split.
Qed.

(** ** Applying a phoneme *)

Lemma applyWrites_app (w1 w2 : list (string * float)) (t : gmap string float) :
  applyWrites (w1 ++ w2) t = applyWrites w2 (applyWrites w1 t).
Proof. unfold applyWrites. apply fold_left_app. Qed.

Lemma guarded_loop_writes {A : Type} (g : A -> bool) (k : A -> string) (v : A -> float)
    (l : list A) (t : gmap string float) :
  fold_left (fun (t : gmap string float) (a : A) => if g a then <[k a := v a]> t else t) l t =
  applyWrites (map (fun a => (k a, v a)) (List.filter g l)) t.
Proof.
  revert t. induction l as [|a l IH]; intros t; [reflexivity|].
  cbn [fold_left List.filter]. rewrite IH. destruct (g a); reflexivity.
Qed.

Lemma loop_writes {A : Type} (k : A -> string) (v : A -> float)
    (l : list A) (t : gmap string float) :
  fold_left (fun (t : gmap string float) (a : A) => <[k a := v a]> t) l t =
  applyWrites (map (fun a => (k a, v a)) l) t.
Proof.
  revert t. induction l as [|a l IH]; intros t; [reflexivity|].
  cbn [fold_left map]. rewrite IH. reflexivity.
Qed.

Lemma applyWrites_union (writes : list (string * float)) (t : gmap string float) :
  applyWrites writes t = list_to_map (rev writes) ∪ t.
Proof.
  revert t. induction writes as [|w writes IH]; intros t.
  - simpl. unfold applyWrites. simpl. symmetry. apply (left_id_L ∅ (∪)).
  - unfold applyWrites in *. cbn [fold_left rev]. rewrite IH.
    rewrite list_to_map_app. cbn [list_to_map foldr].
    rewrite <- (assoc_L (∪)). f_equal.
    rewrite <- insert_union_l, (left_id_L ∅ (∪)). reflexivity.
Qed.

Lemma applyPhoneme_writes (phoneme : string) (c : Controller) :
  applyPhoneme phoneme c =
  set_targetBlendShapes
    (applyWrites (phonemeWrites (blendShapeControls c) phoneme) (targetBlendShapes c)) c.
Proof.
  unfold applyPhoneme, phonemeWrites, zeroTargets, setJaw. rewrite throws_head.
  destruct (String.eqb phoneme "PAUSE_SHORT" || String.eqb phoneme "PAUSE_MED"
            || String.eqb phoneme "PAUSE_LONG"); [|destruct (JS.inherited phoneme)].
  - f_equal. rewrite applyWrites_app.
    rewrite (guarded_loop_writes (fun n => negb (isProtected n)) (fun n => n) (fun _ => 0%float)).
    assert (E : (if String.eqb phoneme "PAUSE_SHORT" then 0.0%float
                 else if String.eqb phoneme "PAUSE_MED" then 0.0%float
                      else if String.eqb phoneme "PAUSE_LONG" then 0.00%float else 0%float)
                = 0%float)
      by (destruct (String.eqb phoneme "PAUSE_SHORT"), (String.eqb phoneme "PAUSE_MED"),
            (String.eqb phoneme "PAUSE_LONG"); reflexivity).
    rewrite E. rewrite (loop_writes name (fun _ => 0%float)). reflexivity.
  - destruct c; reflexivity.
  - f_equal. rewrite !applyWrites_app.
    rewrite (guarded_loop_writes (fun n => negb (isProtected n)) (fun n => n) (fun _ => 0%float)).
    rewrite (guarded_loop_writes
               (fun m => writable (blendShapeControls c) (BlendShapeMapper.name m))
               BlendShapeMapper.name BlendShapeMapper.weight).
    destruct (JS.arrayIncludes vowelPhonemes phoneme); [|reflexivity].
    rewrite (loop_writes name (fun _ => 0.5%float)). reflexivity.
Qed.

Lemma applyWrites_snoc (writes : list (string * float)) (w : string * float)
    (t : gmap string float) :
  applyWrites (writes ++ [w]) t = <[w.1 := w.2]> (applyWrites writes t).
Proof. rewrite applyWrites_app. reflexivity. Qed.

Lemma applyWrites_miss (writes : list (string * float)) (t : gmap string float) (n : string) :
  ~ In n (map fst writes) -> applyWrites writes t !! n = t !! n.
Proof.
  revert t. induction writes as [|w writes IH]; intros t Hn; [reflexivity|].
  change (applyWrites (w :: writes) t) with (applyWrites writes (<[w.1 := w.2]> t)).
  rewrite IH by (intros H; apply Hn; right; exact H).
  apply lookup_insert_ne. intros E. apply Hn. left. exact E.
Qed.

Lemma applyWrites_const (writes : list (string * float)) (v : float) (t : gmap string float)
    (n : string) :
  Forall (fun w : string * float => w.2 = v) writes -> In n (map fst writes) ->
  applyWrites writes t !! n = Some v.
Proof.
  induction writes as [|w writes IH] using rev_ind; intros Hv Hn; [destruct Hn|].
  rewrite applyWrites_snoc. apply Forall_app in Hv as [Hv Hw].
  apply Forall_inv in Hw. rewrite Hw.
  destruct (String.eqb_spec w.1 n) as [->|Hne]; [apply lookup_insert_eq|].
  rewrite lookup_insert_ne by exact Hne. apply IH; [exact Hv|].
  rewrite map_app in Hn. apply in_app_or in Hn as [Hn|[Hn|[]]]; [exact Hn|contradiction].
Qed.

Lemma applyWrites_idempotent (writes : list (string * float)) (t : gmap string float) :
  applyWrites writes (applyWrites writes t) = applyWrites writes t.
Proof.
  rewrite !applyWrites_union, (assoc_L (∪)), (idemp_L (∪)). reflexivity.
Qed.

(** X2. Applying the same phoneme twice in a row gives the state of
    applying it once. *)
Theorem applyPhoneme_idempotent (phoneme : string) (c : Controller) :
  applyPhoneme phoneme (applyPhoneme phoneme c) = applyPhoneme phoneme c.
Proof.
  rewrite (applyPhoneme_writes phoneme (applyPhoneme phoneme c)).
  rewrite (applyPhoneme_writes phoneme c). fields.
  rewrite applyWrites_idempotent. reflexivity.
Qed.

Lemma fold_left_invariant {A B : Type} (P : A -> Prop) (f : A -> B -> A) (l : list B) (a : A) :
  P a -> (forall a b, P a -> P (f a b)) -> P (fold_left f l a).
Proof.
  intros Ha Hf. revert a Ha. induction l as [|b l IH]; intros a Ha; [exact Ha|].
  apply IH, Hf, Ha.
Qed.

Lemma mapPhonemeToBlendShapes_weight (availableBlendShapes : list string)
    (standardPhoneme modelPart : string) :
  Forall (fun m => BlendShapeMapper.weight m = 0.7%float)
         (BlendShapeMapper.mapPhonemeToBlendShapes availableBlendShapes standardPhoneme modelPart).
Proof.
  unfold BlendShapeMapper.mapPhonemeToBlendShapes.
  apply fold_left_invariant; [constructor|].
  intros ms prefix Hms. apply fold_left_invariant; [apply fold_left_invariant; [exact Hms|]|].
  - intros ms' variant H. cbv zeta.
    destruct (JS.arrayIncludes _ _); [|exact H].
    apply Forall_app. split; [exact H|repeat constructor].
  - intros ms' syncedShape H. cbv zeta.
    destruct (JS.arrayIncludes _ _ && _); [|exact H].
    apply Forall_app. split; [exact H|repeat constructor].
Qed.

Lemma mappedShapes_weight (controls : gmap string Control) (phoneme : string) :
  Forall (fun m => BlendShapeMapper.weight m = 0.7%float) (mappedShapes controls phoneme).
Proof.
  unfold mappedShapes. apply List.Forall_forall. intros m Hm.
  apply in_flat_map in Hm as (part & _ & Hm).
  pose proof (mapPhonemeToBlendShapes_weight
                (List.filter (fun name => negb (isProtected name)) (keys controls))
                phoneme part) as H.
  rewrite List.Forall_forall in H. apply H, Hm.
Qed.

Lemma existsb_name_In {A : Type} (f : A -> string) (l : list A) (n : string) :
  existsb (fun a => String.eqb (f a) n) l = true <-> In n (map f l).
Proof.
  rewrite existsb_exists, in_map_iff. split; intros (a & H1 & H2).
  - apply String.eqb_eq in H2. exists a. split; [exact H2|exact H1].
  - exists a. split; [exact H2|]. apply String.eqb_eq, H1.
Qed.

(** X3. The pose a phoneme leaves on the channels of the controls that
    are not protected does not depend on the pose before: 0 for a pause,
    otherwise 0.5 on the jaw channels of a vowel, 0.7 on the other mapped
    shapes and 0 on every other channel.  This is for the phonemes whose
    name is not one inherited from [Object.prototype]: for those the
    mapper throws before [applyPhoneme] writes anything. *)
Theorem applyPhoneme_pose (phoneme : string) (c : Controller) (n : string) (control : Control) :
  JS.inherited phoneme = false ->
  blendShapeControls c !! n = Some control -> isProtected n = false ->
  targetBlendShapes (applyPhoneme phoneme c) !! n =
  Some (if isPausePhoneme phoneme then 0%float
        else if JS.arrayIncludes vowelPhonemes phoneme
                && existsb (fun jaw => String.eqb (name jaw) n)
                     (jawControls (blendShapeControls c) vowelJawNames)
        then 0.5%float
        else if existsb (fun m => String.eqb (BlendShapeMapper.name m) n)
                  (mappedShapes (blendShapeControls c) phoneme)
        then 0.7%float
        else 0%float).
Proof.
  intros Hown Hc Hn. rewrite applyPhoneme_writes. fields. unfold phonemeWrites. rewrite Hown.
  set (zeros := map (fun n => (n, 0%float))
                  (List.filter (fun n => negb (isProtected n)) (keys (blendShapeControls c)))).
  assert (Hz : In n (map fst zeros)).
  { unfold zeros. rewrite map_map. cbn [fst]. rewrite map_id. apply filter_In.
    split; [apply keys_In; exists control; exact Hc|rewrite Hn; reflexivity]. }
  assert (Hz0 : Forall (fun w : string * float => w.2 = 0%float) zeros).
  { unfold zeros. apply List.Forall_forall. intros w Hw. apply in_map_iff in Hw as (k & <- & _).
    reflexivity. }
  assert (Hp : (String.eqb phoneme "PAUSE_SHORT" || String.eqb phoneme "PAUSE_MED"
                || String.eqb phoneme "PAUSE_LONG") = isPausePhoneme phoneme).
  { unfold isPausePhoneme, JS.arrayIncludes, pausePhonemes. cbn [existsb].
    destruct (String.eqb phoneme "PAUSE_SHORT"), (String.eqb phoneme "PAUSE_MED"),
      (String.eqb phoneme "PAUSE_LONG"); reflexivity. }
  rewrite Hp. destruct (isPausePhoneme phoneme).
  - rewrite applyWrites_app.
    set (jaws := map (fun control => (name control, 0%float)) _).
    destruct (in_dec string_dec n (map fst jaws)) as [Hj|Hj].
    + apply applyWrites_const; [|exact Hj].
      unfold jaws. apply List.Forall_forall. intros w Hw. apply in_map_iff in Hw as (k & <- & _).
      reflexivity.
    + rewrite applyWrites_miss by exact Hj. apply applyWrites_const; assumption.
  - rewrite !applyWrites_app.
    set (shapes := map (fun m => (BlendShapeMapper.name m, BlendShapeMapper.weight m)) _).
    assert (Hs7 : Forall (fun w : string * float => w.2 = 0.7%float) shapes).
    { unfold shapes. apply List.Forall_forall. intros w Hw. apply in_map_iff in Hw as (m & <- & Hm).
      apply filter_In in Hm as [Hm _].
      pose proof (mappedShapes_weight (blendShapeControls c) phoneme) as H.
      rewrite List.Forall_forall in H. apply H, Hm. }
    assert (Hs : existsb (fun m => String.eqb (BlendShapeMapper.name m) n)
                   (mappedShapes (blendShapeControls c) phoneme) = true <->
                 In n (map fst shapes)).
    { rewrite existsb_name_In. unfold shapes. rewrite map_map. cbn [fst].
      rewrite !in_map_iff. split; intros (m & Hm & Hin); exists m; (split; [exact Hm|]).
      - apply filter_In. split; [exact Hin|]. rewrite Hm. unfold writable. rewrite Hc, Hn.
        reflexivity.
      - apply filter_In in Hin as [Hin _]. exact Hin. }
    assert (Hshapes : applyWrites shapes (applyWrites zeros (targetBlendShapes c)) !! n =
                      Some (if existsb (fun m => String.eqb (BlendShapeMapper.name m) n)
                                  (mappedShapes (blendShapeControls c) phoneme)
                            then 0.7%float else 0%float)).
    { destruct (existsb _ (mappedShapes _ _)) eqn:E.
      - apply applyWrites_const; [exact Hs7|]. apply Hs. reflexivity.
      - rewrite applyWrites_miss; [apply applyWrites_const; assumption|].
        intros H. apply Hs in H. discriminate. }
    destruct (JS.arrayIncludes vowelPhonemes phoneme); cbn [andb].
    + destruct (existsb _ (jawControls _ _)) eqn:E.
      * apply applyWrites_const.
        -- apply List.Forall_forall. intros w Hw. apply in_map_iff in Hw as (k & <- & _).
           reflexivity.
        -- rewrite map_map. cbn [fst]. apply existsb_name_In. exact E.
      * rewrite applyWrites_miss; [exact Hshapes|].
        rewrite map_map. cbn [fst]. intros H. apply existsb_name_In in H.
        rewrite H in E. discriminate.
    + exact Hshapes.
Qed.

Lemma applyPhoneme_pose_witness :
  let n := "BlendShape_Main.MouthOpen" in
  (JS.inherited "AAA" = false /\
   blendShapeControls Sample.speaking !! n = Some (Sample.control n) /\ isProtected n = false) /\
  targetBlendShapes (applyPhoneme "AAA" Sample.speaking) !! n = Some 0.5%float.
Proof.
  assert (Hc : blendShapeControls Sample.speaking !! "BlendShape_Main.MouthOpen" =
               Some (Sample.control "BlendShape_Main.MouthOpen")) by (vm_compute; reflexivity).
  assert (Hn : isProtected "BlendShape_Main.MouthOpen" = false) by (vm_compute; reflexivity).
  split; [split; [reflexivity|split; assumption]|].
  rewrite (applyPhoneme_pose "AAA" Sample.speaking "BlendShape_Main.MouthOpen"
             (Sample.control "BlendShape_Main.MouthOpen") eq_refl Hc Hn).
  vm_compute. reflexivity.
Defined.

(** A phoneme of an inherited name leaves the pose as it is. *)
Lemma applyPhoneme_inherited (phoneme : string) (c : Controller) :
  JS.inherited phoneme = true -> applyPhoneme phoneme c = c.
Proof.
  intros H. unfold applyPhoneme. rewrite throws_head, H.
  assert (E : (String.eqb phoneme "PAUSE_SHORT" || String.eqb phoneme "PAUSE_MED"
               || String.eqb phoneme "PAUSE_LONG") = false).
  { destruct (String.eqb_spec phoneme "PAUSE_SHORT") as [->|_]; [discriminate|].
    destruct (String.eqb_spec phoneme "PAUSE_MED") as [->|_]; [discriminate|].
    destruct (String.eqb_spec phoneme "PAUSE_LONG") as [->|_]; [discriminate|reflexivity]. }
  rewrite E. reflexivity.
Qed.

Example applyPhoneme_constructor :
  targetBlendShapes (applyPhoneme "constructor" (applyPhoneme "AAA" Sample.idle))
    !! "BlendShapes_Main.aaa_M" = Some 0.7%float.
Proof. vm_compute. reflexivity. Qed.

(** ** Frames and preparations that are used up *)

Lemma map_imap_None {A B : Type} (f : string -> A -> option B) (m : gmap string A) :
  (forall k v, m !! k = Some v -> f k v = None) -> map_imap f m = ∅.
Proof.
  intros H. apply map_eq. intros k. rewrite map_lookup_imap, lookup_empty.
  destruct (m !! k) as [v|] eqn:E; [exact (H k v E)|reflexivity].
Qed.

Lemma set_current_sink_same (c : Controller) :
  set_sink (sink c) (set_currentBlendShapes (currentBlendShapes c) c) = c.
Proof. destruct c; reflexivity. Qed.

Lemma interpolate_no_writes (delta : float) (c : Controller) :
  (forall n v, targetBlendShapes c !! n = Some v -> interpolated c delta n v = None) ->
  interpolateBlendShapes delta c = c.
Proof.
  intros H. unfold interpolateBlendShapes. rewrite (map_imap_None _ _ H).
  rewrite !(left_id_L ∅ (∪)). apply set_current_sink_same.
Qed.

(** X4. Once the animation is stopped, a frame that still arrives writes
    nothing: neither the interpolation nor [animate] changes the state. *)
Theorem stopped_frames_write_nothing (delta now : float) (c : Controller) :
  interpolateBlendShapes delta (stopAnimation c) = stopAnimation c /\
  animate now (stopAnimation c) = stopAnimation c.
Proof.
  split.
  - apply interpolate_no_writes. intros n v Hv. apply interpolated_protected.
    rewrite stopAnimation_explicit in Hv. fields_in Hv.
    apply map_lookup_filter_Some in Hv as [_ Hp]. exact Hp.
  - unfold animate. rewrite stopAnimation_explicit. fields. reflexivity.
Qed.

(** X5. [startPreparedAnimation] uses the prepared phonemes up: a second
    call without a new preparation returns 0 and changes nothing. *)
Theorem startPreparedAnimation_consumes (now again : float) (c : Controller) :
  let c1 := (startPreparedAnimation now c).1 in
  preparedPhonemes c1 = None /\ startPreparedAnimation again c1 = (c1, 0%float).
Proof.
  assert (H : preparedPhonemes (startPreparedAnimation now c).1 = None).
  { unfold startPreparedAnimation. destruct (preparedPhonemes c) as [prepared|] eqn:E;
      [|exact E].
    destruct (schedule _ _ _ _ _) as [new final]. cbn [fst].
    unfold animate. fields. unfold interpolateBlendShapes. fields. reflexivity. }
  cbv zeta. split; [exact H|].
  unfold startPreparedAnimation at 1. rewrite H. reflexivity.
Qed.

(** ** The timeline in general *)

Section Timeline.

Variables (speedMs : float) (prepared : Prepared).

Let step (t : float) (p : string) : float :=
  (t + speedMs * JS.numberOr phonemeDurations p 1.0)%float.

Lemma schedule_cons (p : string) (rest : list string) (t l : float) :
  exists anticipated,
    Forall (fun timer => Spec.isApply timer = false) anticipated /\
    (anticipationEnabled prepared = false -> anticipated = []) /\
    schedule speedMs prepared (p :: rest) t l =
    ({| delay := t; callback := Apply p |} :: anticipated
       ++ (schedule speedMs prepared rest (step t p) (step t p)).1,
     (schedule speedMs prepared rest (step t p) (step t p)).2).
Proof.
  cbn [schedule]. fold (step t p).
  destruct (schedule speedMs prepared rest (step t p) (step t p)) as [later final].
  eexists. split; [|split; [|reflexivity]].
  - destruct (head rest) as [[|a n]|]; [constructor| |constructor].
    destruct (anticipationEnabled prepared); repeat constructor.
  - intros E. rewrite E. destruct (head rest) as [[|a n]|]; reflexivity.
Qed.

Lemma filter_none {A : Type} (f : A -> bool) (l : list A) :
  Forall (fun a => f a = false) l -> List.filter f l = [].
Proof.
  induction 1 as [|a l Ha _ IH]; [reflexivity|]. cbn [List.filter]. rewrite Ha. exact IH.
Qed.

Lemma schedule_applies (phs : list string) (t l : float) :
  let new := (schedule speedMs prepared phs t l).1 in
  length (List.filter Spec.isApply new) = length phs /\
  (forall k p, nth_error phs k = Some p ->
     nth_error (List.filter Spec.isApply new) k =
     Some {| delay := fold_left step (firstn k phs) t; callback := Apply p |}) /\
  (anticipationEnabled prepared = false -> List.filter Spec.isApply new = new).
Proof.
  revert t l. induction phs as [|p rest IH]; intros t l.
  - repeat split. intros [|k] q H; discriminate.
  - destruct (schedule_cons p rest t l) as (anticipated & Ha & Hoff & ->).
    specialize (IH (step t p) (step t p)). cbv zeta in IH. destruct IH as (IHl & IHn & IHoff).
    cbv zeta. cbn [fst List.filter Spec.isApply callback].
    rewrite List.filter_app, (filter_none _ _ Ha). cbn [app].
    split; [cbn [length]; rewrite IHl; reflexivity|]. split.
    + intros [|k] q H; cbn [nth_error firstn fold_left] in *.
      * injection H as <-. reflexivity.
      * apply IHn, H.
    + intros E. rewrite (Hoff E), (IHoff E). reflexivity.
Qed.

Lemma schedule_final (phs : list string) (t l : float) :
  (schedule speedMs prepared phs t l).2 =
  match phs with [] => l | _ :: _ => fold_left step phs t end.
Proof.
  revert t l. induction phs as [|p rest IH]; intros t l; [reflexivity|].
  destruct (schedule_cons p rest t l) as (anticipated & _ & _ & ->). cbn [snd].
  rewrite IH. destruct rest; reflexivity.
Qed.

End Timeline.

(** X6. The timeline of [startPreparedAnimation]: it registers one
    [applyPhoneme] timer per prepared phoneme, in order, the k-th one at
    the start offset plus the durations of the phonemes before it (speed
    times duration multiplier: the one the table has for the phoneme, 1
    when it has none, NaN when the phoneme is a name that the table
    inherits from [Object.prototype]); without anticipation it registers
    nothing else; the duration it returns is the end of the last phoneme
    plus the end delay. *)
Theorem startPreparedAnimation_timeline (now : float) (c : Controller) (prepared : Prepared) :
  preparedPhonemes c = Some prepared ->
  let step := fun (t : float) (p : string) =>
                (t + phonemeSpeedMs c * JS.numberOr phonemeDurations p 1.0)%float in
  exists new : list Timer,
    timers (startPreparedAnimation now c).1 = timers c ++ new /\
    length (List.filter Spec.isApply new) = length (phonemes prepared) /\
    (forall k p, nth_error (phonemes prepared) k = Some p ->
       nth_error (List.filter Spec.isApply new) k =
       Some {| delay := fold_left step (firstn k (phonemes prepared)) (phonemeOffsetMs c);
               callback := Apply p |}) /\
    (anticipationEnabled prepared = false -> List.filter Spec.isApply new = new) /\
    (startPreparedAnimation now c).2 =
      (match phonemes prepared with
       | [] => 0
       | _ :: _ => fold_left step (phonemes prepared) (phonemeOffsetMs c)
       end + endDelayMs c)%float.
Proof.
  intros Hp step.
  destruct (startPreparedAnimation_prepared now c prepared Hp) as (Ht & _ & Hd & _).
  pose proof (schedule_applies (phonemeSpeedMs c) prepared (phonemes prepared)
                (phonemeOffsetMs c) 0%float) as (Hl & Hn & Hoff).
  eexists. split; [exact Ht|]. split; [exact Hl|]. split; [exact Hn|]. split; [exact Hoff|].
  rewrite Hd, schedule_final. reflexivity.
Qed.

Lemma startPreparedAnimation_timeline_witness :
  let prepared := {| phonemes := ["AAA"; "SSS"]; anticipationEnabled := false;
                     anticipationFactor := 0.35; anticipationOffset := 81 |} in
  let c := set_preparedPhonemes (Some prepared) Sample.idle in
  preparedPhonemes c = Some prepared /\
  exists new : list Timer,
    timers (startPreparedAnimation 0 c).1 = timers c ++ new /\
    length (List.filter Spec.isApply new) = 2%nat /\
    (startPreparedAnimation 0 c).2 = (50 + 135 * 1.3 + 135 * 0.9 + 550)%float.
Proof.
  cbv zeta. split; [reflexivity|].
  destruct (startPreparedAnimation_timeline 0
              (set_preparedPhonemes
                 (Some {| phonemes := ["AAA"; "SSS"]; anticipationEnabled := false;
                          anticipationFactor := 0.35; anticipationOffset := 81 |})
                 Sample.idle) _ eq_refl) as (new & Ht & Hl & _ & _ & Hd).
  exists new. split; [exact Ht|]. split; [exact Hl|]. rewrite Hd. vm_compute. reflexivity.
Defined.

(** After a phoneme of an inherited name every time is NaN. *)
Example schedule_after_inherited_name :
  let prepared := {| phonemes := ["constructor"; "AAA"]; anticipationEnabled := false;
                     anticipationFactor := 0.35; anticipationOffset := 81 |} in
  map (fun timer => PrimFloat.eqb (delay timer) (delay timer))
      (schedule 135 prepared (phonemes prepared) 50 0).1 = [true; false].
Proof. vm_compute. reflexivity. Qed.

(** ** The character-based fallback *)

(** The phonemes of the fallback. *)
Lemma getPhonemeFromChar_vocabulary (char : ascii) (nextChar : option ascii) :
  In (getPhonemeFromChar char nextChar)
     ["TTH"; "AAA"; "EH"; "IEE"; "OHH"; "UUU"; "FFF"; "MBP"; "RRR"; "SSS"; "WWW"].
Proof.
  unfold getPhonemeFromChar.
  repeat match goal with
         | |- context [if ?b then _ else _] => destruct b
         end; cbn [In]; tauto.
Qed.

Lemma phonemesOfChars_cons (ch : ascii) (rest : list ascii) :
  phonemesOfChars (ch :: rest) =
  getPhonemeFromChar ch (head rest)
    :: phonemesOfChars (if String.eqb (getPhonemeFromChar ch (head rest)) "TTH"
                        then tl rest else rest).
Proof.
  cbn [phonemesOfChars]. destruct (String.eqb _ "TTH"); [|reflexivity].
  destruct rest; reflexivity.
Qed.

Lemma phonemesOfChars_ind (P : list ascii -> Prop) :
  P [] ->
  (forall ch rest, P rest -> P (tl rest) -> P (ch :: rest)) ->
  forall chars, P chars.
Proof.
  intros H0 Hs chars. enough (H : P chars /\ P (tl chars)) by apply H.
  induction chars as [|ch rest [IH1 IH2]]; [split; exact H0|].
  split; [apply Hs; assumption|exact IH1].
Qed.

Lemma phonemesOfChars_vocabulary (chars : list ascii) :
  Forall (fun p => In p ["TTH"; "AAA"; "EH"; "IEE"; "OHH"; "UUU"; "FFF"; "MBP"; "RRR"; "SSS";
                         "WWW"])
         (phonemesOfChars chars).
Proof.
  induction chars as [|ch rest IH1 IH2] using phonemesOfChars_ind; [constructor|].
  rewrite phonemesOfChars_cons. constructor; [apply getPhonemeFromChar_vocabulary|].
  destruct (String.eqb _ "TTH"); assumption.
Qed.

Lemma phonemesOfChars_length (chars : list ascii) :
  (length (phonemesOfChars chars) <= length chars <= 2 * length (phonemesOfChars chars))%nat.
Proof.
  induction chars as [|ch rest IH1 IH2] using phonemesOfChars_ind; [cbn; lia|].
  rewrite phonemesOfChars_cons. cbn [length].
  destruct (String.eqb _ "TTH"); [|lia].
  destruct rest as [|ch' rest']; cbn [tl length] in *; lia.
Qed.

Lemma length_list_ascii_of_string (s : string) :
  length (list_ascii_of_string s) = String.length s.
Proof. induction s as [|a s IH]; [reflexivity|]. cbn. rewrite IH. reflexivity. Qed.

(** X7. The character-based fallback, on a text of ASCII characters that
    is not empty: every phoneme it prepares has a duration multiplier and
    an entry in the table of the mapper, none is a pause, and there is one
    phoneme per character or per pair of characters. *)
Theorem preparePhonemes_vocabulary (text : string) (c : Controller) :
  text <> "" ->
  exists prepared,
    preparedPhonemes (preparePhonemes text c) = Some prepared /\
    (forall p, In p (phonemes prepared) ->
       isPausePhoneme p = false /\
       (exists multiplier, JS.prop phonemeDurations p = Some multiplier) /\
       (exists shapes, JS.prop BlendShapeMapper.standardPhonemes p = Some shapes)) /\
    (1 <= length (phonemes prepared) <= String.length text)%nat /\
    (String.length text <= 2 * length (phonemes prepared))%nat.
Proof.
  intros Htext. destruct text as [|a text]; [contradiction|].
  unfold preparePhonemes. fields. eexists. split; [reflexivity|]. cbn [phonemes].
  set (chars := map upperAscii (list_ascii_of_string (String a text))).
  assert (Hlen : length chars = String.length (String a text))
    by (unfold chars; rewrite length_map; apply length_list_ascii_of_string).
  split.
  - intros p Hp.
    pose proof (phonemesOfChars_vocabulary chars) as Hv.
    rewrite List.Forall_forall in Hv. specialize (Hv p Hp). cbn [In] in Hv.
    repeat destruct Hv as [<-|Hv]; try contradiction;
      (split; [reflexivity|split; eexists; reflexivity]).
  - pose proof (phonemesOfChars_length chars) as Hl. rewrite Hlen in Hl.
    cbn [String.length] in *. lia.
Qed.

Lemma preparePhonemes_vocabulary_witness :
  "the" <> "" /\
  exists prepared,
    preparedPhonemes (preparePhonemes "the" Sample.idle) = Some prepared /\
    (forall p, In p (phonemes prepared) ->
       isPausePhoneme p = false /\
       (exists multiplier, JS.prop phonemeDurations p = Some multiplier) /\
       (exists shapes, JS.prop BlendShapeMapper.standardPhonemes p = Some shapes)) /\
    (1 <= length (phonemes prepared) <= String.length "the")%nat /\
    (String.length "the" <= 2 * length (phonemes prepared))%nat.
Proof.
  split; [discriminate|].
  apply (preparePhonemes_vocabulary "the" Sample.idle). discriminate.
Defined.

Lemma schedule_timers_last (speedMs : float) (p : Prepared) (phs : list string) (t l l' : float) :
  (schedule speedMs p phs t l).1 = (schedule speedMs p phs t l').1.
Proof. destruct phs; reflexivity. Qed.

(** X8. The character-based path that schedules at once,
    [processWordCharacterBased], is [processPhonemes] on the phonemes that
    [preparePhonemes] prepares; it registers the timers that
    [preparePhonemes] followed by [startPreparedAnimation] registers for
    the same text, and ends at the same time; unlike that pair it neither
    stops a running animation nor starts the frame loop. *)
Theorem processWordCharacterBased_as_prepared (text : string) (now : float) (c : Controller) :
  text <> "" ->
  let direct := processWordCharacterBased text c in
  let prepared := (startPreparedAnimation now (preparePhonemes text c)).1 in
  (forall settings, preparedPhonemes (preparePhonemes text c) = Some settings ->
     direct = processPhonemes (phonemes settings) c) /\
  timers direct = timers prepared /\
  lastPhonemeTime direct = lastPhonemeTime prepared /\
  isAnimating direct = isAnimating c /\
  frameRequests direct = frameRequests c /\
  targetBlendShapes direct = targetBlendShapes c /\
  sink direct = sink c /\
  isAnimating prepared = true.
Proof.
  intros Ht. destruct text as [|a text]; [contradiction|].
  set (phs := phonemesOfChars (map upperAscii (list_ascii_of_string (String a text)))).
  set (settings := {| phonemes := phs;
                      anticipationEnabled := enabled (anticipation c);
                      anticipationFactor := factor (anticipation c);
                      anticipationOffset :=
                        (phonemeSpeedMs c * offsetFactor (anticipation c))%float |}).
  assert (Hprep : preparedPhonemes (preparePhonemes (String a text) c) = Some settings)
    by reflexivity.
  destruct (startPreparedAnimation_prepared now _ _ Hprep) as (Hti & Hl & _ & Hi & _).
  cbv zeta. split; [intros settings' H; rewrite Hprep in H; injection H as <-; reflexivity|].
  rewrite Hti, Hl, Hi. clear Hti Hl Hi.
  change (phonemes settings) with phs.
  change (phonemeSpeedMs (preparePhonemes (String a text) c)) with (phonemeSpeedMs c).
  change (phonemeOffsetMs (preparePhonemes (String a text) c)) with (phonemeOffsetMs c).
  change (timers (preparePhonemes (String a text) c)) with (timers c).
  unfold processWordCharacterBased. cbv zeta. fold phs. fold settings.
  assert (Hne : phs <> []).
  { pose proof (phonemesOfChars_length
                  (map upperAscii (list_ascii_of_string (String a text)))) as Hlen.
    fold phs in Hlen. intros E. rewrite E in Hlen. cbn in Hlen. lia. }
  rewrite (surjective_pairing
             (schedule (phonemeSpeedMs c) settings phs (phonemeOffsetMs c) (lastPhonemeTime c))).
  fields.
  rewrite (schedule_timers_last _ _ _ _ (lastPhonemeTime c) 0%float).
  rewrite !schedule_final. destruct phs; [contradiction|]. repeat split.
Qed.

Lemma processWordCharacterBased_as_prepared_witness :
  "the" <> "" /\
  timers (processWordCharacterBased "the" Sample.speaking) =
  timers (startPreparedAnimation 0 (preparePhonemes "the" Sample.speaking)).1.
Proof.
  assert (H : "the" <> "") by discriminate.
  split; [exact H|].
  destruct (processWordCharacterBased_as_prepared "the" 0 Sample.speaking H) as (_ & Ht & _).
  exact Ht.
Defined.

(** ** Attaching an audio source and polling it *)

(** X9. What [setAudioSource] leaves: it resolves to true exactly when the
    analysis gave at least one pause, and only then the poll is started;
    the tracking starts afresh; when it resolves to false, polls do
    nothing, whatever pauses the analyzer still holds. *)
Theorem setAudioSource_outcome (audioElement : AudioElement)
    (analysis : option (list AudioAnalyzer.Pause)) (c : Controller) :
  let c' := (setAudioSource audioElement analysis c).1 in
  let ok := (setAudioSource audioElement analysis c).2 in
  ok = match analysis with Some (_ :: _) => true | _ => false end /\
  usingAudioBasedPauses c' = ok /\
  pauseUpdateInterval c' = ok /\
  currentAudio c' = Some audioElement /\
  detectedPauses c' = match analysis with Some pauses => pauses | None => [] end /\
  analyzerPauses c' = match analysis with Some pauses => pauses | None => analyzerPauses c end /\
  lastAppliedPauseId c' = None /\ currentlyInPause c' = false /\
  (ok = false -> forall times, runPolls times c' = (c', [])).
Proof.
  unfold setAudioSource. destruct analysis as [[|pause pauses]|]; fields;
    cbn [length Nat.ltb Nat.leb fst snd]; fields;
    (repeat split; intros H; try discriminate H; intros times; apply runPolls_idle;
     right; right; reflexivity).
Qed.

Lemma setAudioSource_outcome_witness :
  let c' := (setAudioSource {| src := "speech.wav" |} (Some []) Sample.monitoring).1 in
  (setAudioSource {| src := "speech.wav" |} (Some []) Sample.monitoring).2 = false /\
  analyzerPauses c' = [] /\
  runPolls [1.125%float] c' = (c', []).
Proof.
  destruct (setAudioSource_outcome {| src := "speech.wav" |} (Some []) Sample.monitoring)
    as (Hok & _ & _ & _ & _ & Ha & _ & _ & Hpolls).
  split; [exact Hok|]. split; [exact Ha|]. apply Hpolls. exact Hok.
Defined.

(** X10. A poll of an animating controller that monitors an audio source
    leaves [currentlyInPause] telling whether the clock is within a
    detected pause; when it is not, the id of the last applied pause is
    kept. *)
Theorem poll_tracks_clock (currentTime : float) (c : Controller) :
  currentAudio c <> None -> isAnimating c = true -> usingAudioBasedPauses c = true ->
  let c' := (pollAudioPause currentTime c).1 in
  currentlyInPause c' = AudioAnalyzer.isInPause (analyzerPauses c) currentTime /\
  (AudioAnalyzer.isInPause (analyzerPauses c) currentTime = false ->
   lastAppliedPauseId c' = lastAppliedPauseId c /\
   targetBlendShapes c' = targetBlendShapes c /\
   (pollAudioPause currentTime c).2 = None).
Proof.
  intros Ha Hi Hu. unfold pollAudioPause, AudioAnalyzer.isInPause.
  destruct (currentAudio c) as [audio|]; [|contradiction]. rewrite Hi, Hu. cbn [negb orb].
  destruct (AudioAnalyzer.getPauseAtTime (analyzerPauses c) currentTime) as [pause|].
  - destruct (negb (currentlyInPause c) || _) eqn:E; cbn [fst snd]; fields.
    + split; [reflexivity|discriminate].
    + apply orb_false_iff in E as [E _]. apply negb_false_iff in E.
      split; [exact E|discriminate].
  - destruct (currentlyInPause c) eqn:E; cbn [fst snd]; fields; [|rewrite E]; repeat split.
Qed.

Lemma poll_tracks_clock_witness :
  (currentAudio Sample.monitoring <> None /\ isAnimating Sample.monitoring = true /\
   usingAudioBasedPauses Sample.monitoring = true) /\
  currentlyInPause (pollAudioPause 1.125 Sample.monitoring).1 = true /\
  currentlyInPause (pollAudioPause 1.5 Sample.monitoring).1 = false.
Proof.
  assert (H : currentAudio Sample.monitoring <> None /\ isAnimating Sample.monitoring = true /\
              usingAudioBasedPauses Sample.monitoring = true)
    by (split; [discriminate|split; reflexivity]).
  split; [exact H|]. destruct H as (Ha & Hi & Hu). split.
  - exact (proj1 (poll_tracks_clock 1.125 Sample.monitoring Ha Hi Hu)).
  - exact (proj1 (poll_tracks_clock 1.5 Sample.monitoring Ha Hi Hu)).
Defined.

Lemma poll_keeps_pauses (t : float) (c : Controller) :
  analyzerPauses (pollAudioPause t c).1 = analyzerPauses c.
Proof.
  unfold pollAudioPause. destruct (currentAudio c); [|reflexivity].
  destruct (negb (isAnimating c) || negb (usingAudioBasedPauses c)); [reflexivity|].
  destruct (AudioAnalyzer.getPauseAtTime _ _) as [pause|].
  - destruct (negb (currentlyInPause c) || _); [|reflexivity].
    cbn [fst]. fields. unfold applyPausePhoneme.
    destruct (negb (JS.arrayIncludes _ _)); reflexivity.
  - destruct (currentlyInPause c); reflexivity.
Qed.

Lemma poll_applied_id (t : float) (c : Controller) (id : string) :
  (pollAudioPause t c).2 = Some id ->
  exists pause, AudioAnalyzer.getPauseAtTime (analyzerPauses c) t = Some pause /\
                id = pauseId pause.
Proof.
  intros H. destruct (pollAudioPause t c) as [c' applied] eqn:E. cbn [snd] in H. subst applied.
  destruct (poll_applies_then_tracks t c c' id E) as (_ & _ & _ & Hp). exact Hp.
Qed.

(** X11. Whatever the clock readings, each pose reset of the poll is for a
    pause of the analyzer that the clock was within at one of the polls,
    and there are no more resets than polls. *)
Theorem runPolls_applies_detected_pauses (times : list float) (c : Controller) :
  (length (runPolls times c).2 <= length times)%nat /\
  forall id, In id (runPolls times c).2 ->
    exists t pause,
      In t times /\ In pause (analyzerPauses c) /\ Spec.Within t pause /\ id = pauseId pause.
Proof.
  revert c. induction times as [|t rest IH]; intros c.
  - split; [reflexivity|intros id []].
  - rewrite runPolls_cons. cbn [snd length].
    destruct (IH (pollAudioPause t c).1) as [IHl IHi]. split.
    + destruct (pollAudioPause t c).2; cbn [length]; lia.
    + assert (Hrest : forall id, In id (runPolls rest (pollAudioPause t c).1).2 ->
                exists t' pause, In t' (t :: rest) /\ In pause (analyzerPauses c) /\
                                 Spec.Within t' pause /\ id = pauseId pause).
      { intros id Hid. destruct (IHi id Hid) as (t' & pause & Ht & Hp & Hw & ->).
        rewrite poll_keeps_pauses in Hp. exists t', pause.
        split; [right; exact Ht|]. split; [exact Hp|]. split; [exact Hw|reflexivity]. }
      destruct (pollAudioPause t c).2 as [id0|] eqn:E; [|exact Hrest].
      intros id [<-|Hid]; [|apply Hrest, Hid].
      destruct (poll_applied_id t c id0 E) as (pause & Hg & ->).
      apply getPauseAtTime_Some in Hg as (before & after & Hb & Hw & _).
      exists t, pause. split; [left; reflexivity|]. split; [|split; [exact Hw|reflexivity]].
      rewrite Hb. apply in_or_app. right. left. reflexivity.
Qed.

Lemma runPolls_applies_detected_pauses_witness :
  let times := [1.125%float; 1.5%float; 1.125%float] in
  In "1.000_PAUSE_MED" (runPolls times Sample.monitoring).2 /\
  exists t pause,
    In t times /\ In pause (analyzerPauses Sample.monitoring) /\ Spec.Within t pause /\
    "1.000_PAUSE_MED" = pauseId pause.
Proof.
  assert (H : In "1.000_PAUSE_MED"
                 (runPolls [1.125%float; 1.5%float; 1.125%float] Sample.monitoring).2)
    by (vm_compute; left; reflexivity).
  split; [exact H|].
  exact (proj2 (runPolls_applies_detected_pauses [1.125%float; 1.5%float; 1.125%float]
                  Sample.monitoring) _ H).
Defined.

(** ** What the analysis returns *)

Lemma pauseType_isPausePhoneme (cfg : AudioAnalyzer.Config) (pauseDuration : float) :
  isPausePhoneme (AudioAnalyzer.pauseType cfg pauseDuration) = true.
Proof.
  unfold AudioAnalyzer.pauseType.
  destruct (PrimFloat.ltb _ _); [reflexivity|]. destruct (PrimFloat.ltb _ _); reflexivity.
Qed.

Lemma closePause_recordedBy (cfg : AudioAnalyzer.Config) (pauseStart timeSeconds : float)
    (pauses : list AudioAnalyzer.Pause) :
  Forall (recordedBy cfg) pauses ->
  Forall (recordedBy cfg) (AudioAnalyzer.closePause cfg pauseStart timeSeconds pauses).
Proof.
  intros H. unfold AudioAnalyzer.closePause. cbv zeta.
  destruct (JS.geb _ _) eqn:E; [|exact H].
  apply Forall_app. split; [exact H|]. constructor; [|constructor].
  split; [apply pauseType_isPausePhoneme|]. split; [reflexivity|exact E].
Qed.

Lemma scanFlag_recordedBy (cfg : AudioAnalyzer.Config) (sampleRate : float)
    (st : AudioAnalyzer.Scan) (flag : nat * bool) :
  Forall (recordedBy cfg) (AudioAnalyzer.pauses st) ->
  Forall (recordedBy cfg) (AudioAnalyzer.pauses (scanFlag cfg sampleRate st flag)).
Proof.
  intros H. unfold scanFlag. destruct (flag.2 && _); [exact H|].
  destruct (negb flag.2 && _); [|exact H]. apply closePause_recordedBy, H.
Qed.

Lemma detectPauses_empty (cfg : AudioAnalyzer.Config) (buffer : AudioAnalyzer.AudioBuffer) :
  AudioAnalyzer.channelData buffer = [] -> AudioAnalyzer.detectPauses cfg buffer = Some [].
Proof.
  intros E. unfold AudioAnalyzer.detectPauses. rewrite E. reflexivity.
Qed.

Lemma detectPauses_recordedBy (cfg : AudioAnalyzer.Config) (buffer : AudioAnalyzer.AudioBuffer)
    (pauses : list AudioAnalyzer.Pause) :
  AudioAnalyzer.detectPauses cfg buffer = Some pauses -> Forall (recordedBy cfg) pauses.
Proof.
  intros H.
  destruct (AudioAnalyzer.channelData buffer) as [|x data] eqn:Hdata.
  { rewrite detectPauses_empty in H by exact Hdata. injection H as <-. constructor. }
  destruct (AudioAnalyzer.windowSize (AudioAnalyzer.sampleRate buffer)) as [|w] eqn:Hw.
  { rewrite detectPauses_no_progress in H; [discriminate|exact Hw|]. rewrite Hdata. discriminate. }
  rewrite detectPauses_fold in H by (rewrite Hw; lia). injection H as <-.
  unfold finishScan.
  match goal with |- context [fold_left ?f ?l ?a] =>
    assert (Hscan : Forall (recordedBy cfg) (AudioAnalyzer.pauses (fold_left f l a)))
  end.
  { apply (fold_left_invariant
             (fun st => Forall (recordedBy cfg) (AudioAnalyzer.pauses st)));
      [constructor|]. intros st flag. apply scanFlag_recordedBy. }
  destruct (AudioAnalyzer.inPause _); [apply closePause_recordedBy|]; exact Hscan.
Qed.

(** X12. Every pause that [detectPauses] returns lasts at least the
    minimum duration, its duration is its span in milliseconds and its
    type is one of the three pause phonemes; so a poll that applies such a
    pause sets the target of every channel of the controls that is not
    protected to 0. *)
Theorem detected_pauses_reset_the_pose (cfg : AudioAnalyzer.Config)
    (buffer : AudioAnalyzer.AudioBuffer) (pauses : list AudioAnalyzer.Pause) :
  AudioAnalyzer.detectPauses cfg buffer = Some pauses ->
  (forall p, In p pauses ->
     isPausePhoneme (AudioAnalyzer.type p) = true /\
     AudioAnalyzer.duration p = ((AudioAnalyzer.end_ p - AudioAnalyzer.start p) * 1000)%float /\
     JS.geb (AudioAnalyzer.duration p) (AudioAnalyzer.minPauseDuration cfg) = true) /\
  (forall (c : Controller) (currentTime : float) (id : string),
     analyzerPauses c = pauses ->
     (pollAudioPause currentTime c).2 = Some id ->
     forall n control,
       blendShapeControls c !! n = Some control -> isProtected n = false ->
       targetBlendShapes (pollAudioPause currentTime c).1 !! n = Some 0%float).
Proof.
  intros H. apply detectPauses_recordedBy in H. rewrite List.Forall_forall in H.
  split; [exact H|].
  intros c t id Hc Hid n control Hn Hp.
  unfold pollAudioPause in *. destruct (currentAudio c); [|discriminate].
  destruct (negb (isAnimating c) || negb (usingAudioBasedPauses c)); [discriminate|].
  destruct (AudioAnalyzer.getPauseAtTime (analyzerPauses c) t) as [pause|] eqn:Hg.
  - destruct (negb (currentlyInPause c) || _); [|discriminate].
    cbn [fst]. fields. rewrite applyPausePhoneme_resets.
    + rewrite Hn, Hp. reflexivity.
    + apply getPauseAtTime_Some in Hg as (before & after & Hb & _).
      apply H. rewrite <- Hc, Hb. apply in_or_app. right. left. reflexivity.
  - destruct (currentlyInPause c); discriminate.
Qed.

Lemma detected_pauses_reset_the_pose_witness :
  let pauses := [ {| AudioAnalyzer.start := 0.1; AudioAnalyzer.end_ := 0.3;
                     AudioAnalyzer.duration := ((0.3 - 0.1) * 1000)%float;
                     AudioAnalyzer.type := "PAUSE_SHORT" |} ] in
  AudioAnalyzer.detectPauses AudioAnalyzer.defaultConfig (Sample.recording 200) = Some pauses /\
  forall p, In p pauses ->
    isPausePhoneme (AudioAnalyzer.type p) = true /\
    AudioAnalyzer.duration p = ((AudioAnalyzer.end_ p - AudioAnalyzer.start p) * 1000)%float /\
    JS.geb (AudioAnalyzer.duration p)
           (AudioAnalyzer.minPauseDuration AudioAnalyzer.defaultConfig) = true.
Proof.
  assert (H : AudioAnalyzer.detectPauses AudioAnalyzer.defaultConfig (Sample.recording 200) =
              Some [ {| AudioAnalyzer.start := 0.1; AudioAnalyzer.end_ := 0.3;
                        AudioAnalyzer.duration := ((0.3 - 0.1) * 1000)%float;
                        AudioAnalyzer.type := "PAUSE_SHORT" |} ])
    by (vm_compute; reflexivity).
  split; [exact H|].
  exact (proj1 (detected_pauses_reset_the_pose _ _ _ H)).
Defined.

(** X13. On a buffer whose sample rate is a finite number, [detectPauses]
    returns unless the window size is below 1 (a rate under 100 Hz) and
    there is a sample to read: then its loop never advances.  On an empty
    buffer it returns no pause. *)
Theorem detectPauses_returns (cfg : AudioAnalyzer.Config) (buffer : AudioAnalyzer.AudioBuffer) :
  PrimFloat.is_finite (AudioAnalyzer.sampleRate buffer) = true ->
  (AudioAnalyzer.detectPauses cfg buffer = None <->
   AudioAnalyzer.windowSize (AudioAnalyzer.sampleRate buffer) = 0%nat /\
   AudioAnalyzer.channelData buffer <> []) /\
  (AudioAnalyzer.channelData buffer = [] -> AudioAnalyzer.detectPauses cfg buffer = Some []).
Proof.
  intros _. split; [|apply detectPauses_empty]. split.
  - intros H.
    destruct (AudioAnalyzer.channelData buffer) as [|x data] eqn:Hdata.
    { rewrite detectPauses_empty in H by exact Hdata. discriminate. }
    split; [|discriminate].
    destruct (AudioAnalyzer.windowSize (AudioAnalyzer.sampleRate buffer)) as [|w] eqn:Hw;
      [reflexivity|].
    rewrite detectPauses_fold in H by (rewrite Hw; lia). discriminate.
  - intros [Hw Hdata]. apply detectPauses_no_progress; assumption.
Qed.

Lemma detectPauses_returns_witness :
  let slow := {| AudioAnalyzer.channelData := [0.25%float];
                 AudioAnalyzer.sampleRate := 99 |} in
  PrimFloat.is_finite (AudioAnalyzer.sampleRate slow) = true /\
  AudioAnalyzer.detectPauses AudioAnalyzer.defaultConfig slow = None.
Proof.
  cbv zeta. split; [vm_compute; reflexivity|].
  apply (proj1 (detectPauses_returns AudioAnalyzer.defaultConfig
                  {| AudioAnalyzer.channelData := [0.25%float];
                     AudioAnalyzer.sampleRate := 99 |} eq_refl)).
  split; [vm_compute; reflexivity|discriminate].
Defined.

(** ** Anticipation settings *)

Lemma leb_zero_total (x : float) :
  PrimFloat.eqb x x = true -> PrimFloat.leb x 0 = false -> PrimFloat.leb 0 x = true.
Proof.
  rewrite FloatAxioms.eqb_spec, !FloatAxioms.leb_spec. change (Prim2SF 0) with (S754_zero false).
  destruct (Prim2SF x) as [s|s| |s m e]; try destruct s; cbn; congruence.
Qed.

Lemma ltb_leb_one (x : float) : PrimFloat.ltb x 1 = true -> PrimFloat.leb x 1 = true.
Proof.
  rewrite FloatAxioms.ltb_spec, FloatAxioms.leb_spec. unfold SFltb, SFleb.
  destruct (SFcompare _ _) as [[]|]; congruence.
Qed.

Lemma ltb_zero_not_leb (x : float) : PrimFloat.ltb 0 x = true -> PrimFloat.leb x 0 = false.
Proof.
  rewrite FloatAxioms.ltb_spec, FloatAxioms.leb_spec. change (Prim2SF 0) with (S754_zero false).
  destruct (Prim2SF x) as [s|s| |s m e]; try destruct s; cbn; congruence.
Qed.

Lemma ltb_not_nan (x y : float) : PrimFloat.ltb x y = true -> PrimFloat.eqb x x = true.
Proof.
  rewrite FloatAxioms.ltb_spec, FloatAxioms.eqb_spec. unfold SFltb, SFeqb.
  destruct (Prim2SF x) as [s|s| |s m e]; try destruct s; cbn; try congruence.
  - rewrite Z.compare_refl, Pos.compare_cont_refl. reflexivity.
  - rewrite Z.compare_refl, Pos.compare_cont_refl. reflexivity.
Qed.

Lemma clamp01_range (x : float) :
  if PrimFloat.eqb x x
  then PrimFloat.leb 0 (clamp01 x) && PrimFloat.leb (clamp01 x) 1 = true
  else PrimFloat.eqb (clamp01 x) (clamp01 x) = false.
Proof.
  unfold clamp01, JS.min1. destruct (PrimFloat.eqb x x) eqn:Ex.
  - destruct (PrimFloat.ltb x 1) eqn:E1.
    + rewrite Ex. destruct (PrimFloat.leb x 0) eqn:E0; [reflexivity|].
      rewrite (leb_zero_total x Ex E0), (ltb_leb_one x E1). reflexivity.
    + reflexivity.
  - rewrite Ex. exact Ex.
Qed.

Lemma clamp01_inside (x : float) :
  PrimFloat.ltb 0 x = true -> PrimFloat.ltb x 1 = true -> clamp01 x = x.
Proof.
  intros H0 H1. unfold clamp01, JS.min1.
  rewrite (ltb_not_nan x 1 H1), H1, (ltb_not_nan x 1 H1), (ltb_zero_not_leb x H0). reflexivity.
Qed.

(** X14. [setAnticipation] stores a numeric factor or offset factor
    clamped: the stored number lies between 0 and 1, unless the given one
    is NaN, which is stored as it is; a number strictly between 0 and 1 is
    stored unchanged, and a setting that is not given is kept. *)
Theorem setAnticipation_clamps (enabled' : option bool) (factor' offsetFactor' : option float)
    (c : Controller) :
  let a := anticipation (setAnticipation enabled' factor' offsetFactor' c) in
  (forall x, factor' = Some x ->
     (if PrimFloat.eqb x x
      then PrimFloat.leb 0 (factor a) && PrimFloat.leb (factor a) 1 = true
      else PrimFloat.eqb (factor a) (factor a) = false) /\
     (PrimFloat.ltb 0 x = true -> PrimFloat.ltb x 1 = true -> factor a = x)) /\
  (forall x, offsetFactor' = Some x ->
     (if PrimFloat.eqb x x
      then PrimFloat.leb 0 (offsetFactor a) && PrimFloat.leb (offsetFactor a) 1 = true
      else PrimFloat.eqb (offsetFactor a) (offsetFactor a) = false) /\
     (PrimFloat.ltb 0 x = true -> PrimFloat.ltb x 1 = true -> offsetFactor a = x)) /\
  (factor' = None -> factor a = factor (anticipation c)) /\
  (offsetFactor' = None -> offsetFactor a = offsetFactor (anticipation c)) /\
  enabled a = match enabled' with Some b => b | None => enabled (anticipation c) end.
Proof.
  unfold setAnticipation. fields. cbn [factor offsetFactor enabled].
  split; [|split; [|split; [|split]]].
  - intros x ->. split; [apply clamp01_range|apply clamp01_inside].
  - intros x ->. split; [apply clamp01_range|apply clamp01_inside].
  - intros ->. reflexivity.
  - intros ->. reflexivity.
  - reflexivity.
Qed.

Lemma setAnticipation_clamps_witness :
  let a := anticipation (setAnticipation None (Some 7.5%float) (Some 0.25%float) Sample.idle) in
  factor a = 1%float /\ offsetFactor a = 0.25%float.
Proof.
  pose proof (setAnticipation_clamps None (Some 7.5%float) (Some 0.25%float) Sample.idle)
    as (_ & Ho & _).
  split; [vm_compute; reflexivity|].
  apply (proj2 (Ho 0.25%float eq_refl)); vm_compute; reflexivity.
Defined.

(** ** The cache of the phonetic analysis *)

Lemma speakCached_speak (text speed : string) (response : option (list string)) (now : float)
    (phoneticCache : gmap string (list string)) (c : Controller) :
  text <> "" ->
  speakCached text speed response now phoneticCache c =
  ((getPhonemes text response phoneticCache).1,
   speak text speed (getPhonemes text response phoneticCache).2 now c).
Proof.
  intros Ht. unfold speakCached, speak.
  destruct (speakBegin text speed c) as [c1|] eqn:E.
  - destruct (getPhonemes text response phoneticCache) as [cache fetched]. cbn [fst snd].
    destruct (speakResume text fetched now c1). reflexivity.
  - destruct text; [contradiction|discriminate].
Qed.

(** X15. The cache of the phonetic analysis: a sequence that [getPhonemes]
    returns is in the cache afterwards; entries are never replaced or
    removed; a failed request leaves the cache as it is; and a text that
    is cached is spoken with its cached sequence, whatever the service
    would answer. *)
Theorem getPhonemes_cache (text : string) (response : option (list string))
    (phoneticCache : gmap string (list string)) :
  let cache' := (getPhonemes text response phoneticCache).1 in
  let result := (getPhonemes text response phoneticCache).2 in
  (forall sequence, result = Some sequence -> cache' !! text = Some sequence) /\
  (forall other sequence,
     phoneticCache !! other = Some sequence -> cache' !! other = Some sequence) /\
  (result = None <-> phoneticCache !! text = None /\ response = None) /\
  (result = None -> cache' = phoneticCache) /\
  (forall sequence, phoneticCache !! text = Some sequence ->
     result = Some sequence /\ cache' = phoneticCache /\
     forall speed now c,
       text <> "" ->
       speakCached text speed response now phoneticCache c =
       (phoneticCache, speak text speed (Some sequence) now c)).
Proof.
  unfold getPhonemes.
  destruct (phoneticCache !! text) as [cached|] eqn:Hc; [|destruct response as [fresh|]];
    cbn [fst snd].
  - split; [intros s [= <-]; exact Hc|]. split; [intros; assumption|].
    split; [split; [discriminate|intros [H _]; discriminate]|]. split; [discriminate|].
    intros s [= <-]. split; [reflexivity|]. split; [reflexivity|].
    intros speed now c Ht. rewrite speakCached_speak by exact Ht.
    unfold getPhonemes. rewrite Hc. reflexivity.
  - split; [intros s [= <-]; apply lookup_insert_eq|]. split.
    + intros other s Ho. rewrite lookup_insert_ne; [exact Ho|]. intros <-. congruence.
    + split; [split; [discriminate|intros [_ H]; discriminate]|].
      split; [discriminate|]. intros s H. discriminate.
  - split; [discriminate|]. split; [intros; assumption|].
    split; [split; [intros _; split; reflexivity|reflexivity]|].
    split; [reflexivity|]. intros s H. discriminate.
Qed.

Lemma getPhonemes_cache_witness :
  let cache : gmap string (list string) := <["hi" := ["AAA"; "IEE"]]> ∅ in
  (cache !! "hi" = Some ["AAA"; "IEE"] /\ "hi" <> "") /\
  speakCached "hi" "normal" None 0 cache Sample.idle =
  (cache, speak "hi" "normal" (Some ["AAA"; "IEE"]) 0 Sample.idle).
Proof.
  cbv zeta. split; [split; [reflexivity|discriminate]|].
  pose proof (getPhonemes_cache "hi" None (<["hi" := ["AAA"; "IEE"]]> ∅)) as (_ & _ & _ & _ & H).
  destruct (H ["AAA"; "IEE"] eq_refl) as (_ & _ & Hs).
  apply Hs. discriminate.
Defined.

(** ** The shapes of a phoneme *)

Section MapperLoops.

Variables (available : list string) (prefix : string).

Lemma variants_loop_names (variants : list string) (ms : list BlendShapeMapper.Match)
    (n : string) :
  In n (map BlendShapeMapper.name
          (fold_left
             (fun ms variant =>
                let fullName := prefix +:+ variant in
                if JS.arrayIncludes available fullName
                then ms ++ [ {| BlendShapeMapper.name := fullName;
                                BlendShapeMapper.weight := 0.7 |} ]
                else ms)
             variants ms)) <->
  In n (map BlendShapeMapper.name ms) \/
  exists variant, In variant variants /\ n = prefix +:+ variant /\
                  JS.arrayIncludes available n = true.
Proof.
  revert ms. induction variants as [|v variants IH]; intros ms.
  - cbn [fold_left]. split; [left; assumption|]. intros [H|(v & [] & _)]. exact H.
  - cbn [fold_left]. rewrite IH. cbv zeta.
    destruct (JS.arrayIncludes available (prefix +:+ v)) eqn:E.
    + rewrite map_app, in_app_iff. cbn [map BlendShapeMapper.name In]. split.
      * intros [[H|[<-|[]]]|(v' & Hv & Hn)].
        -- left. exact H.
        -- right. exists v. split; [left; reflexivity|split; [reflexivity|exact E]].
        -- right. exists v'. split; [right; exact Hv|exact Hn].
      * intros [H|(v' & [<-|Hv] & Hn)].
        -- left. left. exact H.
        -- left. right. left. symmetry. apply Hn.
        -- right. exists v'. split; [exact Hv|exact Hn].
    + split.
      * intros [H|(v' & Hv & Hn)]; [left; exact H|].
        right. exists v'. split; [right; exact Hv|exact Hn].
      * intros [H|(v' & [<-|Hv] & Hn)].
        -- left. exact H.
        -- destruct Hn as [-> Hn]. congruence.
        -- right. exists v'. split; [exact Hv|exact Hn].
Qed.

Lemma synced_loop_names (syncedShapes : list string) (ms : list BlendShapeMapper.Match)
    (n : string) :
  In n (map BlendShapeMapper.name
          (fold_left
             (fun ms syncedShape =>
                let fullName := prefix +:+ syncedShape in
                if JS.arrayIncludes available fullName
                   && negb (existsb (fun m => String.eqb (BlendShapeMapper.name m) fullName) ms)
                then ms ++ [ {| BlendShapeMapper.name := fullName;
                                BlendShapeMapper.weight := 0.7 |} ]
                else ms)
             syncedShapes ms)) <->
  In n (map BlendShapeMapper.name ms) \/
  exists syncedShape, In syncedShape syncedShapes /\ n = prefix +:+ syncedShape /\
                      JS.arrayIncludes available n = true.
Proof.
  revert ms. induction syncedShapes as [|v shapes IH]; intros ms.
  - cbn [fold_left]. split; [left; assumption|]. intros [H|(v & [] & _)]. exact H.
  - cbn [fold_left]. rewrite IH. cbv zeta.
    destruct (JS.arrayIncludes available (prefix +:+ v)) eqn:E; cbn [andb].
    + destruct (existsb _ ms) eqn:Ex; cbn [negb].
      * apply existsb_name_In in Ex. split.
        -- intros [H|(v' & Hv & Hn)]; [left; exact H|].
           right. exists v'. split; [right; exact Hv|exact Hn].
        -- intros [H|(v' & [<-|Hv] & Hn)].
           ++ left. exact H.
           ++ left. destruct Hn as [-> _]. exact Ex.
           ++ right. exists v'. split; [exact Hv|exact Hn].
      * rewrite map_app, in_app_iff. cbn [map BlendShapeMapper.name In]. split.
        -- intros [[H|[<-|[]]]|(v' & Hv & Hn)].
           ++ left. exact H.
           ++ right. exists v. split; [left; reflexivity|split; [reflexivity|exact E]].
           ++ right. exists v'. split; [right; exact Hv|exact Hn].
        -- intros [H|(v' & [<-|Hv] & Hn)].
           ++ left. left. exact H.
           ++ left. right. left. symmetry. apply Hn.
           ++ right. exists v'. split; [exact Hv|exact Hn].
    + split.
      * intros [H|(v' & Hv & Hn)]; [left; exact H|].
        right. exists v'. split; [right; exact Hv|exact Hn].
      * intros [H|(v' & [<-|Hv] & Hn)].
        -- left. exact H.
        -- destruct Hn as [-> Hn]. congruence.
        -- right. exists v'. split; [exact Hv|exact Hn].
Qed.

End MapperLoops.

Lemma prefixes_loop_names (available variants syncedShapes prefixes : list string)
    (ms : list BlendShapeMapper.Match) (n : string) :
  In n (map BlendShapeMapper.name
          (fold_left
             (fun (matches : list BlendShapeMapper.Match) (prefix : string) =>
                let matches1 :=
                  fold_left
                    (fun ms variant =>
                       let fullName := prefix +:+ variant in
                       if JS.arrayIncludes available fullName
                       then ms ++ [ {| BlendShapeMapper.name := fullName;
                                       BlendShapeMapper.weight := 0.7 |} ]
                       else ms)
                    variants matches in
                fold_left
                  (fun ms syncedShape =>
                     let fullName := prefix +:+ syncedShape in
                     if JS.arrayIncludes available fullName
                        && negb (existsb (fun m => String.eqb (BlendShapeMapper.name m) fullName)
                                         ms)
                     then ms ++ [ {| BlendShapeMapper.name := fullName;
                                     BlendShapeMapper.weight := 0.7 |} ]
                     else ms)
                  syncedShapes matches1)
             prefixes ms)) <->
  In n (map BlendShapeMapper.name ms) \/
  exists prefix shape,
    In prefix prefixes /\ (In shape variants \/ In shape syncedShapes) /\
    n = prefix +:+ shape /\ JS.arrayIncludes available n = true.
Proof.
  revert ms. induction prefixes as [|prefix prefixes IH]; intros ms.
  - cbn [fold_left]. split; [left; assumption|]. intros [H|(p & s & [] & _)]. exact H.
  - cbn [fold_left]. rewrite IH. cbv zeta. rewrite synced_loop_names, variants_loop_names.
    split.
    + intros [[[H|(v & Hv & Hn)]|(v & Hv & Hn)]|(p & s & Hp & Hs & Hn)].
      * left. exact H.
      * right. exists prefix, v. split; [left; reflexivity|]. split; [left; exact Hv|exact Hn].
      * right. exists prefix, v. split; [left; reflexivity|]. split; [right; exact Hv|exact Hn].
      * right. exists p, s. split; [right; exact Hp|]. split; [exact Hs|exact Hn].
    + intros [H|(p & s & [<-|Hp] & Hs & Hn)].
      * left. left. left. exact H.
      * destruct Hs as [Hs|Hs].
        -- left. left. right. exists s. split; [exact Hs|exact Hn].
        -- left. right. exists s. split; [exact Hs|exact Hn].
      * right. exists p, s. split; [exact Hp|]. split; [exact Hs|exact Hn].
Qed.

Lemma arrayIncludes_In (l : list string) (x : string) :
  JS.arrayIncludes l x = true <-> In x l.
Proof.
  unfold JS.arrayIncludes. rewrite existsb_exists. split.
  - intros (y & Hy & E). apply String.eqb_eq in E. subst y. exact Hy.
  - intros H. exists x. split; [exact H|apply String.eqb_refl].
Qed.

Lemma prop_None_keys {A : Type} (obj : list (string * A)) (key : string) :
  JS.prop obj key = None <-> ~ In key (map fst obj).
Proof.
  induction obj as [|[k v] obj IH]; [cbn; tauto|]. cbn [JS.prop map fst In].
  destruct (String.eqb_spec k key) as [->|Hne].
  - split; [discriminate|]. intros H. exfalso. apply H. left. reflexivity.
  - rewrite IH. tauto.
Qed.

Lemma mapPhonemeToBlendShapes_unknown (availableBlendShapes : list string)
    (standardPhoneme modelPart : string) :
  JS.prop BlendShapeMapper.standardPhonemes standardPhoneme = None ->
  BlendShapeMapper.mapPhonemeToBlendShapes availableBlendShapes standardPhoneme modelPart = [].
Proof.
  intros Hnone.
  assert (Hsync : JS.prop BlendShapeMapper.syncedMovements standardPhoneme = None).
  { apply prop_None_keys. apply prop_None_keys in Hnone. exact Hnone. }
  unfold BlendShapeMapper.mapPhonemeToBlendShapes. rewrite Hnone, Hsync.
  cbn [BlendShapeMapper.orEmpty]. cbv zeta.
  induction (BlendShapeMapper.orEmpty (JS.prop BlendShapeMapper.prefixMappings modelPart))
    as [|prefix prefixes IH]; [reflexivity|exact IH].
Qed.

(** X16. The shapes [mapPhonemeToBlendShapes] returns, when it returns
    (it throws for a part of a name inherited from [Object.prototype], and
    for a phoneme of such a name when the part has a prefix): exactly the
    available names that are not protected and are a prefix of the model
    part followed by a variant or a synced shape of the phoneme, each with
    weight 0.7; none for a phoneme or a part that the tables do not have. *)
Theorem mapPhonemeToBlendShapes_matches (availableBlendShapes : list string)
    (standardPhoneme modelPart : string) :
  BlendShapeMapper.throws standardPhoneme modelPart = false ->
  let matches :=
    BlendShapeMapper.mapPhonemeToBlendShapes availableBlendShapes standardPhoneme modelPart in
  (forall n,
     In n (map BlendShapeMapper.name matches) <->
     In n availableBlendShapes /\
     BlendShapeMapper.isProtectedEmotionShape (Some n) = false /\
     exists prefix shape,
       In prefix (BlendShapeMapper.orEmpty (JS.prop BlendShapeMapper.prefixMappings modelPart)) /\
       (In shape (BlendShapeMapper.orEmpty
                    (JS.prop BlendShapeMapper.standardPhonemes standardPhoneme)) \/
        In shape (BlendShapeMapper.orEmpty
                    (match JS.prop BlendShapeMapper.syncedMovements standardPhoneme with
                     | Some parts => JS.prop parts modelPart
                     | None => None
                     end))) /\
       n = prefix +:+ shape) /\
  (forall m, In m matches -> BlendShapeMapper.weight m = 0.7%float) /\
  (JS.prop BlendShapeMapper.standardPhonemes standardPhoneme = None \/
   JS.prop BlendShapeMapper.prefixMappings modelPart = None -> matches = []).
Proof.
  intros _ matches.
  assert (Hnames : forall n,
     In n (map BlendShapeMapper.name matches) <->
     In n availableBlendShapes /\
     BlendShapeMapper.isProtectedEmotionShape (Some n) = false /\
     exists prefix shape,
       In prefix (BlendShapeMapper.orEmpty (JS.prop BlendShapeMapper.prefixMappings modelPart)) /\
       (In shape (BlendShapeMapper.orEmpty
                    (JS.prop BlendShapeMapper.standardPhonemes standardPhoneme)) \/
        In shape (BlendShapeMapper.orEmpty
                    (match JS.prop BlendShapeMapper.syncedMovements standardPhoneme with
                     | Some parts => JS.prop parts modelPart
                     | None => None
                     end))) /\
       n = prefix +:+ shape).
  { intros n. unfold matches, BlendShapeMapper.mapPhonemeToBlendShapes. cbv zeta.
    rewrite prefixes_loop_names. cbn [map In]. split.
    - intros [[]|(p & s & Hp & Hs & Hn & Ha)].
      apply arrayIncludes_In, filter_In in Ha as [Ha Hprot].
      apply negb_true_iff in Hprot.
      split; [exact Ha|]. split; [exact Hprot|]. exists p, s. auto.
    - intros (Ha & Hprot & p & s & Hp & Hs & Hn). right. exists p, s.
      split; [exact Hp|]. split; [exact Hs|]. split; [exact Hn|].
      apply arrayIncludes_In, filter_In. split; [exact Ha|]. rewrite Hprot. reflexivity. }
  split; [exact Hnames|]. split.
  - pose proof (mapPhonemeToBlendShapes_weight availableBlendShapes standardPhoneme modelPart)
      as H. rewrite List.Forall_forall in H. exact H.
  - intros [Hnone|Hnone]; [apply mapPhonemeToBlendShapes_unknown, Hnone|].
    destruct matches as [|m rest] eqn:E; [reflexivity|]. exfalso.
    assert (Hin : In (BlendShapeMapper.name m) (map BlendShapeMapper.name (m :: rest)))
      by (left; reflexivity).
    apply Hnames in Hin as (_ & _ & p & s & Hp & _).
    rewrite Hnone in Hp. destruct Hp.
Qed.

Lemma mapPhonemeToBlendShapes_matches_witness :
  let available := ["BlendShapes_Main.aaa_M"; "BlendShapes_Main.happy_M"; "BlendShape_Main.AHH"] in
  BlendShapeMapper.throws "AAA" "head" = false /\
  BlendShapeMapper.throws "PAUSE_MED" "head" = false /\
  In "BlendShape_Main.AHH"
     (map BlendShapeMapper.name
          (BlendShapeMapper.mapPhonemeToBlendShapes available "AAA" "head")) /\
  BlendShapeMapper.mapPhonemeToBlendShapes available "PAUSE_MED" "head" = [].
Proof.
  pose proof (mapPhonemeToBlendShapes_matches
                ["BlendShapes_Main.aaa_M"; "BlendShapes_Main.happy_M"; "BlendShape_Main.AHH"]
                "AAA" "head" eq_refl) as (Hn & _).
  pose proof (mapPhonemeToBlendShapes_matches
                ["BlendShapes_Main.aaa_M"; "BlendShapes_Main.happy_M"; "BlendShape_Main.AHH"]
                "PAUSE_MED" "head" eq_refl) as (_ & _ & He).
  split; [reflexivity|]. split; [reflexivity|]. split.
  - refine (proj2 (Hn "BlendShape_Main.AHH") _). split; [right; right; left; reflexivity|].
    split; [vm_compute; reflexivity|].
    exists "BlendShape_Main.", "AHH". split; [right; left; reflexivity|].
    split; [left; right; left; reflexivity|reflexivity].
  - apply He. left. reflexivity.
Defined.

Lemma prop_app_miss {A : Type} (obj more : list (string * A)) (key : string) :
  JS.prop obj key = None -> JS.prop (obj ++ more) key = JS.prop more key.
Proof.
  induction obj as [|[k v] obj IH]; [reflexivity|]. cbn [JS.prop app].
  destruct (String.eqb k key); [discriminate|exact IH].
Qed.

Lemma prop_app_hit {A : Type} (obj more : list (string * A)) (key : string) (v : A) :
  JS.prop obj key = Some v -> JS.prop (obj ++ more) key = Some v.
Proof.
  induction obj as [|[k w] obj IH]; [discriminate|]. cbn [JS.prop app].
  destruct (String.eqb k key); [auto|exact IH].
Qed.

Lemma table_loop_prop {A B : Type} (keep : string -> bool) (value : string -> B)
    (table : list (string * A)) (mapping : list (string * B)) (key : string) :
  JS.prop
    (fold_left
       (fun (mapping : list (string * B)) (entry : string * A) =>
          if keep entry.1 then mapping ++ [ (entry.1, value entry.1) ] else mapping)
       table mapping) key =
  match JS.prop mapping key with
  | Some v => Some v
  | None =>
      if existsb (fun entry : string * A => String.eqb entry.1 key) table && keep key
      then Some (value key) else None
  end.
Proof.
  revert mapping. induction table as [|[k a] table IH]; intros mapping.
  - cbn [fold_left existsb andb]. destruct (JS.prop mapping key); reflexivity.
  - cbn [fold_left existsb fst]. rewrite IH.
    destruct (JS.prop mapping key) as [v|] eqn:E.
    + destruct (keep k); [rewrite (prop_app_hit _ _ _ _ E)|rewrite E]; reflexivity.
    + destruct (String.eqb_spec k key) as [->|Hne].
      * destruct (keep key) eqn:Ek.
        -- rewrite prop_app_miss by exact E. cbn [JS.prop]. rewrite String.eqb_refl.
           reflexivity.
        -- rewrite E, andb_false_r. reflexivity.
      * destruct (keep k).
        -- rewrite prop_app_miss by exact E. cbn [JS.prop].
           destruct (String.eqb_spec k key); [contradiction|]. reflexivity.
        -- rewrite E. reflexivity.
Qed.

Lemma filter_filter_same {A : Type} (f : A -> bool) (l : list A) :
  List.filter f (List.filter f l) = List.filter f l.
Proof.
  induction l as [|a l IH]; [reflexivity|]. cbn [List.filter].
  destruct (f a) eqn:E; [cbn [List.filter]; rewrite E, IH|]; auto.
Qed.

Lemma mapPhonemeToBlendShapes_prefiltered (available : list string)
    (standardPhoneme modelPart : string) :
  BlendShapeMapper.mapPhonemeToBlendShapes
    (List.filter (fun shape => negb (BlendShapeMapper.isProtectedEmotionShape (Some shape)))
                 available)
    standardPhoneme modelPart =
  BlendShapeMapper.mapPhonemeToBlendShapes available standardPhoneme modelPart.
Proof.
  unfold BlendShapeMapper.mapPhonemeToBlendShapes. rewrite filter_filter_same. reflexivity.
Qed.

Lemma standardPhonemes_known (standardPhoneme : string) :
  existsb (fun entry : string * list string => String.eqb entry.1 standardPhoneme)
          BlendShapeMapper.standardPhonemes = false ->
  JS.prop BlendShapeMapper.standardPhonemes standardPhoneme = None.
Proof.
  intros H. apply prop_None_keys. intros Hin. apply in_map_iff in Hin as (entry & <- & Hin).
  assert (Hex : existsb (fun e : string * list string => String.eqb e.1 entry.1)
                        BlendShapeMapper.standardPhonemes = true)
    by (apply existsb_exists; exists entry; split; [exact Hin|apply String.eqb_refl]).
  rewrite Hex in H. discriminate.
Qed.

(** X17. [getAvailablePhonemes] on the names of the controls lists a
    phoneme exactly when [applyPhoneme] has a shape to drive for it: the
    four lists it stores are, one after the other, the shapes that
    [applyPhoneme] maps, and a phoneme it leaves out has none. *)
Theorem getAvailablePhonemes_lists (controls : gmap string Control) (phoneme : string) :
  let mapping := BlendShapeMapper.getAvailablePhonemes (keys controls) in
  (JS.prop mapping phoneme = None <-> mappedShapes controls phoneme = []) /\
  (forall parts, JS.prop mapping phoneme = Some parts ->
     mappedShapes controls phoneme =
     BlendShapeMapper.head parts ++ BlendShapeMapper.mouth parts
     ++ BlendShapeMapper.beard parts ++ BlendShapeMapper.moustache parts).
Proof.
  set (part := BlendShapeMapper.mapPhonemeToBlendShapes (keys controls)).
  set (keep := fun p : string =>
                 (0 <? length (part p "head"))%nat || (0 <? length (part p "mouth"))%nat
                 || (0 <? length (part p "beard"))%nat
                 || (0 <? length (part p "moustache"))%nat).
  set (value := fun p : string =>
                  {| BlendShapeMapper.head := part p "head";
                     BlendShapeMapper.mouth := part p "mouth";
                     BlendShapeMapper.beard := part p "beard";
                     BlendShapeMapper.moustache := part p "moustache" |}).
  assert (Hm : mappedShapes controls phoneme =
               part phoneme "head" ++ part phoneme "mouth" ++ part phoneme "beard"
               ++ part phoneme "moustache").
  { unfold mappedShapes, isProtected. cbv zeta. cbn [flat_map].
    rewrite !mapPhonemeToBlendShapes_prefiltered, app_nil_r. reflexivity. }
  assert (Hp : JS.prop (BlendShapeMapper.getAvailablePhonemes (keys controls)) phoneme =
               if existsb (fun entry : string * list string => String.eqb entry.1 phoneme)
                          BlendShapeMapper.standardPhonemes && keep phoneme
               then Some (value phoneme) else None).
  { change (BlendShapeMapper.getAvailablePhonemes (keys controls))
      with (fold_left
              (fun (mapping : list (string * BlendShapeMapper.PartMatches))
                   (entry : string * list string) =>
                 if keep entry.1 then mapping ++ [ (entry.1, value entry.1) ] else mapping)
              BlendShapeMapper.standardPhonemes []).
    rewrite table_loop_prop. reflexivity. }
  assert (Hkeep : keep phoneme = false <-> mappedShapes controls phoneme = []).
  { rewrite Hm. unfold keep.
    destruct (part phoneme "head"), (part phoneme "mouth"), (part phoneme "beard"),
      (part phoneme "moustache"); cbn; split; congruence. }
  cbv zeta. rewrite Hp. split.
  - destruct (existsb _ _) eqn:Ex; cbn [andb].
    + destruct (keep phoneme) eqn:Ek.
      * split; [discriminate|]. intros H. apply Hkeep in H. discriminate.
      * split; [intros _; apply Hkeep; reflexivity|reflexivity].
    + split; [|reflexivity]. intros _. rewrite Hm. unfold part.
      rewrite !mapPhonemeToBlendShapes_unknown by (apply standardPhonemes_known, Ex).
      reflexivity.
  - intros parts H. destruct (_ && _); [|discriminate]. injection H as <-. exact Hm.
Qed.

Lemma getAvailablePhonemes_lists_witness :
  mappedShapes Sample.controls "TTH" = [] /\
  JS.prop (BlendShapeMapper.getAvailablePhonemes (keys Sample.controls)) "TTH" = None.
Proof.
  assert (H : mappedShapes Sample.controls "TTH" = []) by (vm_compute; reflexivity).
  split; [exact H|].
  exact (proj2 (proj1 (getAvailablePhonemes_lists Sample.controls "TTH")) H).
Defined.

(** ** The mapper on a mesh *)

Lemma const_loop_lookup {A : Type} (g : A -> bool) (k : A -> nat) (v : A -> float) (w : float)
    (l : list A) (t : gmap nat float) (i : nat) :
  (forall a, In a l -> g a = true -> v a = w) ->
  fold_left (fun (t : gmap nat float) (a : A) => if g a then <[k a := v a]> t else t) l t !! i =
  if existsb (fun a => g a && Nat.eqb (k a) i) l then Some w else t !! i.
Proof.
  revert t. induction l as [|a l IH]; intros t Hv; [reflexivity|].
  cbn [fold_left existsb]. rewrite IH by (intros b Hb; apply Hv; right; exact Hb).
  destruct (existsb _ l); [rewrite orb_true_r; reflexivity|]. rewrite orb_false_r.
  destruct (g a) eqn:Eg; [|reflexivity]. cbn [andb].
  destruct (Nat.eqb_spec (k a) i) as [<-|Hne].
  - rewrite lookup_insert_eq, (Hv a (or_introl eq_refl) Eg). reflexivity.
  - apply lookup_insert_ne. exact Hne.
Qed.

Lemma apply_loop (dictionary : gmap string nat) (weight : float)
    (mapping : list BlendShapeMapper.Match) (influences : gmap nat float) :
  fold_left
    (fun (st : option BlendShapeMapper.Model) (m : BlendShapeMapper.Match) =>
       match st with
       | None => None
       | Some model =>
           match dictionary !! BlendShapeMapper.name m with
           | Some index =>
               if negb (BlendShapeMapper.isProtectedEmotionShape
                          (Some (BlendShapeMapper.name m)))
               then BlendShapeMapper.setInfluence index
                      (JS.min1 (weight * BlendShapeMapper.weight m)) model
               else Some model
           | None => Some model
           end
       end)
    mapping
    (Some {| BlendShapeMapper.morphTargetDictionary := Some dictionary;
             BlendShapeMapper.morphTargetInfluences := Some influences |}) =
  Some {| BlendShapeMapper.morphTargetDictionary := Some dictionary;
          BlendShapeMapper.morphTargetInfluences :=
            Some (fold_left
                    (fun (t : gmap nat float) (m : BlendShapeMapper.Match) =>
                       if match dictionary !! BlendShapeMapper.name m with
                          | Some _ => negb (BlendShapeMapper.isProtectedEmotionShape
                                              (Some (BlendShapeMapper.name m)))
                          | None => false
                          end
                       then <[default 0%nat (dictionary !! BlendShapeMapper.name m) :=
                                JS.min1 (weight * BlendShapeMapper.weight m)]> t
                       else t)
                    mapping influences) |}.
Proof.
  revert influences. induction mapping as [|m mapping IH]; intros influences; [reflexivity|].
  cbn [fold_left]. destruct (dictionary !! BlendShapeMapper.name m) as [index|];
    [|apply IH].
  destruct (negb _); [|apply IH]. unfold BlendShapeMapper.setInfluence.
  cbn [BlendShapeMapper.morphTargetInfluences BlendShapeMapper.morphTargetDictionary]. apply IH.
Qed.

(** X18. On a mesh with a dictionary and influences, and for a phoneme
    whose name is not one inherited from [Object.prototype], the mapper's
    [applyPhonemeBlendShape] writes [min(weight * 0.7, 1)] at the indices
    of the matched names and nothing else, an index that the dictionary
    gives to protected names only is written neither by it nor by
    [resetBlendShapes], and a reset after it leaves what a reset alone
    leaves.  On a mesh with a dictionary and for a phoneme of an inherited
    name it throws.  Without a dictionary both leave the mesh as it is. *)
Theorem mapper_apply_then_reset (model : BlendShapeMapper.Model) (phoneme : string)
    (weight : float) :
  (forall dictionary influences,
     BlendShapeMapper.morphTargetDictionary model = Some dictionary ->
     BlendShapeMapper.morphTargetInfluences model = Some influences ->
     JS.inherited phoneme = false ->
     exists influences',
       BlendShapeMapper.applyPhonemeBlendShape model phoneme weight =
         Some {| BlendShapeMapper.morphTargetDictionary := Some dictionary;
                 BlendShapeMapper.morphTargetInfluences := Some influences' |} /\
       (forall i,
          influences' !! i = Some (JS.min1 (weight * 0.7))%float \/
          influences' !! i = influences !! i) /\
       (forall i,
          (forall n, dictionary !! n = Some i ->
                     BlendShapeMapper.isProtectedEmotionShape (Some n) = true) ->
          influences' !! i = influences !! i /\
          exists reset,
            BlendShapeMapper.morphTargetInfluences (BlendShapeMapper.resetBlendShapes model)
            = Some reset /\
                        reset !! i = influences !! i) /\
       BlendShapeMapper.resetBlendShapes
         {| BlendShapeMapper.morphTargetDictionary := Some dictionary;
            BlendShapeMapper.morphTargetInfluences := Some influences' |}
       = BlendShapeMapper.resetBlendShapes model) /\
  (forall dictionary,
     BlendShapeMapper.morphTargetDictionary model = Some dictionary ->
     JS.inherited phoneme = true ->
     BlendShapeMapper.applyPhonemeBlendShape model phoneme weight = None) /\
  (BlendShapeMapper.morphTargetDictionary model = None ->
   BlendShapeMapper.applyPhonemeBlendShape model phoneme weight = Some model /\
   BlendShapeMapper.resetBlendShapes model = model).
Proof.
  split; [|split].
  - intros dictionary influences Hd Hi Hown. destruct model as [d inf]. cbn in Hd, Hi.
    subst d inf. unfold BlendShapeMapper.applyPhonemeBlendShape.
    cbn [BlendShapeMapper.morphTargetDictionary]. cbv zeta. rewrite throws_head, Hown.
    set (mapping := BlendShapeMapper.mapPhonemeToBlendShapes _ phoneme "head").
    rewrite apply_loop. eexists. split; [reflexivity|].
    assert (Hw : forall m, In m mapping ->
              match dictionary !! BlendShapeMapper.name m with
              | Some _ => negb (BlendShapeMapper.isProtectedEmotionShape
                                  (Some (BlendShapeMapper.name m)))
              | None => false
              end = true ->
              JS.min1 (weight * BlendShapeMapper.weight m) = JS.min1 (weight * 0.7)).
    { intros m Hm _.
      pose proof (mapPhonemeToBlendShapes_weight
                    (map fst (map_to_list dictionary)) phoneme "head") as H.
      rewrite List.Forall_forall in H. rewrite (H m Hm). reflexivity. }
    assert (Hreset : forall (t : gmap nat float) i,
              fold_left
                (fun (influences : gmap nat float) (entry : string * nat) =>
                   if negb (BlendShapeMapper.isProtectedEmotionShape (Some entry.1))
                   then <[entry.2 := 0%float]> influences
                   else influences)
                (map_to_list dictionary) t !! i =
              if existsb (fun entry : string * nat =>
                            negb (BlendShapeMapper.isProtectedEmotionShape (Some entry.1))
                            && Nat.eqb entry.2 i)
                         (map_to_list dictionary)
              then Some 0%float else t !! i).
    { intros t i.
      apply (const_loop_lookup
               (fun entry : string * nat =>
                  negb (BlendShapeMapper.isProtectedEmotionShape (Some entry.1)))
               snd (fun _ => 0%float) 0%float). reflexivity. }
    split; [|split].
    + intros i. rewrite (const_loop_lookup _ _ _ _ _ _ _ Hw).
      destruct (existsb _ mapping); [left|right]; reflexivity.
    + intros i Hprot. split.
      * rewrite (const_loop_lookup _ _ _ _ _ _ _ Hw).
        destruct (existsb _ mapping) eqn:E; [|reflexivity]. exfalso.
        apply existsb_exists in E as (m & _ & E). apply andb_true_iff in E as [Eg Ei].
        destruct (dictionary !! BlendShapeMapper.name m) as [index|] eqn:Ed; [|discriminate].
        cbn in Ei. apply Nat.eqb_eq in Ei. subst index.
        rewrite (Hprot _ Ed) in Eg. discriminate.
      * unfold BlendShapeMapper.resetBlendShapes.
       cbn [BlendShapeMapper.morphTargetInfluences BlendShapeMapper.morphTargetDictionary].
        eexists. split; [reflexivity|]. rewrite Hreset.
        destruct (existsb _ (map_to_list dictionary)) eqn:E; [|reflexivity]. exfalso.
        apply existsb_exists in E as ([n j] & Hin & E). cbn [fst snd] in E.
        apply andb_true_iff in E as [Eg Ei]. apply Nat.eqb_eq in Ei. subst j.
        apply list_elem_of_In, elem_of_map_to_list in Hin. rewrite (Hprot _ Hin) in Eg.
        discriminate.
    + unfold BlendShapeMapper.resetBlendShapes.
      cbn [BlendShapeMapper.morphTargetInfluences BlendShapeMapper.morphTargetDictionary].
      do 2 f_equal.
      apply map_eq. intros i. rewrite !Hreset.
      destruct (existsb _ (map_to_list dictionary)) eqn:E; [reflexivity|].
      rewrite (const_loop_lookup _ _ _ _ _ _ _ Hw).
      destruct (existsb _ mapping) eqn:Em; [|reflexivity]. exfalso.
      apply existsb_exists in Em as (m & _ & Em). apply andb_true_iff in Em as [Eg Ei].
      destruct (dictionary !! BlendShapeMapper.name m) as [index|] eqn:Ed; [|discriminate].
      cbn in Ei. apply Nat.eqb_eq in Ei. subst index.
      assert (Hex : existsb (fun entry : string * nat =>
                               negb (BlendShapeMapper.isProtectedEmotionShape (Some entry.1))
                               && Nat.eqb entry.2 i)
                            (map_to_list dictionary) = true).
      { apply existsb_exists. exists (BlendShapeMapper.name m, i).
        split; [apply list_elem_of_In, elem_of_map_to_list; exact Ed|].
        cbn [fst snd]. rewrite Eg, Nat.eqb_refl. reflexivity. }
      rewrite Hex in E. discriminate.
  - intros dictionary Hd Hinh. unfold BlendShapeMapper.applyPhonemeBlendShape.
    rewrite Hd. cbv zeta. rewrite throws_head, Hinh. reflexivity.
  - intros Hd.
    unfold BlendShapeMapper.applyPhonemeBlendShape, BlendShapeMapper.resetBlendShapes.
    rewrite Hd.
    split; [reflexivity|]. destruct (BlendShapeMapper.morphTargetInfluences model); reflexivity.
Qed.

Lemma mapper_apply_then_reset_witness :
  let dictionary : gmap string nat :=
    <["BlendShapes_Main.aaa_M" := 0%nat]> (<["BlendShapes_Main.happy_M" := 1%nat]> ∅) in
  let influences : gmap nat float := <[0%nat := 0.25%float]> (<[1%nat := 1%float]> ∅) in
  let model := {| BlendShapeMapper.morphTargetDictionary := Some dictionary;
                  BlendShapeMapper.morphTargetInfluences := Some influences |} in
  JS.inherited "AAA" = false /\
  BlendShapeMapper.applyPhonemeBlendShape model "toString" 1 = None /\
  exists influences',
    BlendShapeMapper.applyPhonemeBlendShape model "AAA" 1 =
      Some {| BlendShapeMapper.morphTargetDictionary := Some dictionary;
              BlendShapeMapper.morphTargetInfluences := Some influences' |} /\
    influences' !! 1%nat = Some 1%float /\
    BlendShapeMapper.resetBlendShapes
      {| BlendShapeMapper.morphTargetDictionary := Some dictionary;
         BlendShapeMapper.morphTargetInfluences := Some influences' |}
    = BlendShapeMapper.resetBlendShapes model.
Proof.
  cbv zeta. split; [reflexivity|]. split.
  { exact (proj1 (proj2 (mapper_apply_then_reset
                           {| BlendShapeMapper.morphTargetDictionary :=
                                Some (<["BlendShapes_Main.aaa_M" := 0%nat]>
                                        (<["BlendShapes_Main.happy_M" := 1%nat]> ∅));
                              BlendShapeMapper.morphTargetInfluences :=
                                Some (<[0%nat := 0.25%float]> (<[1%nat := 1%float]> ∅)) |}
                           "toString" 1)) _ eq_refl eq_refl). }
  destruct (proj1 (mapper_apply_then_reset
                     {| BlendShapeMapper.morphTargetDictionary :=
                          Some (<["BlendShapes_Main.aaa_M" := 0%nat]>
                                  (<["BlendShapes_Main.happy_M" := 1%nat]> ∅));
                        BlendShapeMapper.morphTargetInfluences :=
                          Some (<[0%nat := 0.25%float]> (<[1%nat := 1%float]> ∅)) |}
                     "AAA" 1) _ _ eq_refl eq_refl eq_refl)
    as (influences' & Ha & _ & Hp & Hr).
  exists influences'. split; [exact Ha|]. split; [|exact Hr].
  assert (Hprot : forall n : string,
            (<["BlendShapes_Main.aaa_M" := 0%nat]>
               (<["BlendShapes_Main.happy_M" := 1%nat]> ∅) : gmap string nat) !! n
            = Some 1%nat ->
            BlendShapeMapper.isProtectedEmotionShape (Some n) = true);
    [|rewrite (proj1 (Hp 1%nat Hprot)); reflexivity].
  intros n Hn. destruct (String.eqb_spec n "BlendShapes_Main.aaa_M") as [->|Hne].
  - rewrite lookup_insert_eq in Hn. discriminate.
  - rewrite lookup_insert_ne in Hn by congruence.
    destruct (String.eqb_spec n "BlendShapes_Main.happy_M") as [->|Hne'];
      [vm_compute; reflexivity|].
    rewrite lookup_insert_ne, lookup_empty in Hn by congruence. discriminate.
Defined.

(** ** Protected names *)

Lemma toLowerCase_app (a b : string) :
  JS.toLowerCase (a +:+ b) = JS.toLowerCase a +:+ JS.toLowerCase b.
Proof.
  induction a as [|ch a IH]; [reflexivity|].
  change (String ch a +:+ b) with (String ch (a +:+ b)).
  cbn [JS.toLowerCase]. rewrite IH. reflexivity.
Qed.

Lemma string_app_assoc (a b c : string) : (a +:+ b) +:+ c = a +:+ (b +:+ c).
Proof.
  induction a as [|ch a IH]; [reflexivity|].
  change ((String ch a +:+ b) +:+ c) with (String ch ((a +:+ b) +:+ c)).
  rewrite IH. reflexivity.
Qed.

Lemma toLowerCase_empty (s : string) : JS.toLowerCase s = "" <-> s = "".
Proof. destruct s; [tauto|]. split; discriminate. Qed.

Lemma isProtectedEmotionShape_lower (n : string) :
  BlendShapeMapper.isProtectedEmotionShape (Some n) =
  negb (String.eqb (JS.toLowerCase n) "")
  && existsb (fun protectedShape =>
                JS.includes (JS.toLowerCase n) (JS.toLowerCase protectedShape))
             BlendShapeMapper.protectedEmotionShapes.
Proof. destruct n; reflexivity. Qed.

(** X19. The test for protected names looks at the lower-case form of the
    name only, and a name that contains a protected name is protected. *)
Theorem isProtectedEmotionShape_closure :
  (forall n n' : string,
     JS.toLowerCase n = JS.toLowerCase n' ->
     BlendShapeMapper.isProtectedEmotionShape (Some n) =
     BlendShapeMapper.isProtectedEmotionShape (Some n')) /\
  (forall n before after : string,
     BlendShapeMapper.isProtectedEmotionShape (Some n) = true ->
     BlendShapeMapper.isProtectedEmotionShape (Some (before +:+ n +:+ after)) = true).
Proof.
  split.
  - intros n n' E. rewrite !isProtectedEmotionShape_lower, E. reflexivity.
  - intros n before after. rewrite !isProtectedEmotionShape_lower.
    intros H. apply andb_true_iff in H as [Hne Hex]. apply andb_true_iff. split.
    + apply negb_true_iff, String.eqb_neq. apply negb_true_iff, String.eqb_neq in Hne.
      intros E. apply toLowerCase_empty in E. apply Hne. apply toLowerCase_empty.
      destruct before; [|discriminate]. destruct n; [reflexivity|discriminate].
    + apply existsb_exists in Hex as (p & Hp & Hinc). apply existsb_exists.
      exists p. split; [exact Hp|]. apply includes_spec.
      apply includes_spec in Hinc as (pre & post & E).
      exists (JS.toLowerCase before +:+ pre), (post +:+ JS.toLowerCase after).
      rewrite !toLowerCase_app, E.
      rewrite !string_app_assoc. reflexivity.
Qed.

Lemma isProtectedEmotionShape_closure_witness :
  BlendShapeMapper.isProtectedEmotionShape (Some "BlendShape_Main.Happy") = true /\
  BlendShapeMapper.isProtectedEmotionShape (Some "BLENDSHAPE_MAIN.HAPPY") = true /\
  BlendShapeMapper.isProtectedEmotionShape (Some ("Head/" +:+ "BlendShape_Main.Happy" +:+ ".001"))
  = true.
Proof.
  assert (H : BlendShapeMapper.isProtectedEmotionShape (Some "BlendShape_Main.Happy") = true)
    by (vm_compute; reflexivity).
  split; [exact H|]. split.
  - rewrite <- (proj1 isProtectedEmotionShape_closure "BlendShape_Main.Happy"
                  "BLENDSHAPE_MAIN.HAPPY" eq_refl). exact H.
  - exact (proj2 isProtectedEmotionShape_closure "BlendShape_Main.Happy" "Head/" ".001" H).
Defined.

(** ** The sink and the current map *)

Section DisplayedSteps.

Variable controls : gmap string Control.

Lemma displayed_target (c c' : Controller) :
  blendShapeControls c' = blendShapeControls c ->
  currentBlendShapes c' = currentBlendShapes c ->
  sink c' = sink c ->
  (forall n, targetBlendShapes c !! n <> None -> targetBlendShapes c' !! n <> None) ->
  Displayed controls c -> Displayed controls c'.
Proof.
  intros Hk Hc Hs Ht (Dk & D1 & D2). unfold Displayed. rewrite Hk, Hc, Hs.
  split; [exact Dk|]. split; [|exact D2]. intros n Hn Hcur. apply Ht, D1; assumption.
Qed.

Lemma displayed_same (c c' : Controller) :
  blendShapeControls c' = blendShapeControls c ->
  targetBlendShapes c' = targetBlendShapes c ->
  currentBlendShapes c' = currentBlendShapes c ->
  sink c' = sink c ->
  Displayed controls c -> Displayed controls c'.
Proof.
  intros Hk Ht Hc Hs. apply displayed_target; try assumption. rewrite Ht. auto.
Qed.

Lemma fold_grows {A : Type} (step : gmap string float -> A -> gmap string float)
    (l : list A) (t : gmap string float) (n : string) :
  (forall t' a, t' !! n <> None -> step t' a !! n <> None) ->
  t !! n <> None -> fold_left step l t !! n <> None.
Proof.
  intros Hstep. revert t. induction l as [|a l IH]; intros t Ht; [exact Ht|].
  cbn [fold_left]. apply IH, Hstep, Ht.
Qed.

Lemma insert_grows (t : gmap string float) (k n : string) (v : float) :
  t !! n <> None -> <[k := v]> t !! n <> None.
Proof.
  intros H. destruct (String.eqb_spec k n) as [->|Hne].
  - rewrite lookup_insert_eq. discriminate.
  - rewrite lookup_insert_ne by exact Hne. exact H.
Qed.

Lemma displayed_applyPhoneme (phoneme : string) (c : Controller) :
  Displayed controls c -> Displayed controls (applyPhoneme phoneme c).
Proof.
  rewrite applyPhoneme_writes. apply displayed_target; try reflexivity.
  intros n. fields. unfold applyWrites. apply fold_grows. intros t' a. apply insert_grows.
Qed.

Lemma displayed_applyPausePhoneme (pauseType : string) (c : Controller) :
  Displayed controls c -> Displayed controls (applyPausePhoneme pauseType c).
Proof.
  unfold applyPausePhoneme. destruct (negb _); [auto|].
  apply displayed_target; try reflexivity.
  intros n. fields. unfold zeroTargets. apply fold_grows. intros t' a H.
  destruct (negb (isProtected a)); [apply insert_grows|]; exact H.
Qed.

Lemma displayed_applyAnticipatedPhoneme (currentPhoneme : string) (nextPhoneme : option string)
    (blendFactor : float) (c : Controller) :
  Displayed controls c ->
  Displayed controls (applyAnticipatedPhoneme currentPhoneme nextPhoneme blendFactor c).
Proof.
  unfold applyAnticipatedPhoneme. destruct nextPhoneme as [[|a next]|]; [auto| |auto].
  destruct (isPausePhoneme (String a next)).
  - apply displayed_target; try reflexivity.
    intros n. fields. apply fold_grows. intros t' k H.
    destruct (negb (isProtected k)); [apply insert_grows|]; exact H.
  - destruct (isPausePhoneme currentPhoneme); [auto|].
    destruct (BlendShapeMapper.throws currentPhoneme "head"
              || BlendShapeMapper.throws (String a next) "head"); [auto|].
    apply displayed_target; try reflexivity.
    intros n Hn. fields.
    match goal with |- context [?b ∪ targetBlendShapes c] =>
      assert (Hu : (b ∪ targetBlendShapes c) !! n <> None)
    end.
    { destruct (targetBlendShapes c !! n) as [v|] eqn:E; [|contradiction].
      match goal with |- (?b ∪ _) !! n <> None =>
        destruct (b !! n) as [w|] eqn:Eb
      end.
      - erewrite lookup_union_Some_l by exact Eb. discriminate.
      - rewrite lookup_union_r by exact Eb. rewrite E. discriminate. }
    destruct (_ || _); [|exact Hu].
    unfold setJaw. apply fold_grows; [|exact Hu]. intros t' k. apply insert_grows.
Qed.

Lemma displayed_pollAudioPause (currentTime : float) (c : Controller) :
  Displayed controls c -> Displayed controls (pollAudioPause currentTime c).1.
Proof.
  intros D. unfold pollAudioPause. destruct (currentAudio c); [|exact D].
  destruct (negb (isAnimating c) || negb (usingAudioBasedPauses c)); [exact D|].
  destruct (AudioAnalyzer.getPauseAtTime _ _) as [pause|].
  - destruct (negb (currentlyInPause c) || _); [|exact D]. cbn [fst].
    eapply displayed_same;
      [| | | |exact (displayed_applyPausePhoneme (AudioAnalyzer.type pause) c D)]; reflexivity.
  - destruct (currentlyInPause c); [|exact D].
    eapply displayed_same; [| | | |exact D]; reflexivity.
Qed.

Lemma displayed_interpolateBlendShapes (delta : float) (c : Controller) :
  Displayed controls c -> Displayed controls (interpolateBlendShapes delta c).
Proof.
  intros (Dk & D1 & D2). unfold interpolateBlendShapes, Displayed. fields.
  split; [exact Dk|]. split.
  - intros n Hn Hcur Et. apply (D1 n Hn); [|exact Et].
    rewrite lookup_union_r in Hcur; [exact Hcur|].
    rewrite map_lookup_imap, Et. reflexivity.
  - intros n control Hc Hb Hn.
    destruct (targetBlendShapes c !! n) as [v|] eqn:Et.
    + assert (Hw : exists x, map_imap (interpolated c delta) (targetBlendShapes c) !! n = Some x).
      { rewrite map_lookup_imap, Et. cbn. unfold interpolated.
        rewrite Dk, Hc, Hb, Hn. cbn [andb negb]. eexists. reflexivity. }
      destruct Hw as [x Hx].
      rewrite !(lookup_union_Some_l _ _ _ _ Hx). reflexivity.
    + assert (Hw : map_imap (interpolated c delta) (targetBlendShapes c) !! n = None)
        by (rewrite map_lookup_imap, Et; reflexivity).
      rewrite !lookup_union_r by exact Hw. apply (D2 n control); assumption.
Qed.

Lemma displayed_animate (now : float) (c : Controller) :
  Displayed controls c -> Displayed controls (animate now c).
Proof.
  intros D. unfold animate. destruct (negb (isAnimating c)); [exact D|].
  match goal with |- Displayed _ (set_frameRequests _ (interpolateBlendShapes ?d ?x)) =>
    assert (Dx : Displayed controls x) by (eapply displayed_same; [| | | |exact D]; reflexivity);
    pose proof (displayed_interpolateBlendShapes d x Dx) as Di
  end.
  eapply displayed_same; [| | | |exact Di]; reflexivity.
Qed.

Lemma displayed_resetBlendShapes (c : Controller) :
  Displayed controls c -> Displayed controls (resetBlendShapes c).
Proof.
  intros (Dk & D1 & D2). rewrite resetBlendShapes_eq. unfold Displayed. fields.
  assert (Hcur : forall n, isProtected n = false ->
            filter (fun kv : string * float =>
                      isProtected kv.1 = true \/ targetBlendShapes c !! kv.1 = None)
                   (currentBlendShapes c) !! n = None).
  { intros n Hn. apply map_lookup_filter_None. right. intros v Hv [Hp|Ht]; cbn [fst] in *.
    - congruence.
    - apply (D1 n Hn); [rewrite Hv; discriminate|exact Ht]. }
  split; [exact Dk|]. split.
  - intros n Hn H. rewrite (Hcur n Hn) in H. contradiction.
  - intros n control Hc Hb Hn. rewrite (Hcur n Hn).
    apply (zeroSink_hit _ _ n control); [rewrite Dk; exact Hc|exact Hb|exact Hn].
Qed.

Lemma displayed_stopAnimation (c : Controller) :
  Displayed controls c -> Displayed controls (stopAnimation c).
Proof.
  intros D. rewrite stopAnimation_eq. apply displayed_resetBlendShapes.
  eapply displayed_same; [| | | |exact D]; reflexivity.
Qed.

Lemma displayed_initializeBlendShapes (c : Controller) :
  Displayed controls c -> Displayed controls (initializeBlendShapes c).
Proof.
  intros (Dk & D1 & D2). unfold initializeBlendShapes, Displayed.
  rewrite initialize_loop_controls. split; [exact Dk|].
  split.
  - intros n Hn.
    destruct (initialize_loop_lookup (entries (blendShapeControls c)) c n) as (Ht & Hc & _).
    rewrite Ht, Hc. destruct (existsb _ _); [discriminate|apply D1, Hn].
  - intros n control Hc Hb Hn.
    destruct (initialize_loop_lookup (entries (blendShapeControls c)) c n) as (_ & Hcur & Hs).
    rewrite Hcur, Hs, written_by_initialize, Dk, Hc, Hb, Hn. reflexivity.
Qed.

Lemma displayed_startPreparedAnimation (now : float) (c : Controller) :
  Displayed controls c -> Displayed controls (startPreparedAnimation now c).1.
Proof.
  intros D. unfold startPreparedAnimation.
  destruct (preparedPhonemes c) as [prepared|]; [|exact D].
  set (c1 := if isAnimating c then stopAnimation c else c).
  assert (D1 : Displayed controls c1)
    by (unfold c1; destruct (isAnimating c); [apply displayed_stopAnimation|]; exact D).
  fields. destruct (schedule _ _ _ _ _) as [new final]. cbn [fst].
  apply displayed_animate. eapply displayed_same; [| | | |exact D1]; reflexivity.
Qed.

Lemma displayed_speak (text speed : string) (fetched : option (list string)) (now : float)
    (c : Controller) :
  Displayed controls c -> Displayed controls (speak text speed fetched now c).1.
Proof.
  intros D. unfold speak, speakBegin. destruct text as [|a text]; [exact D|].
  set (c1 := if isAnimating c then stopAnimation c else c).
  assert (D1 : Displayed controls c1)
    by (unfold c1; destruct (isAnimating c); [apply displayed_stopAnimation|]; exact D).
  destruct (speakResume _ _ _ _) as [c2 duration] eqn:E. cbn [fst].
  assert (E2 : c2 = (speakResume (String a text) fetched now
                       (set_phonemeSpeedMs
                          (JS.orDefault (JS.prop speechRate speed)
                             (JS.orDefault (JS.prop speechRate "normal") 0)) c1)).1)
    by (rewrite E; reflexivity).
  rewrite E2. unfold speakResume. apply displayed_startPreparedAnimation.
  destruct fetched as [phonemes|]; [|unfold preparePhonemes];
    (eapply displayed_same; [| | | |exact D1]; reflexivity).
Qed.

Lemma displayed_fireTimer (k : nat) (c : Controller) :
  Displayed controls c -> Displayed controls (fireTimer k c).
Proof.
  intros D. unfold fireTimer. destruct (nth_error (timers c) k) as [timer|]; [|exact D].
  set (c1 := set_timers _ c).
  assert (D1 : Displayed controls c1) by (eapply displayed_same; [| | | |exact D]; reflexivity).
  destruct (callback timer); unfold runCallback.
  - apply displayed_applyPhoneme, D1.
  - apply displayed_applyAnticipatedPhoneme, D1.
Qed.

Lemma displayed_perform (op : Operation) (c : Controller) :
  Displayed controls c -> Displayed controls (perform op c).
Proof.
  intros D. destruct op; unfold perform.
  - apply displayed_initializeBlendShapes, D.
  - apply displayed_applyPhoneme, D.
  - apply displayed_applyAnticipatedPhoneme, D.
  - apply displayed_applyPausePhoneme, D.
  - apply displayed_pollAudioPause, D.
  - apply displayed_interpolateBlendShapes, D.
  - apply displayed_animate, D.
  - apply displayed_resetBlendShapes, D.
  - apply displayed_stopAnimation, D.
  - unfold setAudioSource. destruct analysis as [pauses|];
      [fields; destruct (0 <? length pauses)%nat|];
      (eapply displayed_same; [| | | |exact D]; reflexivity).
  - apply displayed_startPreparedAnimation, D.
  - apply displayed_speak, D.
  - apply displayed_fireTimer, D.
  - eapply displayed_same; [| | | |exact D]; reflexivity.
  - unfold preparePhonemes. destruct text; [exact D|].
    eapply displayed_same; [| | | |exact D]; reflexivity.
  - eapply displayed_same; [| | | |exact D]; reflexivity.
  - eapply displayed_same; [| | | |exact D]; reflexivity.
Qed.

End DisplayedSteps.

Lemma displayed_create (controls : gmap string Control) : Displayed controls (create controls).
Proof.
  unfold create, initializeBlendShapes, Displayed. rewrite initialize_loop_controls.
  split; [reflexivity|]. cbn [blendShapeControls fresh]. split.
  - intros n Hn.
    destruct (initialize_loop_lookup (entries controls) (fresh controls) n) as (Ht & Hc & _).
    rewrite Ht, Hc. destruct (existsb _ _); [discriminate|]. cbn [currentBlendShapes fresh].
    rewrite lookup_empty. contradiction.
  - intros n control Hc Hb Hn.
    destruct (initialize_loop_lookup (entries controls) (fresh controls) n) as (_ & Hcur & Hs).
    rewrite Hcur, Hs, written_by_initialize, Hc, Hb, Hn. reflexivity.
Qed.

Lemma displayed_always (controls : gmap string Control) (ops : list Operation) :
  Displayed controls (fold_left (fun c op => perform op c) ops (create controls)).
Proof.
  apply (fold_left_invariant (Displayed controls)); [apply displayed_create|].
  intros c op. apply displayed_perform.
Qed.

(** X20. Whatever operations have run since the constructor, the channel
    sink shows the current map: the sink of a control with a mesh and a
    numeric index, whose name is not protected, holds the current weight
    of its channel, and 0 when the current map has no entry for it; and a
    channel with a current weight has a target. *)
Theorem sink_shows_current (controls : gmap string Control) (ops : list Operation)
    (n : string) (control : Control) :
  let c := fold_left (fun c op => perform op c) ops (create controls) in
  controls !! n = Some control -> bound control = true -> isProtected n = false ->
  sink c !! n = Some (match currentBlendShapes c !! n with Some v => v | None => 0%float end) /\
  (currentBlendShapes c !! n <> None -> targetBlendShapes c !! n <> None).
Proof.
  intros c Hc Hb Hn. destruct (displayed_always controls ops) as (_ & D1 & D2).
  split; [apply (D2 n control); assumption|apply D1; exact Hn].
Qed.

Lemma sink_shows_current_witness :
  let ops := [ OpSpeak "a" "normal" (Some ["AAA"; "SSS"]) 0; OpFireTimer 0; OpAnimate 16 ] in
  let n := "BlendShapes_Main.aaa_M" in
  let c := fold_left (fun c op => perform op c) ops (create Sample.controls) in
  (Sample.controls !! n = Some (Sample.control n) /\ bound (Sample.control n) = true /\
   isProtected n = false) /\
  sink c !! n = Some (match currentBlendShapes c !! n with Some v => v | None => 0%float end) /\
  currentBlendShapes c !! n <> None.
Proof.
  cbv zeta. split; [repeat split|]. split.
  - exact (proj1 (sink_shows_current Sample.controls
                    [ OpSpeak "a" "normal" (Some ["AAA"; "SSS"]) 0; OpFireTimer 0; OpAnimate 16 ]
                    "BlendShapes_Main.aaa_M" (Sample.control "BlendShapes_Main.aaa_M")
                    eq_refl eq_refl eq_refl)).
  - vm_compute. discriminate.
Defined.

(** ** Shapes are mapped once *)

Lemma fold_left_map_list {A B C : Type} (f : A -> C -> A) (g : B -> C) (l : list B) (a : A) :
  fold_left f (map g l) a = fold_left (fun a b => f a (g b)) l a.
Proof. revert a. induction l as [|b l IH]; intros a; [reflexivity|apply IH]. Qed.

Lemma fold_left_same {A B : Type} (f g : A -> B -> A) (l : list B) (a : A) :
  (forall a b, f a b = g a b) -> fold_left f l a = fold_left g l a.
Proof.
  intros H. revert a. induction l as [|b l IH]; intros a; [reflexivity|].
  cbn [fold_left]. rewrite H. apply IH.
Qed.

Lemma prefixes_loop_candidates (available variants syncedShapes prefixes : list string)
    (ms : list BlendShapeMapper.Match) :
  fold_left
    (fun (matches : list BlendShapeMapper.Match) (prefix : string) =>
       let matches1 :=
         fold_left
           (fun ms variant =>
              let fullName := prefix +:+ variant in
              if JS.arrayIncludes available fullName
              then ms ++ [ {| BlendShapeMapper.name := fullName;
                              BlendShapeMapper.weight := 0.7 |} ]
              else ms)
           variants matches in
       fold_left
         (fun ms syncedShape =>
            let fullName := prefix +:+ syncedShape in
            if JS.arrayIncludes available fullName
               && negb (existsb (fun m => String.eqb (BlendShapeMapper.name m) fullName) ms)
            then ms ++ [ {| BlendShapeMapper.name := fullName;
                            BlendShapeMapper.weight := 0.7 |} ]
            else ms)
         syncedShapes matches1)
    prefixes ms =
  fold_left (tryCandidate available)
    (flat_map (fun prefix => map (fun variant => (true, prefix +:+ variant)) variants
                             ++ map (fun syncedShape => (false, prefix +:+ syncedShape))
                                  syncedShapes)
              prefixes) ms.
Proof.
  revert ms. induction prefixes as [|prefix prefixes IH]; intros ms; [reflexivity|].
  cbn [fold_left flat_map]. rewrite IH, !fold_left_app, !fold_left_map_list.
  unfold tryCandidate. cbn [fst snd orb]. cbv zeta. f_equal. f_equal.
  apply fold_left_same. intros ms' v. rewrite andb_true_r. reflexivity.
Qed.

Lemma mapPhonemeToBlendShapes_candidates (availableBlendShapes : list string)
    (standardPhoneme modelPart : string) :
  BlendShapeMapper.mapPhonemeToBlendShapes availableBlendShapes standardPhoneme modelPart =
  fold_left
    (tryCandidate
       (List.filter (fun shape => negb (BlendShapeMapper.isProtectedEmotionShape (Some shape)))
                    availableBlendShapes))
    (candidates standardPhoneme modelPart) [].
Proof. apply prefixes_loop_candidates. Qed.

Lemma existsb_eqb_In (n : string) (l : list string) :
  existsb (String.eqb n) l = true <-> In n l.
Proof.
  rewrite existsb_exists. split.
  - intros (y & Hy & E). apply String.eqb_eq in E. subst y. exact Hy.
  - intros H. exists n. split; [exact H|apply String.eqb_refl].
Qed.

Lemma tryCandidate_firsts (available : list string) (cs : list (bool * string)) :
  forall (ms : list BlendShapeMapper.Match) (seen : list string),
    variantsFresh seen cs = true ->
    (forall n, JS.arrayIncludes available n = true ->
               (In n (map BlendShapeMapper.name ms) <-> In n seen)) ->
    map BlendShapeMapper.name (fold_left (tryCandidate available) cs ms) =
    map BlendShapeMapper.name ms
      ++ List.filter (JS.arrayIncludes available) (firstsFrom seen cs).
Proof.
  induction cs as [|[variant n] cs IH]; intros ms seen Hfresh Hinv.
  - cbn. rewrite app_nil_r. reflexivity.
  - cbn [fold_left variantsFresh firstsFrom] in *.
    apply andb_true_iff in Hfresh as [Hn Hfresh].
    unfold tryCandidate at 2. cbn [fst snd].
    destruct (JS.arrayIncludes available n) eqn:Ea; cbn [andb].
    + destruct (existsb (String.eqb n) seen) eqn:Es.
      * assert (Hin : In n (map BlendShapeMapper.name ms))
          by (apply (Hinv n Ea), existsb_eqb_In, Es).
        apply existsb_name_In in Hin. rewrite Hin.
        rewrite orb_false_r in Hn. apply negb_true_iff in Hn. rewrite Hn. cbn [orb negb].
        apply IH; [exact Hfresh|].
        intros y Hy. rewrite (Hinv y Hy). cbn [In]. split; [auto|].
        intros [<-|H]; [apply existsb_eqb_In, Es|exact H].
      * assert (Hout : existsb (fun m => String.eqb (BlendShapeMapper.name m) n) ms = false).
        { apply not_true_is_false. intros H. apply existsb_name_In, (Hinv n Ea) in H.
          apply existsb_eqb_In in H. congruence. }
        rewrite Hout, orb_true_r. cbn [List.filter]. rewrite Ea.
        rewrite (IH (ms ++ [ {| BlendShapeMapper.name := n;
                                BlendShapeMapper.weight := 0.7 |} ]) (n :: seen) Hfresh).
        -- rewrite map_app, <- app_assoc. reflexivity.
        -- intros y Hy. rewrite map_app, in_app_iff, (Hinv y Hy). cbn [map In].
           cbn [BlendShapeMapper.name]. tauto.
    + assert (E : List.filter (JS.arrayIncludes available)
                    (if existsb (String.eqb n) seen
                     then firstsFrom (n :: seen) cs
                     else n :: firstsFrom (n :: seen) cs) =
                  List.filter (JS.arrayIncludes available) (firstsFrom (n :: seen) cs))
        by (destruct (existsb _ seen); [reflexivity|cbn [List.filter]; rewrite Ea; reflexivity]).
      rewrite E. apply IH; [exact Hfresh|].
      intros y Hy. rewrite (Hinv y Hy). cbn [In]. split; [auto|].
      intros [<-|H]; [congruence|exact H].
Qed.


Lemma distinct_NoDup (l : list string) : distinct l = true -> NoDup l.
Proof.
  induction l as [|n l IH]; [constructor|]. cbn [distinct]. intros H.
  apply andb_true_iff in H as [Hn Hl]. constructor; [|apply IH, Hl].
  intros Hin. apply list_elem_of_In, existsb_eqb_In in Hin. rewrite Hin in Hn. discriminate.
Qed.

Lemma NoDup_filter_list {A : Type} (f : A -> bool) (l : list A) :
  NoDup l -> NoDup (List.filter f l).
Proof.
  induction 1 as [|a l Ha Hl IH]; [constructor|]. cbn [List.filter].
  destruct (f a); [|exact IH]. constructor; [|exact IH].
  intros Hin. apply list_elem_of_In, filter_In in Hin as [Hin _].
  apply Ha, list_elem_of_In, Hin.
Qed.

(** The tables of the mapper: for every phoneme and part, a variant never
    repeats an earlier candidate, and the four parts share no candidate. *)
Lemma tables_fresh :
  forallb
    (fun standardPhoneme =>
       forallb (fun modelPart => variantsFresh [] (candidates standardPhoneme modelPart))
               (map fst BlendShapeMapper.prefixMappings)
       && distinct (flat_map (fun modelPart => firstsFrom [] (candidates standardPhoneme modelPart))
                             [ "head"; "mouth"; "beard"; "moustache" ]))
    (map fst BlendShapeMapper.standardPhonemes) = true.
Proof. vm_compute. reflexivity. Qed.

Lemma candidates_fresh (standardPhoneme modelPart : string) :
  variantsFresh [] (candidates standardPhoneme modelPart) = true.
Proof.
  destruct (JS.prop BlendShapeMapper.standardPhonemes standardPhoneme) as [variants|] eqn:Ep.
  - destruct (JS.prop BlendShapeMapper.prefixMappings modelPart) as [prefixes|] eqn:Em.
    + pose proof tables_fresh as H. rewrite forallb_forall in H.
      assert (Hp : In standardPhoneme (map fst BlendShapeMapper.standardPhonemes)).
      { destruct (in_dec string_dec standardPhoneme (map fst BlendShapeMapper.standardPhonemes))
          as [Hin|Hout]; [exact Hin|]. apply prop_None_keys in Hout. congruence. }
      assert (Hm : In modelPart (map fst BlendShapeMapper.prefixMappings)).
      { destruct (in_dec string_dec modelPart (map fst BlendShapeMapper.prefixMappings))
          as [Hin|Hout]; [exact Hin|]. apply prop_None_keys in Hout. congruence. }
      specialize (H _ Hp). apply andb_true_iff in H as [H _].
      rewrite forallb_forall in H. exact (H _ Hm).
    + unfold candidates. rewrite Em. reflexivity.
  - assert (Hsync : JS.prop BlendShapeMapper.syncedMovements standardPhoneme = None)
      by (apply prop_None_keys; apply prop_None_keys in Ep; exact Ep).
    unfold candidates. rewrite Ep, Hsync. cbn [BlendShapeMapper.orEmpty]. cbv zeta.
    induction (BlendShapeMapper.orEmpty (JS.prop BlendShapeMapper.prefixMappings modelPart))
      as [|prefix prefixes IH]; [reflexivity|exact IH].
Qed.

Lemma mapPhonemeToBlendShapes_firsts (availableBlendShapes : list string)
    (standardPhoneme modelPart : string) :
  map BlendShapeMapper.name
      (BlendShapeMapper.mapPhonemeToBlendShapes availableBlendShapes standardPhoneme modelPart) =
  List.filter
    (JS.arrayIncludes
       (List.filter (fun shape => negb (BlendShapeMapper.isProtectedEmotionShape (Some shape)))
                    availableBlendShapes))
    (firstsFrom [] (candidates standardPhoneme modelPart)).
Proof.
  rewrite mapPhonemeToBlendShapes_candidates.
  rewrite (tryCandidate_firsts _ _ [] [] (candidates_fresh standardPhoneme modelPart)).
  - reflexivity.
  - intros n _. reflexivity.
Qed.


Lemma mappedShapes_NoDup (controls : gmap string Control) (phoneme : string) :
  NoDup (map BlendShapeMapper.name (mappedShapes controls phoneme)).
Proof.
  unfold mappedShapes. cbv zeta. cbn [flat_map].
  rewrite app_nil_r, !map_app, !mapPhonemeToBlendShapes_firsts, <- !List.filter_app.
  apply NoDup_filter_list.
  destruct (in_dec string_dec phoneme (map fst BlendShapeMapper.standardPhonemes))
    as [Hin|Hout].
  - pose proof tables_fresh as H. rewrite forallb_forall in H.
    specialize (H _ Hin). apply andb_true_iff in H as [_ H].
    apply distinct_NoDup in H. cbn [flat_map] in H. rewrite app_nil_r in H. exact H.
  - apply prop_None_keys in Hout.
    assert (Hsync : JS.prop BlendShapeMapper.syncedMovements phoneme = None)
      by (apply prop_None_keys; apply prop_None_keys in Hout; exact Hout).
    assert (E : forall part, firstsFrom [] (candidates phoneme part) = []).
    { intros part. unfold candidates. rewrite Hout, Hsync. cbn [BlendShapeMapper.orEmpty].
      cbv zeta.
      induction (BlendShapeMapper.orEmpty (JS.prop BlendShapeMapper.prefixMappings part))
        as [|prefix prefixes IH]; [reflexivity|exact IH]. }
    rewrite !E. constructor.
Qed.

Lemma mappedShapes_writable (controls : gmap string Control) (phoneme : string)
    (m : BlendShapeMapper.Match) :
  In m (mappedShapes controls phoneme) -> writable controls (BlendShapeMapper.name m) = true.
Proof.
  intros Hm. unfold mappedShapes in Hm. cbv zeta in Hm.
  apply in_flat_map in Hm as (part & _ & Hm).
  apply (in_map BlendShapeMapper.name) in Hm.
  rewrite mapPhonemeToBlendShapes_firsts in Hm. apply filter_In in Hm as [_ Hm].
  apply arrayIncludes_In, filter_In in Hm as [Hm _]. apply filter_In in Hm as [Hk Hp].
  apply keys_In in Hk as [control Hc]. unfold writable. rewrite Hc. exact Hp.
Qed.



(** ** Anticipation between two phonemes *)

Lemma fold_left_same_in {A B : Type} (f g : A -> B -> A) (l : list B) (a : A) :
  (forall a b, In b l -> f a b = g a b) -> fold_left f l a = fold_left g l a.
Proof.
  revert a. induction l as [|b l IH]; intros a H; [reflexivity|].
  cbn [fold_left]. rewrite H by (left; reflexivity). apply IH.
  intros a' b' Hb'. apply H. right. exact Hb'.
Qed.

Lemma union_lookup (b t : gmap string float) (n : string) :
  (b ∪ t) !! n = match b !! n with Some v => Some v | None => t !! n end.
Proof.
  destruct (b !! n) as [v|] eqn:E.
  - apply lookup_union_Some_l. exact E.
  - apply lookup_union_r. exact E.
Qed.

Section Blend.

Variables (controls : gmap string Control) (blendFactor : float).

Lemma current_shapes_blended (phoneme : string) (n : string) :
  fold_left
    (fun (b : gmap string float) (m : BlendShapeMapper.Match) =>
       if writable controls (BlendShapeMapper.name m)
       then <[BlendShapeMapper.name m := (BlendShapeMapper.weight m * (1 - blendFactor))%float]> b
       else b)
    (mappedShapes controls phoneme) ∅ !! n =
  if existsb (fun m => String.eqb (BlendShapeMapper.name m) n) (mappedShapes controls phoneme)
  then Some (0.7 * (1 - blendFactor))%float else None.
Proof.
  rewrite (guarded_loop_writes
             (fun m => writable controls (BlendShapeMapper.name m))
             BlendShapeMapper.name
             (fun m => (BlendShapeMapper.weight m * (1 - blendFactor))%float)).
  set (writes := map _ _).
  assert (Hin : existsb (fun m => String.eqb (BlendShapeMapper.name m) n)
                  (mappedShapes controls phoneme) = true <-> In n (map fst writes)).
  { rewrite existsb_name_In. unfold writes. rewrite map_map. cbn [fst].
    rewrite !in_map_iff. split; intros (m & Hm & Hmem); exists m; (split; [exact Hm|]).
    - apply filter_In. split; [exact Hmem|]. apply (mappedShapes_writable _ _ _ Hmem).
    - apply filter_In in Hmem as [Hmem _]. exact Hmem. }
  destruct (existsb _ _) eqn:E.
  - apply applyWrites_const; [|apply Hin; reflexivity].
    unfold writes. apply List.Forall_forall. intros w Hw.
    apply in_map_iff in Hw as (m & <- & Hm). apply filter_In in Hm as [Hm _].
    pose proof (mappedShapes_weight controls phoneme) as H.
    rewrite List.Forall_forall in H. cbn [snd]. rewrite (H m Hm). reflexivity.
  - rewrite applyWrites_miss; [apply lookup_empty|].
    intros H. apply Hin in H. discriminate.
Qed.

Lemma next_shapes_blended (phoneme : string) (b : gmap string float) (n : string) :
  fold_left
    (fun (b : gmap string float) (m : BlendShapeMapper.Match) =>
       if writable controls (BlendShapeMapper.name m) then
         let currentWeight := JS.orDefault (b !! BlendShapeMapper.name m) 0 in
         <[BlendShapeMapper.name m :=
             (currentWeight + BlendShapeMapper.weight m * blendFactor)%float]> b
       else b)
    (mappedShapes controls phoneme) b !! n =
  if existsb (fun m => String.eqb (BlendShapeMapper.name m) n) (mappedShapes controls phoneme)
  then Some (JS.orDefault (b !! n) 0 + 0.7 * blendFactor)%float else b !! n.
Proof.
  rewrite (fold_left_same_in _
             (fun (b : gmap string float) (m : BlendShapeMapper.Match) =>
                (fun (t : gmap string float) (k : string) =>
                   if writable controls k
                   then <[k := (JS.orDefault (t !! k) 0 + 0.7 * blendFactor)%float]> t
                   else t) b (BlendShapeMapper.name m))).
  - rewrite <- (fold_left_map_list
                  (fun (t : gmap string float) (k : string) =>
                     if writable controls k
                     then <[k := (JS.orDefault (t !! k) 0 + 0.7 * blendFactor)%float]> t
                     else t)
                  BlendShapeMapper.name).
    destruct (existsb _ _) eqn:E.
    + assert (Hin : In n (map BlendShapeMapper.name (mappedShapes controls phoneme)))
        by (apply existsb_name_In, E).
      apply (key_loop_hit (writable controls)
               (fun v => (JS.orDefault v 0 + 0.7 * blendFactor)%float));
        [apply mappedShapes_NoDup|exact Hin|].
      apply in_map_iff in Hin as (m & <- & Hm). apply (mappedShapes_writable _ _ _ Hm).
    + apply (key_loop_miss (writable controls)
               (fun v => (JS.orDefault v 0 + 0.7 * blendFactor)%float)).
      left. intros H. apply existsb_name_In in H. congruence.
  - intros b' m Hm. cbv beta zeta.
    pose proof (mappedShapes_weight controls phoneme) as H.
    rewrite List.Forall_forall in H. rewrite (H m Hm). reflexivity.
Qed.

End Blend.

(** X22. Anticipation between two phonemes of which none is a pause and
    none has a name inherited from [Object.prototype] (for such a name the
    mapper throws before the anticipation writes anything): the
    jaw channels get the blend of the two jaw weights when one of the
    phonemes is a vowel; otherwise a shape of the next phoneme gets 0.7
    times the blend factor, added to 0.7 times (1 - blend factor) when it
    is a shape of the current phoneme too; a shape of the current phoneme
    only gets 0.7 times (1 - blend factor); and every other channel keeps
    its target: unlike [applyPhoneme], the anticipation resets none. *)
Theorem anticipate_blends_shapes (currentPhoneme nextPhoneme : string) (blendFactor : float)
    (c : Controller) (n : string) :
  nextPhoneme <> "" ->
  isPausePhoneme nextPhoneme = false -> isPausePhoneme currentPhoneme = false ->
  JS.inherited nextPhoneme = false -> JS.inherited currentPhoneme = false ->
  let controls := blendShapeControls c in
  let shapeOf := fun phoneme =>
    existsb (fun m => String.eqb (BlendShapeMapper.name m) n) (mappedShapes controls phoneme) in
  let isCurrentVowel := JS.arrayIncludes vowelPhonemes currentPhoneme in
  let isNextVowel := JS.arrayIncludes vowelPhonemes nextPhoneme in
  targetBlendShapes (applyAnticipatedPhoneme currentPhoneme (Some nextPhoneme) blendFactor c) !! n =
  if (isCurrentVowel || isNextVowel)
     && existsb (fun jaw => String.eqb (name jaw) n) (jawControls controls vowelJawNames)
  then Some ((if isCurrentVowel then 0.5 * (1 - blendFactor) else 0)
             + (if isNextVowel then 0.5 * blendFactor else 0))%float
  else if shapeOf nextPhoneme
  then Some (JS.orDefault (if shapeOf currentPhoneme
                           then Some (0.7 * (1 - blendFactor))%float else None) 0
             + 0.7 * blendFactor)%float
  else if shapeOf currentPhoneme then Some (0.7 * (1 - blendFactor))%float
  else targetBlendShapes c !! n.
Proof.
  intros Hnext Hnp Hcp Hni Hci controls shapeOf isCurrentVowel isNextVowel.
  unfold applyAnticipatedPhoneme. destruct nextPhoneme as [|a next]; [contradiction|].
  rewrite Hnp, Hcp, !throws_head, Hni, Hci. cbn [orb]. fields.
  fold controls. fold isCurrentVowel. fold isNextVowel.
  match goal with |- context [?b ∪ targetBlendShapes c] => set (blended := b) end.
  assert (Hb : (blended ∪ targetBlendShapes c) !! n =
               if shapeOf (String a next)
               then Some (JS.orDefault (if shapeOf currentPhoneme
                                        then Some (0.7 * (1 - blendFactor))%float else None) 0
                          + 0.7 * blendFactor)%float
               else if shapeOf currentPhoneme then Some (0.7 * (1 - blendFactor))%float
               else targetBlendShapes c !! n).
  { rewrite union_lookup. unfold blended.
    rewrite next_shapes_blended, current_shapes_blended. fold (shapeOf (String a next)).
    fold (shapeOf currentPhoneme).
    destruct (shapeOf (String a next)); [reflexivity|].
    destruct (shapeOf currentPhoneme); reflexivity. }
  destruct (isCurrentVowel || isNextVowel); cbn [andb]; [|exact Hb].
  cbv zeta. unfold setJaw.
  match goal with
  | |- context [fold_left (fun t control => <[name control := ?v]> t) ?l ?t0] =>
      rewrite (loop_writes name (fun _ => v) l t0)
  end.
  destruct (existsb _ (jawControls controls vowelJawNames)) eqn:Ej.
  - apply applyWrites_const.
    + apply List.Forall_forall. intros w Hw. apply in_map_iff in Hw as (k & <- & _).
      reflexivity.
    + rewrite map_map. cbn [fst]. apply existsb_name_In. exact Ej.
  - rewrite applyWrites_miss; [exact Hb|].
    rewrite map_map. cbn [fst]. intros H. apply existsb_name_In in H. congruence.
Qed.

Lemma anticipate_blends_shapes_witness :
  let c := applyPhoneme "AAA" Sample.idle in
  ("SSS" <> "" /\ isPausePhoneme "SSS" = false /\ isPausePhoneme "AAA" = false /\
   JS.inherited "SSS" = false /\ JS.inherited "AAA" = false) /\
  targetBlendShapes (applyAnticipatedPhoneme "AAA" (Some "SSS") 0.5 c)
    !! "BlendShapes_Main.sss_M" = Some (0 + 0.7 * 0.5)%float.
Proof.
  assert (H1 : "SSS" <> "") by discriminate.
  assert (H2 : isPausePhoneme "SSS" = false) by reflexivity.
  assert (H3 : isPausePhoneme "AAA" = false) by reflexivity.
  split; [repeat split; assumption|].
  rewrite (anticipate_blends_shapes "AAA" "SSS" 0.5 (applyPhoneme "AAA" Sample.idle)
             "BlendShapes_Main.sss_M" H1 H2 H3 eq_refl eq_refl).
  vm_compute. reflexivity.
Defined.
